(** * worldsim: a shallow embedding of the simulation core

    The Python classes [Agent], [Group], [GridManager], [ResourceManager],
    [GroupManager], [CombatManager], [AgentManager] and the result-drain of
    [Simulation] are embedded as Rocq modules of the same names.  Objects
    live in stores keyed by their id (the managers' dictionaries); a method
    that mutates [self] or another object returns the updated stores.

    Conventions.
    - Python [int]s are [Z].  Python [float]s are exact rationals [Q]
      (no rounding error is modelled); [resource_level] and deposit
      quantities only ever hold integer values and are kept in [Z].
    - [None] is [option]'s [None]; Python truthiness is written out where the
      source relies on it (an id [0] is falsy in [a or b] and [if x:]).
    - Logging is not modelled: [log_agent_event] and [logging.*] have no
      effect on simulation state, except where a call itself raises.
    - Fields that no modelled method reads are left out of the records:
      [max_hp], [history_log], [current_action] and the plan dictionary's
      ['path'] entry (always [None]).  The action track
      ([set_new_action], [execute_agent_action], [request_decisions]) is
      never called by [Simulation] and is not embedded. *)

From Stdlib Require Import ZArith QArith Qminmax Qround Lqa Lia.
From Stdlib Require Import String Ascii List Bool.
From stdpp Require Import gmap strings list fin_maps sorting.

Local Open Scope Z_scope.

(** ** constants.py *)

Module constants.
Definition GRID_WIDTH : Z := 20.
Definition GRID_HEIGHT : Z := 20.
Definition RESOURCE_MAX_QUANTITY : Z := 40.
Definition AGENT_MAX_HP : Z := 100.
Definition AGENT_CONSUMPTION_RATE : Z := 1.
Definition STARVATION_DAMAGE_PER_TICK : Z := 2.
Definition AGENT_MAX_RESOURCES : Z := 200.
Definition PERCEPTION_RADIUS : Z := 5.
Definition MAX_TRAIL_LENGTH : nat := 15.
Definition AGENT_INITIAL_COLORS : list (Z * Z * Z) :=
  [ (0, 200, 255); (255, 150, 0); (0, 255, 100); (255, 50, 200);
    (150, 100, 255); (200, 255, 0); (255, 0, 0); (0, 0, 255);
    (100, 255, 150); (255, 100, 100) ].
Definition RESOURCE_COLLECT_AMOUNT : Z := 20.

End constants.
Import constants.

(** ** helper.py: enumerations and distance *)

Inductive PlanType :=
  | IDLE | GO_TO_POS | GO_TO_RESOURCE | GO_TO_AGENT | FORM_GROUP_WITH
  | ACCEPT_GROUP_FROM | ATTACK_TARGET | EXPLORE | WAITING_LLM
  | RESPOND_TO_GROUP_REQUEST | WAITING_GROUP_RESPONSE.

Global Instance PlanType_eq_dec : EqDecision PlanType.
Proof. solve_decision. Defined.

(** The member table of the enumeration, in declaration order.  Both
    [PlanType[name]] and the attribute access [PlanType.NAME] go through
    it. *)
Definition PlanType_members : list (string * PlanType) :=
  [ ("IDLE", IDLE); ("GO_TO_POS", GO_TO_POS);
    ("GO_TO_RESOURCE", GO_TO_RESOURCE); ("GO_TO_AGENT", GO_TO_AGENT);
    ("FORM_GROUP_WITH", FORM_GROUP_WITH);
    ("ACCEPT_GROUP_FROM", ACCEPT_GROUP_FROM);
    ("ATTACK_TARGET", ATTACK_TARGET); ("EXPLORE", EXPLORE);
    ("WAITING_LLM", WAITING_LLM);
    ("RESPOND_TO_GROUP_REQUEST", RESPOND_TO_GROUP_REQUEST);
    ("WAITING_GROUP_RESPONSE", WAITING_GROUP_RESPONSE) ]%string.

Fixpoint assoc_string {A} (k : string) (l : list (string * A)) : option A :=
  match l with
  | [] => None
  | (k', v) :: l' => if String.eqb k k' then Some v else assoc_string k l'
  end.

Definition PlanType_lookup (name : string) : option PlanType :=
  assoc_string name PlanType_members.

Definition Pos : Type := Z * Z.

Definition manhattan_distance (pos1 pos2 : Pos) : Z :=
  Z.abs (pos1.1 - pos2.1) + Z.abs (pos1.2 - pos2.2).

(** ** Values carried by plans and knowledge maps *)

(** The ['target'] of a plan dictionary.  Every plan the simulation stores
    is either a literal of the source or the output of the validation in
    [_process_llm_results], so a target is [None], an id, a pair of integer
    coordinates or a direction string. *)
Inductive Target :=
  | TNone
  | TInt (n : Z)
  | TPos (tx ty : Z)
  | TStr (s : string).

Record Plan := mkPlan { plan : PlanType; target : Target }.

Definition idle_plan : Plan := mkPlan IDLE TNone.

(** An entry of [known_resources] / [group_known_resources]. *)
Record KnownResource := mkKnown {
  type : string;
  last_seen_quantity : Z;
  last_seen_tick : Z
}.

Global Instance Target_eq_dec : EqDecision Target.
Proof. solve_decision. Defined.
Global Instance Plan_eq_dec : EqDecision Plan.
Proof. solve_decision. Defined.
Global Instance KnownResource_eq_dec : EqDecision KnownResource.
Proof. solve_decision. Defined.

Abbreviation Knowledge := (gmap (Z * Z) KnownResource).

(** Python's [a or b] on two optional ids: [a] when it is truthy (not
    [None] and not [0]), otherwise [b]. *)
Definition py_or (a b : option Z) : option Z :=
  match a with
  | Some v => if v =? 0 then b else Some v
  | None => b
  end.

(** [x == k] for an optional id [x] and an id [k]. *)
Definition opt_is (x : option Z) (k : Z) : bool :=
  match x with Some v => v =? k | None => false end.

Definition is_some {A} (x : option A) : bool :=
  match x with Some _ => true | None => false end.

Definition Qlt_bool (a b : Q) : bool := negb (Qle_bool b a).

(** ** agent.py *)

Module Agent.

Record t := mk {
  id : Z;
  x : Z;
  y : Z;
  hp : Q;
  resource_level : Z;
  base_strength : Z;
  base_defense : Z;
  base_fighting_ability : Z;
  group_id : option Z;
  ticks_since_last_llm_decision : Z;
  in_combat_with_group : option Z;
  in_combat_with_agent : option Z;
  pending_group_request_to : option Z;
  pending_group_requests_from : gset Z;
  simulation_time_step : Z;
  is_waiting_for_llm : bool;
  harvest_rate : Z;
  known_resources : Knowledge;
  color : Z * Z * Z;
  group_request_pending_decision : bool;
  llm_config : bool;
  current_plan : Plan;
  visited_trail : list (Pos * Z)
}.

(** Field assignments [self.f = v]. *)
Definition set_pos (nx ny : Z) (a : t) : t :=
  mk (id a) nx ny (hp a) (resource_level a) (base_strength a)
     (base_defense a) (base_fighting_ability a) (group_id a)
     (ticks_since_last_llm_decision a) (in_combat_with_group a)
     (in_combat_with_agent a) (pending_group_request_to a)
     (pending_group_requests_from a) (simulation_time_step a)
     (is_waiting_for_llm a) (harvest_rate a) (known_resources a) (color a)
     (group_request_pending_decision a) (llm_config a) (current_plan a)
     (visited_trail a).
Definition set_hp (v : Q) (a : t) : t :=
  mk (id a) (x a) (y a) v (resource_level a) (base_strength a)
     (base_defense a) (base_fighting_ability a) (group_id a)
     (ticks_since_last_llm_decision a) (in_combat_with_group a)
     (in_combat_with_agent a) (pending_group_request_to a)
     (pending_group_requests_from a) (simulation_time_step a)
     (is_waiting_for_llm a) (harvest_rate a) (known_resources a) (color a)
     (group_request_pending_decision a) (llm_config a) (current_plan a)
     (visited_trail a).
Definition set_resource_level (v : Z) (a : t) : t :=
  mk (id a) (x a) (y a) (hp a) v (base_strength a) (base_defense a)
     (base_fighting_ability a) (group_id a)
     (ticks_since_last_llm_decision a) (in_combat_with_group a)
     (in_combat_with_agent a) (pending_group_request_to a)
     (pending_group_requests_from a) (simulation_time_step a)
     (is_waiting_for_llm a) (harvest_rate a) (known_resources a) (color a)
     (group_request_pending_decision a) (llm_config a) (current_plan a)
     (visited_trail a).
Definition set_group_id (v : option Z) (a : t) : t :=
  mk (id a) (x a) (y a) (hp a) (resource_level a) (base_strength a)
     (base_defense a) (base_fighting_ability a) v
     (ticks_since_last_llm_decision a) (in_combat_with_group a)
     (in_combat_with_agent a) (pending_group_request_to a)
     (pending_group_requests_from a) (simulation_time_step a)
     (is_waiting_for_llm a) (harvest_rate a) (known_resources a) (color a)
     (group_request_pending_decision a) (llm_config a) (current_plan a)
     (visited_trail a).
Definition set_ticks_since_last_llm_decision (v : Z) (a : t) : t :=
  mk (id a) (x a) (y a) (hp a) (resource_level a) (base_strength a)
     (base_defense a) (base_fighting_ability a) (group_id a) v
     (in_combat_with_group a) (in_combat_with_agent a)
     (pending_group_request_to a) (pending_group_requests_from a)
     (simulation_time_step a) (is_waiting_for_llm a) (harvest_rate a)
     (known_resources a) (color a) (group_request_pending_decision a)
     (llm_config a) (current_plan a) (visited_trail a).
(** [self.in_combat_with_group = g; self.in_combat_with_agent = ag].  *)
Definition set_combat (g ag : option Z) (a : t) : t :=
  mk (id a) (x a) (y a) (hp a) (resource_level a) (base_strength a)
     (base_defense a) (base_fighting_ability a) (group_id a)
     (ticks_since_last_llm_decision a) g ag (pending_group_request_to a)
     (pending_group_requests_from a) (simulation_time_step a)
     (is_waiting_for_llm a) (harvest_rate a) (known_resources a) (color a)
     (group_request_pending_decision a) (llm_config a) (current_plan a)
     (visited_trail a).
Definition set_pending_group_request_to (v : option Z) (a : t) : t :=
  mk (id a) (x a) (y a) (hp a) (resource_level a) (base_strength a)
     (base_defense a) (base_fighting_ability a) (group_id a)
     (ticks_since_last_llm_decision a) (in_combat_with_group a)
     (in_combat_with_agent a) v (pending_group_requests_from a)
     (simulation_time_step a) (is_waiting_for_llm a) (harvest_rate a)
     (known_resources a) (color a) (group_request_pending_decision a)
     (llm_config a) (current_plan a) (visited_trail a).
Definition set_pending_group_requests_from (v : gset Z) (a : t) : t :=
  mk (id a) (x a) (y a) (hp a) (resource_level a) (base_strength a)
     (base_defense a) (base_fighting_ability a) (group_id a)
     (ticks_since_last_llm_decision a) (in_combat_with_group a)
     (in_combat_with_agent a) (pending_group_request_to a) v
     (simulation_time_step a) (is_waiting_for_llm a) (harvest_rate a)
     (known_resources a) (color a) (group_request_pending_decision a)
     (llm_config a) (current_plan a) (visited_trail a).
Definition set_simulation_time_step (v : Z) (a : t) : t :=
  mk (id a) (x a) (y a) (hp a) (resource_level a) (base_strength a)
     (base_defense a) (base_fighting_ability a) (group_id a)
     (ticks_since_last_llm_decision a) (in_combat_with_group a)
     (in_combat_with_agent a) (pending_group_request_to a)
     (pending_group_requests_from a) v (is_waiting_for_llm a)
     (harvest_rate a) (known_resources a) (color a)
     (group_request_pending_decision a) (llm_config a) (current_plan a)
     (visited_trail a).
Definition set_is_waiting_for_llm (v : bool) (a : t) : t :=
  mk (id a) (x a) (y a) (hp a) (resource_level a) (base_strength a)
     (base_defense a) (base_fighting_ability a) (group_id a)
     (ticks_since_last_llm_decision a) (in_combat_with_group a)
     (in_combat_with_agent a) (pending_group_request_to a)
     (pending_group_requests_from a) (simulation_time_step a) v
     (harvest_rate a) (known_resources a) (color a)
     (group_request_pending_decision a) (llm_config a) (current_plan a)
     (visited_trail a).
Definition set_known_resources (v : Knowledge) (a : t) : t :=
  mk (id a) (x a) (y a) (hp a) (resource_level a) (base_strength a)
     (base_defense a) (base_fighting_ability a) (group_id a)
     (ticks_since_last_llm_decision a) (in_combat_with_group a)
     (in_combat_with_agent a) (pending_group_request_to a)
     (pending_group_requests_from a) (simulation_time_step a)
     (is_waiting_for_llm a) (harvest_rate a) v (color a)
     (group_request_pending_decision a) (llm_config a) (current_plan a)
     (visited_trail a).
Definition set_color (v : Z * Z * Z) (a : t) : t :=
  mk (id a) (x a) (y a) (hp a) (resource_level a) (base_strength a)
     (base_defense a) (base_fighting_ability a) (group_id a)
     (ticks_since_last_llm_decision a) (in_combat_with_group a)
     (in_combat_with_agent a) (pending_group_request_to a)
     (pending_group_requests_from a) (simulation_time_step a)
     (is_waiting_for_llm a) (harvest_rate a) (known_resources a) v
     (group_request_pending_decision a) (llm_config a) (current_plan a)
     (visited_trail a).
Definition set_group_request_pending_decision (v : bool) (a : t) : t :=
  mk (id a) (x a) (y a) (hp a) (resource_level a) (base_strength a)
     (base_defense a) (base_fighting_ability a) (group_id a)
     (ticks_since_last_llm_decision a) (in_combat_with_group a)
     (in_combat_with_agent a) (pending_group_request_to a)
     (pending_group_requests_from a) (simulation_time_step a)
     (is_waiting_for_llm a) (harvest_rate a) (known_resources a) (color a)
     v (llm_config a) (current_plan a) (visited_trail a).
Definition set_current_plan (v : Plan) (a : t) : t :=
  mk (id a) (x a) (y a) (hp a) (resource_level a) (base_strength a)
     (base_defense a) (base_fighting_ability a) (group_id a)
     (ticks_since_last_llm_decision a) (in_combat_with_group a)
     (in_combat_with_agent a) (pending_group_request_to a)
     (pending_group_requests_from a) (simulation_time_step a)
     (is_waiting_for_llm a) (harvest_rate a) (known_resources a) (color a)
     (group_request_pending_decision a) (llm_config a) v (visited_trail a).
Definition set_visited_trail (v : list (Pos * Z)) (a : t) : t :=
  mk (id a) (x a) (y a) (hp a) (resource_level a) (base_strength a)
     (base_defense a) (base_fighting_ability a) (group_id a)
     (ticks_since_last_llm_decision a) (in_combat_with_group a)
     (in_combat_with_agent a) (pending_group_request_to a)
     (pending_group_requests_from a) (simulation_time_step a)
     (is_waiting_for_llm a) (harvest_rate a) (known_resources a) (color a)
     (group_request_pending_decision a) (llm_config a) (current_plan a) v.

(** [Agent.__init__]: the three combat statistics, the initial decision
    counter and the harvest rate are the constructor's random draws,
    passed in by the caller; [llm_config] records whether a configuration
    was assigned (the code only tests its truth). *)
Definition init (id x y strength defense fighting ticks rate : Z)
    (agent_llm_config : bool) : t :=
  mk id x y (inject_Z AGENT_MAX_HP) (AGENT_MAX_RESOURCES / 2)
     strength defense fighting None ticks None None None ∅ 0 false rate ∅
     (nth (Z.to_nat (id mod 10)) AGENT_INITIAL_COLORS (0, 0, 0))
     false agent_llm_config idle_plan [((x, y), 0)].

(** [in_combat] property. *)
Definition in_combat (a : t) : bool :=
  is_some (in_combat_with_group a) || is_some (in_combat_with_agent a).

Definition is_alive (a : t) : bool := Qlt_bool 0 (hp a).

Definition take_damage (amount : Q) (a : t) : t :=
  if negb (is_alive a) then a
  else
    let damage_taken := Qmax 0 amount in
    set_hp (Qmax 0 (hp a - damage_taken)) a.

Definition consume_resource (a : t) : t :=
  if is_alive a then
    let a1 := set_resource_level
                (Z.max 0 (resource_level a - AGENT_CONSUMPTION_RATE)) a in
    if resource_level a1 <=? 0
    then take_damage (inject_Z STARVATION_DAMAGE_PER_TICK) a1
    else a1
  else a.

Definition collect_resource (amount : Z) (a : t) : t :=
  set_resource_level (Z.min AGENT_MAX_RESOURCES (resource_level a + amount)) a.

Definition clear_pending_group_requests (a : t) : t :=
  let a1 := if is_some (pending_group_request_to a)
            then set_pending_group_request_to None a else a in
  let a2 := if bool_decide (pending_group_requests_from a1 ≠ ∅)
            then set_pending_group_requests_from ∅ a1 else a1 in
  set_group_request_pending_decision false a2.

(** [set_new_plan]: every caller passes a dictionary with a ['plan'] key,
    so the defaulting branch for a missing key is not reachable. *)
Definition set_new_plan (plan_dict : Plan) (a : t) : t :=
  if negb (is_alive a) then a
  else set_is_waiting_for_llm false (set_current_plan plan_dict a).

End Agent.

(** ** Stores *)

(** [AgentManager.agents]: the dictionary id -> Agent object.  Ids are
    handed out in increasing order and entries are only ever deleted, so
    the dictionary's insertion order (the order of every
    [for ... in self.agents...] loop) is the ascending order of the keys. *)
Abbreviation Agents := (gmap Z Agent.t).

Definition sorted_ids (s : gset Z) : list Z := merge_sort Z.le (elements s).

Definition agent_ids (agents : Agents) : list Z := sorted_ids (dom agents).

(** A list of Agent objects, as [get_member_agents] returns it: each
    object comes with the key it is stored under, through which it is
    mutated.  Sum of an integer statistic, and of the hit points, over such
    a list. *)
Definition sum_Z (f : Agent.t → Z) (l : list (Z * Agent.t)) : Z :=
  foldl (λ acc m, acc + f m.2) 0 l.
Definition sum_Q (f : Agent.t → Q) (l : list (Z * Agent.t)) : Q :=
  foldl (λ acc m, (acc + f m.2)%Q) 0%Q l.

(** ** group.py *)

Module Group.

Record t := mk {
  id : Z;
  member_ids : gset Z;
  group_strength : Z;
  group_defense : Z;
  group_fighting_ability : Z;
  total_hp : Q;
  in_combat_with_group : option Z;
  in_combat_with_agent : option Z;
  color : Z * Z * Z;
  group_known_resources : Knowledge
}.

Definition set_member_ids (v : gset Z) (g : t) : t :=
  mk (id g) v (group_strength g) (group_defense g)
     (group_fighting_ability g) (total_hp g) (in_combat_with_group g)
     (in_combat_with_agent g) (color g) (group_known_resources g).
Definition set_stats (s d f : Z) (h : Q) (g : t) : t :=
  mk (id g) (member_ids g) s d f h (in_combat_with_group g)
     (in_combat_with_agent g) (color g) (group_known_resources g).
Definition set_combat (cg ca : option Z) (g : t) : t :=
  mk (id g) (member_ids g) (group_strength g) (group_defense g)
     (group_fighting_ability g) (total_hp g) cg ca (color g)
     (group_known_resources g).
Definition set_group_known_resources (v : Knowledge) (g : t) : t :=
  mk (id g) (member_ids g) (group_strength g) (group_defense g)
     (group_fighting_ability g) (total_hp g) (in_combat_with_group g)
     (in_combat_with_agent g) (color g) v.

Definition in_combat (g : t) : bool :=
  is_some (in_combat_with_group g) || is_some (in_combat_with_agent g).

(** The test an id passes in the loop of [get_member_agents]: the agent
    exists, is alive and its [group_id] is this group's id. *)
Definition keeps (agents : Agents) (g : t) (agent_id : Z) : bool :=
  match agents !! agent_id with
  | Some a => Agent.is_alive a && opt_is (Agent.group_id a) (id g)
  | None => false
  end.

(** Writes the four aggregates from a member list (the tail of
    [update_stats]). *)
Definition write_stats (members : list (Z * Agent.t)) (g : t) : t :=
  match members with
  | [] => set_stats 0 0 0 0%Q g
  | _ => set_stats (sum_Z Agent.base_strength members)
                   (sum_Z Agent.base_defense members)
                   (sum_Z Agent.base_fighting_ability members)
                   (sum_Q Agent.hp members) g
  end.

(** [get_member_agents]: returns the living members whose [group_id]
    still names this group and drops every other id from [member_ids].
    When an id was dropped the method calls [update_stats], whose own
    nested call finds nothing more to drop and rewrites the aggregates
    from the same members.  The iteration order of a Python set is not
    specified; the members are listed by ascending id. *)
Definition get_member_agents (agents : Agents) (g : t)
    : t * list (Z * Agent.t) :=
  let kept := filter (λ i, keeps agents g i = true) (member_ids g) in
  let members := omap (λ i, (λ a, (i, a)) <$> agents !! i) (sorted_ids kept) in
  let ids_updated := bool_decide (kept ≠ member_ids g) in
  let g1 := set_member_ids kept g in
  (if ids_updated then write_stats members g1 else g1, members).

Definition update_stats (agents : Agents) (g : t) : t :=
  let '(g1, members) := get_member_agents agents g in
  write_stats members g1.

(** [Group.__init__]: returns the new group object and the agent store
    (the initial member, when it exists, is updated). *)
Definition init (id initial_member_id : Z) (agents : Agents)
    (initiator_color : Z * Z * Z) : t * Agents :=
  let g0 := mk id {[ initial_member_id ]} 0 0 0 0%Q None None
               initiator_color ∅ in
  match agents !! initial_member_id with
  | Some initial_agent =>
      let a1 := Agent.set_group_id (Some id) initial_agent in
      let a2 := Agent.set_color initiator_color a1 in
      let a3 := Agent.clear_pending_group_requests a2 in
      let g1 := set_group_known_resources (Agent.known_resources a3) g0 in
      let a4 := Agent.set_known_resources (group_known_resources g1) a3 in
      let agents' := <[initial_member_id := a4]> agents in
      (update_stats agents' g1, agents')
  | None => (update_stats agents g0, agents)
  end.

(** [add_member]: [dict.update] lets the joining agent's entries
    overwrite the group's on equal positions. *)
Definition add_member (agents : Agents) (g : t) (agent_id : Z)
    : bool * t * Agents :=
  match agents !! agent_id with
  | Some agent =>
      if Agent.is_alive agent && negb (is_some (Agent.group_id agent)) then
        let g1 := set_member_ids ({[ agent_id ]} ∪ member_ids g) g in
        let a1 := Agent.set_group_id (Some (id g)) agent in
        let a2 := Agent.set_color (color g) a1 in
        let a3 := Agent.clear_pending_group_requests a2 in
        let g2 := set_group_known_resources
                    (Agent.known_resources a3 ∪ group_known_resources g1) g1 in
        let a4 := Agent.set_known_resources (group_known_resources g2) a3 in
        let agents' := <[agent_id := a4]> agents in
        (true, update_stats agents' g2, agents')
      else (false, g, agents)
  | None => (false, g, agents)
  end.

Definition remove_member (agents : Agents) (g : t) (agent_id : Z)
    : t * Agents :=
  if bool_decide (agent_id ∈ member_ids g) then
    let g1 := set_member_ids (member_ids g ∖ {[ agent_id ]}) g in
    let agents' :=
      match agents !! agent_id with
      | Some agent =>
          <[agent_id := Agent.set_combat None None
                           (Agent.set_group_id None agent)]> agents
      | None => agents
      end in
    (if bool_decide (member_ids g1 = ∅) then g1
     else update_stats agents' g1, agents')
  else (g, agents).

(** Python's [round] on a float: to the nearest integer, ties to even. *)
Definition py_round (q : Q) : Z :=
  let f := Qfloor q in
  let r := (q - inject_Z f)%Q in
  if Qlt_bool r (1 # 2) then f
  else if Qlt_bool (1 # 2) r then f + 1
  else if Z.even f then f else f + 1.

Definition get_centroid (agents : Agents) (g : t) : t * option Pos :=
  let '(g1, members) := get_member_agents agents g in
  match members with
  | [] => (g1, None)
  | _ =>
      let n := inject_Z (Z.of_nat (length members)) in
      let avg_x := (inject_Z (sum_Z Agent.x members) / n)%Q in
      let avg_y := (inject_Z (sum_Z Agent.y members) / n)%Q in
      (g1, Some (py_round avg_x, py_round avg_y))
  end.

End Group.

Abbreviation Groups := (gmap Z Group.t).

(** ** Objects on the grid and the resource heap *)

(** A deposit's info dictionary [{'type': .., 'quantity': ..}].  The same
    dictionary object is the value of [ResourceManager.resources[pos]] and
    the second component of the grid marker [('Resource', res_info)], and a
    harvest mutates it in place; the objects therefore live in a heap and
    both places hold the reference. *)
Record ResInfo := mkRes { res_type : string; quantity : Z }.

Global Instance ResInfo_eq_dec : EqDecision ResInfo.
Proof. solve_decision. Defined.

Abbreviation Heap := (gmap nat ResInfo).

(** What a grid cell's list holds: an Agent object (named by its id) or a
    resource marker tuple. *)
Inductive Obj :=
  | ObjAgent (agent_id : Z)
  | ObjResource (ref : nat).

Definition is_agent_obj (o : Obj) : bool :=
  match o with ObjAgent _ => true | ObjResource _ => false end.

(** [o1 == o2] as [list.__contains__] and [list.remove] apply it: Agent
    objects compare by identity; marker tuples compare by value, so two
    markers are equal when their dictionaries are the same object or hold
    equal contents. *)
Definition obj_eqb (heap : Heap) (o1 o2 : Obj) : bool :=
  match o1, o2 with
  | ObjAgent i, ObjAgent j => i =? j
  | ObjResource r1, ObjResource r2 =>
      (r1 =? r2)%nat ||
      match heap !! r1, heap !! r2 with
      | Some i1, Some i2 => bool_decide (i1 = i2)
      | _, _ => false
      end
  | _, _ => false
  end.

(** [list.remove]: drops the first element equal to [o]. *)
Fixpoint remove_first (eqb : Obj → Obj → bool) (o : Obj) (l : list Obj)
    : list Obj :=
  match l with
  | [] => []
  | o' :: l' => if eqb o' o then l' else o' :: remove_first eqb o l'
  end.

(** [range(lo, hi)]. *)
Definition range (lo hi : Z) : list Z :=
  map (λ k, lo + Z.of_nat k) (seq 0 (Z.to_nat (hi - lo))).

(** ** grid_manager.py *)

Module GridManager.

Record t := mk {
  width : Z;
  height : Z;
  grid : gmap (Z * Z) (list Obj)
}.

Definition init (width height : Z) : t := mk width height ∅.

Definition is_valid_coordinate (gm : t) (x y : Z) : bool :=
  (0 <=? x) && (x <? width gm) && (0 <=? y) && (y <? height gm).

(** [self.grid.get((x, y), [])].  The constructor fills every cell with an
    empty list; an absent key and an empty list read the same. *)
Definition get_objects_at (gm : t) (x y : Z) : list Obj :=
  default [] (grid gm !! (x, y)).

Definition place_object (gm : t) (obj : Obj) (x y : Z) : bool * t :=
  if is_valid_coordinate gm x y then
    (true, mk (width gm) (height gm)
              (<[(x, y) := get_objects_at gm x y ++ [obj]]> (grid gm)))
  else (false, gm).

Definition remove_object (heap : Heap) (gm : t) (obj : Obj) (x y : Z)
    : bool * t :=
  if is_valid_coordinate gm x y then
    let cell := get_objects_at gm x y in
    if existsb (λ o, obj_eqb heap o obj) cell then
      (true, mk (width gm) (height gm)
                (<[(x, y) := remove_first (obj_eqb heap) obj cell]> (grid gm)))
    else (false, gm)
  else (false, gm).

(** [move_object]: on success an Agent object's own coordinates are
    updated as well. *)
Definition move_object (heap : Heap) (agents : Agents) (gm : t) (obj : Obj)
    (old_x old_y new_x new_y : Z) : bool * t * Agents :=
  if negb (is_valid_coordinate gm new_x new_y) then (false, gm, agents)
  else
    let '(removed, gm1) := remove_object heap gm obj old_x old_y in
    let '(placed, gm2) := place_object gm1 obj new_x new_y in
    if placed then
      match obj with
      | ObjAgent i => (true, gm2, alter (Agent.set_pos new_x new_y) i agents)
      | ObjResource _ => (true, gm2, agents)
      end
    else
      (false,
       if removed then (place_object gm2 obj old_x old_y).2 else gm2,
       agents).

Definition get_objects_in_radius (gm : t) (x y radius : Z)
    : list (Obj * Pos) :=
  concat
    (map (λ i,
      concat
        (map (λ j,
          if (x - i) ^ 2 + (y - j) ^ 2 <=? radius ^ 2
          then map (λ obj, (obj, (i, j))) (get_objects_at gm i j)
          else [])
        (range (Z.max 0 (y - radius)) (Z.min (height gm) (y + radius + 1)))))
    (range (Z.max 0 (x - radius)) (Z.min (width gm) (x + radius + 1)))).

(** [get_random_empty_cell]: [draws n] is the cell picked by the n-th
    pair of [random.randint] calls; at most [width * height] cells are
    tried. *)
Definition get_random_empty_cell (gm : t) (draws : nat → Pos) : option Pos :=
  List.find (λ c, bool_decide (get_objects_at gm c.1 c.2 = []))
            (map draws (seq 0 (Z.to_nat (width gm * height gm)))).

End GridManager.

(** ** The simulation state *)

(** The state owned by the managers: [AgentManager.agents] and
    [next_agent_id], [GroupManager.groups] and [next_group_id], the
    [GridManager], [ResourceManager.resources] (position -> reference to
    the info dictionary) and the heap of info dictionaries. *)
Record World := mkWorld {
  agents : Agents;
  next_agent_id : Z;
  groups : Groups;
  next_group_id : Z;
  grid_manager : GridManager.t;
  resources : gmap (Z * Z) nat;
  heap : Heap;
  next_ref : nat
}.

Definition set_agents (v : Agents) (w : World) : World :=
  mkWorld v (next_agent_id w) (groups w) (next_group_id w) (grid_manager w)
          (resources w) (heap w) (next_ref w).
Definition set_groups (v : Groups) (w : World) : World :=
  mkWorld (agents w) (next_agent_id w) v (next_group_id w) (grid_manager w)
          (resources w) (heap w) (next_ref w).
Definition set_grid_manager (v : GridManager.t) (w : World) : World :=
  mkWorld (agents w) (next_agent_id w) (groups w) (next_group_id w) v
          (resources w) (heap w) (next_ref w).

(** [Simulation.__init__]: fresh managers. *)
Definition init_world : World :=
  mkWorld ∅ 0 ∅ 0 (GridManager.init GRID_WIDTH GRID_HEIGHT) ∅ ∅ 0%nat.

(** Updates the agent stored under [i] (a mutation through a reference to
    that Agent object). *)
Definition upd_agent (i : Z) (f : Agent.t → Agent.t) (w : World) : World :=
  set_agents (alter f i (agents w)) w.

Definition upd_group (i : Z) (f : Group.t → Group.t) (w : World) : World :=
  set_groups (alter f i (groups w)) w.

(** ** resource_manager.py *)

Module ResourceManager.

(** One round of the loop of [spawn_resources], for the cell [pos] that
    [get_random_empty_cell] returned and the drawn [quantity]. *)
Definition spawn_resource_at (w : World) (pos : Pos) (quantity : Z) : World :=
  let r := next_ref w in
  let res_info := mkRes "food" quantity in
  let '(_, gm) := GridManager.place_object (grid_manager w) (ObjResource r)
                    pos.1 pos.2 in
  mkWorld (agents w) (next_agent_id w) (groups w) (next_group_id w) gm
          (<[pos := r]> (resources w)) (<[r := res_info]> (heap w)) (S r).

(** [spawn_resources(1)]: one deposit at a random empty cell, when one is
    found. *)
Definition spawn_resources_1 (w : World) (draws : nat → Pos) (quantity : Z)
    : World :=
  match GridManager.get_random_empty_cell (grid_manager w) draws with
  | Some pos => spawn_resource_at w pos quantity
  | None => w
  end.

(** [periodic_spawn]: [roll] is the outcome of
    [random.random() < RESOURCE_SPAWN_RATE]. *)
Definition periodic_spawn (w : World) (roll : bool) (draws : nat → Pos)
    (quantity : Z) : World :=
  if roll then spawn_resources_1 w draws quantity else w.

(** The info dictionary stored at [pos], with its reference. *)
Definition resource_at (w : World) (pos : Pos) : option (nat * ResInfo) :=
  match resources w !! pos with
  | Some r => match heap w !! r with
              | Some info => Some (r, info)
              | None => None
              end
  | None => None
  end.

(** The marker search after depletion: the first object of the cell that
    is a resource marker whose dictionary *is* [res_info]. *)
Definition find_marker (r : nat) (cell : list Obj) : option Obj :=
  List.find (λ o, match o with
                  | ObjResource r' => (r' =? r)%nat
                  | ObjAgent _ => false
                  end) cell.

Definition harvest_resource_at (w : World) (agent_id : Z) (pos_tuple : Pos)
    (amount_to_harvest : Z) : bool * World :=
  match resource_at w pos_tuple with
  | Some (r, res_info) =>
      let actual_harvest_amount := Z.min amount_to_harvest (quantity res_info) in
      if actual_harvest_amount <=? 0 then (false, w)
      else
        let w1 := upd_agent agent_id (Agent.collect_resource actual_harvest_amount) w in
        let new_q := quantity res_info - actual_harvest_amount in
        let heap1 := <[r := mkRes (res_type res_info) new_q]> (heap w1) in
        if new_q <=? 0 then
          let resources1 := delete pos_tuple (resources w1) in
          let gm := grid_manager w1 in
          let objects_at_pos :=
            GridManager.get_objects_at gm pos_tuple.1 pos_tuple.2 in
          let gm1 :=
            match find_marker r objects_at_pos with
            | Some marker_to_remove =>
                (GridManager.remove_object heap1 gm marker_to_remove
                   pos_tuple.1 pos_tuple.2).2
            | None => gm
            end in
          (true, mkWorld (agents w1) (next_agent_id w1) (groups w1)
                         (next_group_id w1) gm1 resources1 heap1 (next_ref w1))
        else
          (true, mkWorld (agents w1) (next_agent_id w1) (groups w1)
                         (next_group_id w1) (grid_manager w1) (resources w1)
                         heap1 (next_ref w1))
  | None => (false, w)
  end.

(** [collect_resource]: the collection of the fixed amount.  The marker
    to remove is a new tuple around the same dictionary, found on the cell
    by equality. *)
Definition collect_resource (w : World) (agent_id : Z) (x y : Z)
    : bool * World :=
  let pos := (x, y) in
  match resource_at w pos with
  | Some (r, res_info) =>
      let collect_amount := Z.min (quantity res_info) RESOURCE_COLLECT_AMOUNT in
      let w1 := upd_agent agent_id (Agent.collect_resource collect_amount) w in
      let new_q := quantity res_info - collect_amount in
      let heap1 := <[r := mkRes (res_type res_info) new_q]> (heap w1) in
      if new_q <=? 0 then
        let resources1 := delete pos (resources w1) in
        let gm1 := (GridManager.remove_object heap1 (grid_manager w1)
                      (ObjResource r) x y).2 in
        (true, mkWorld (agents w1) (next_agent_id w1) (groups w1)
                       (next_group_id w1) gm1 resources1 heap1 (next_ref w1))
      else
        (true, mkWorld (agents w1) (next_agent_id w1) (groups w1)
                       (next_group_id w1) (grid_manager w1) (resources w1)
                       heap1 (next_ref w1))
  | None => (false, w)
  end.

(** [get_resource_locations]: a copy of the dictionary; the values are
    still the shared info dictionaries. *)
Definition get_resource_locations (w : World) : gmap (Z * Z) nat :=
  resources w.

End ResourceManager.

(** ** combat_manager.py *)

Module CombatManager.

(** A combat participant: the Agent or Group object that a lookup found,
    with the key [k] it is stored under.  The Python type tag
    ['agent'] / ['group'] is the constructor. *)
Inductive Participant :=
  | PAgent (k : Z) (a : Agent.t)
  | PGroup (k : Z) (g : Group.t).

Definition is_agent (p : Participant) : bool :=
  match p with PAgent _ _ => true | PGroup _ _ => false end.

(** [p.id], [p.in_combat_with_agent], [p.in_combat_with_group]. *)
Definition p_id (p : Participant) : Z :=
  match p with PAgent _ a => Agent.id a | PGroup _ g => Group.id g end.
Definition p_with_agent (p : Participant) : option Z :=
  match p with
  | PAgent _ a => Agent.in_combat_with_agent a
  | PGroup _ g => Group.in_combat_with_agent g
  end.
Definition p_with_group (p : Participant) : option Z :=
  match p with
  | PAgent _ a => Agent.in_combat_with_group a
  | PGroup _ g => Group.in_combat_with_group g
  end.

(** Agent lookup first; the group dictionary is consulted only when no
    agent carries the id. *)
Definition get_participant (w : World) (i : Z) : option Participant :=
  match agents w !! i with
  | Some a => Some (PAgent i a)
  | None => match groups w !! i with
            | Some g => Some (PGroup i g)
            | None => None
            end
  end.

Definition get_combat_participants (w : World) (id1 id2 : Z)
    : option Participant * option Participant :=
  (get_participant w id1, get_participant w id2).

(** [group.get_member_agents()] on the group stored under [k]: the group
    object is updated in place. *)
Definition member_agents (w : World) (k : Z) : World * list (Z * Agent.t) :=
  match groups w !! k with
  | Some g =>
      let '(g', members) := Group.get_member_agents (agents w) g in
      (set_groups (<[k := g']> (groups w)) w, members)
  | None => (w, [])
  end.

(** The validity test of [initiate_combat]: an agent must be alive, a
    group must have a living member (asking prunes its member set). *)
Definition is_valid (w : World) (p : Participant) : World * bool :=
  match p with
  | PAgent _ a => (w, Agent.is_alive a)
  | PGroup k _ =>
      let '(w', members) := member_agents w k in
      (w', negb (bool_decide (members = [])))
  end.

Definition clear_agent_combat (w : World) (k : Z) : World :=
  upd_agent k (Agent.set_combat None None) w.

Definition end_combat_for_participant (w : World) (p : option Participant)
    : World :=
  match p with
  | None => w
  | Some (PAgent k _) => clear_agent_combat w k
  | Some (PGroup k _) =>
      let w1 := upd_group k (Group.set_combat None None) w in
      let member_ids :=
        match groups w1 !! k with
        | Some g => sorted_ids (Group.member_ids g)
        | None => []
        end in
      foldl clear_agent_combat w1 member_ids
  end.

Definition end_combat (w : World) (p1 p2 : option Participant) : World :=
  end_combat_for_participant (end_combat_for_participant w p1) p2.

(** The pair [(in_combat_with_group, in_combat_with_agent)] that names an
    opponent of the given kind. *)
Definition linkage (opponent_is_agent : bool) (opponent_id : Z)
    : option Z * option Z :=
  if opponent_is_agent then (None, Some opponent_id)
  else (Some opponent_id, None).

Definition set_linkage (w : World) (p : Participant)
    (opponent_is_agent : bool) (opponent_id : Z) : World :=
  let '(cg, ca) := linkage opponent_is_agent opponent_id in
  match p with
  | PAgent k _ => upd_agent k (Agent.set_combat cg ca) w
  | PGroup k _ => upd_group k (Group.set_combat cg ca) w
  end.

(** The loops over [p.get_member_agents()] that copy a group's linkage to
    its living members. *)
Definition mark_members (w : World) (p : Participant)
    (opponent_is_agent : bool) (opponent_id : Z) : World :=
  match p with
  | PAgent _ _ => w
  | PGroup k _ =>
      let '(w1, members) := member_agents w k in
      let '(cg, ca) := linkage opponent_is_agent opponent_id in
      foldl (λ w' m, upd_agent m.1 (Agent.set_combat cg ca) w') w1 members
  end.

Definition already_fighting (p1 p2 : Participant) : bool :=
  if is_agent p2 then opt_is (p_with_agent p1) (p_id p2)
  else opt_is (p_with_group p1) (p_id p2).

(** The four friendly-fire checks. *)
Definition same_side (p1 p2 : Participant) : bool :=
  match p1, p2 with
  | PAgent _ a1, PGroup _ g2 => opt_is (Agent.group_id a1) (Group.id g2)
  | PGroup _ g1, PAgent _ a2 => opt_is (Agent.group_id a2) (Group.id g1)
  | PAgent _ a1, PAgent _ a2 =>
      is_some (Agent.group_id a1) &&
      bool_decide (Agent.group_id a1 = Agent.group_id a2)
  | PGroup _ g1, PGroup _ g2 => Group.id g1 =? Group.id g2
  end.

Definition initiate_combat (w : World) (initiator_id target_id : Z)
    : bool * World :=
  if initiator_id =? target_id then (false, w)
  else
    match get_combat_participants w initiator_id target_id with
    | (Some p1, Some p2) =>
        let '(w1, ok1) := is_valid w p1 in
        if negb ok1 then (false, w1)
        else
          let '(w2, ok2) := is_valid w1 p2 in
          if negb ok2 then (false, w2)
          else if already_fighting p1 p2 then (true, w2)
          else if same_side p1 p2 then (false, w2)
          else
            let w3 := end_combat_for_participant w2 (Some p1) in
            let w4 := end_combat_for_participant w3 (Some p2) in
            let w5 := set_linkage w4 p1 (is_agent p2) target_id in
            let w6 := set_linkage w5 p2 (is_agent p1) initiator_id in
            let w7 := mark_members w6 p1 (is_agent p2) target_id in
            let w8 := mark_members w7 p2 (is_agent p1) initiator_id in
            (true, w8)
    | _ => (false, w)
    end.

Record Stats := mkStats {
  s_hp : Q; s_strength : Z; s_defense : Z; s_fighting : Z;
  s_member_count : nat; s_id : Z
}.

(** [get_combat_stats] reads the participant's current state. *)
Definition get_combat_stats (w : World) (p : option Participant)
    : World * option Stats :=
  match p with
  | Some (PAgent k _) =>
      match agents w !! k with
      | Some a =>
          if Agent.is_alive a then
            (w, Some (mkStats (Agent.hp a) (Agent.base_strength a)
                        (Agent.base_defense a) (Agent.base_fighting_ability a)
                        1 (Agent.id a)))
          else (w, None)
      | None => (w, None)
      end
  | Some (PGroup k _) =>
      let '(w1, members) := member_agents w k in
      match members with
      | [] => (w1, None)
      | _ =>
          let w2 := upd_group k (Group.update_stats (agents w1)) w1 in
          match groups w2 !! k with
          | Some g =>
              (w2, Some (mkStats (Group.total_hp g) (Group.group_strength g)
                           (Group.group_defense g)
                           (Group.group_fighting_ability g)
                           (size (Group.member_ids g)) (Group.id g)))
          | None => (w2, None)
          end
      end
  | None => (w, None)
  end.

(** [calculate_damage] with the draw of [random.uniform(0.8, 1.2)]. *)
Definition calculate_damage (attacker defender : Stats) (random_factor : Q)
    : Q :=
  Qmax 0 (inject_Z (s_fighting attacker) * random_factor
          - inject_Z (s_defense defender)).

Definition apply_damage (w : World) (target : Participant) (total_damage : Q)
    : World :=
  match target with
  | PAgent k _ => upd_agent k (Agent.take_damage total_damage) w
  | PGroup k _ =>
      let '(w1, members) := member_agents w k in
      match members with
      | [] => w1
      | _ =>
          let damage_per_agent :=
            (total_damage / inject_Z (Z.of_nat (length members)))%Q in
          foldl (λ w' m, upd_agent m.1 (Agent.take_damage damage_per_agent) w')
                w1 members
      end
  end.

(** [resolve_combat_round]; [r12] and [r21] are the two random factors in
    the order they are drawn. *)
Definition resolve_combat_round (w : World) (p1 p2 : Participant)
    (r12 r21 : Q) : World :=
  let '(w1, stats1) := get_combat_stats w (Some p1) in
  let '(w2, stats2) := get_combat_stats w1 (Some p2) in
  match stats1, stats2 with
  | Some s1, Some s2 =>
      let damage_1_to_2 := calculate_damage s1 s2 r12 in
      let damage_2_to_1 := calculate_damage s2 s1 r21 in
      let w3 := apply_damage w2 p2 damage_1_to_2 in
      let w4 := apply_damage w3 p1 damage_2_to_1 in
      let '(w5, stats1_after) := get_combat_stats w4 (Some p1) in
      let '(w6, stats2_after) := get_combat_stats w5 (Some p2) in
      match stats1_after, stats2_after with
      | Some _, Some _ => w6
      | _, _ => end_combat w6 (Some p1) (Some p2)
      end
  | _, _ => end_combat w2 (Some p1) (Some p2)
  end.

(** The body shared by the two loops of [resolve_all_combats] once an
    opponent id is known.  The loop state is the world, the set of
    processed pairs and the number of random factors drawn so far. *)
Definition LoopState : Type := World * gset (Z * Z) * nat.

Definition sorted_pair (a b : Z) : Z * Z := if a <=? b then (a, b) else (b, a).

Definition fights (p q : Participant) : bool :=
  opt_is (p_with_agent p) (p_id q) || opt_is (p_with_group p) (p_id q).

Definition resolve_pair (rand : nat → Q) (st : LoopState) (id1 opponent_id : Z)
    : LoopState :=
  let '(w, processed_pairs, n) := st in
  let pair := sorted_pair id1 opponent_id in
  if bool_decide (pair ∈ processed_pairs) then st
  else
    match get_combat_participants w id1 opponent_id with
    | (Some p1, Some p2) =>
        if fights p1 p2 && fights p2 p1 then
          (resolve_combat_round w p1 p2 (rand n) (rand (S n)),
           {[ pair ]} ∪ processed_pairs, S (S n))
        else (end_combat w (Some p1) (Some p2),
              {[ pair ]} ∪ processed_pairs, n)
    | (Some p1, None) =>
        (end_combat_for_participant w (Some p1),
         {[ pair ]} ∪ processed_pairs, n)
    | _ => st
    end.

Definition agent_round (rand : nat → Q) (st : LoopState) (agent_id1 : Z)
    : LoopState :=
  let '(w, processed_pairs, n) := st in
  match agents w !! agent_id1 with
  | Some agent1 =>
      if negb (Agent.is_alive agent1) || negb (Agent.in_combat agent1) then st
      else
        match py_or (Agent.in_combat_with_agent agent1)
                    (Agent.in_combat_with_group agent1) with
        | None =>
            (end_combat_for_participant w (Some (PAgent agent_id1 agent1)),
             processed_pairs, n)
        | Some opponent_id => resolve_pair rand st agent_id1 opponent_id
        end
  | None => st
  end.

Definition group_round (rand : nat → Q) (st : LoopState) (group_id1 : Z)
    : LoopState :=
  let '(w, processed_pairs, n) := st in
  match groups w !! group_id1 with
  | Some _ =>
      let '(w1, members) := member_agents w group_id1 in
      match groups w1 !! group_id1 with
      | Some group1 =>
          if bool_decide (members = []) || negb (Group.in_combat group1)
          then (w1, processed_pairs, n)
          else
            match py_or (Group.in_combat_with_agent group1)
                        (Group.in_combat_with_group group1) with
            | None =>
                (end_combat_for_participant w1
                   (Some (PGroup group_id1 group1)), processed_pairs, n)
            | Some opponent_id =>
                resolve_pair rand (w1, processed_pairs, n) group_id1 opponent_id
            end
      | None => (w1, processed_pairs, n)
      end
  | None => st
  end.

Definition resolve_all_combats (w : World) (rand : nat → Q) : World :=
  let st1 := foldl (agent_round rand) (w, ∅, 0%nat) (agent_ids (agents w)) in
  let group_ids := sorted_ids (dom (groups st1.1.1)) in
  (foldl (group_round rand) st1 group_ids).1.1.

End CombatManager.

(** ** group_manager.py *)

Module GroupManager.

(** [create_group_with_agents]: returns the id of the new group, or
    [None].  The requester is read again after [Group.__init__] has run,
    as the source reads it through the same object reference. *)
Definition create_group_with_agents (w : World) (acceptor_id requester_id : Z)
    : option Z * World :=
  match agents w !! acceptor_id, agents w !! requester_id with
  | Some acceptor_agent, Some requester_agent =>
      if Agent.is_alive acceptor_agent
         && negb (is_some (Agent.group_id acceptor_agent))
         && Agent.is_alive requester_agent
         && negb (is_some (Agent.group_id requester_agent))
      then
        let new_id := next_group_id w in
        let initiator_color := Agent.color requester_agent in
        let '(group, agents1) :=
          Group.init new_id acceptor_id (agents w) initiator_color in
        let requester_known :=
          match agents1 !! requester_id with
          | Some r => Agent.known_resources r
          | None => ∅
          end in
        let group1 := Group.set_group_known_resources
                        (requester_known ∪ Group.group_known_resources group)
                        group in
        let merged_knowledge := Group.group_known_resources group1 in
        let agents2 := alter (Agent.set_known_resources merged_knowledge)
                             acceptor_id agents1 in
        let agents3 := alter (Agent.set_known_resources merged_knowledge)
                             requester_id agents2 in
        let '(added_ok, group2, agents4) :=
          Group.add_member agents3 group1 requester_id in
        if added_ok then
          (Some new_id,
           mkWorld agents4 (next_agent_id w) (<[new_id := group2]> (groups w))
                   (next_group_id w + 1) (grid_manager w) (resources w)
                   (heap w) (next_ref w))
        else
          (None,
           set_agents (alter (Agent.set_group_id None) acceptor_id agents4) w)
      else (None, w)
  | _, _ => (None, w)
  end.

Definition disband_group (w : World) (group_id : Z) : World :=
  match groups w !! group_id with
  | Some group =>
      let w1 := set_groups (delete group_id (groups w)) w in
      match py_or (Group.in_combat_with_group group)
                  (Group.in_combat_with_agent group) with
      | Some opponent_id =>
          let '(p1, p2) :=
            CombatManager.get_combat_participants w1 (Group.id group)
                                                  opponent_id in
          CombatManager.end_combat w1 p1 p2
      | None => w1
      end
  | None => w
  end.

Definition remove_agent_from_group (w : World) (agent_id group_id : Z)
    : World :=
  match groups w !! group_id with
  | Some group =>
      let '(group1, agents1) := Group.remove_member (agents w) group agent_id in
      let w1 := set_agents agents1
                  (set_groups (<[group_id := group1]> (groups w)) w) in
      if bool_decide (Group.member_ids group1 = ∅)
      then disband_group w1 group_id
      else w1
  | None => w
  end.

Definition update_all_group_stats (w : World) : World :=
  set_groups (Group.update_stats (agents w) <$> groups w) w.

Definition manage_groups (w : World) : World :=
  let empty_group_ids :=
    List.filter (λ i, match groups w !! i with
                      | Some g => bool_decide (Group.member_ids g = ∅)
                      | None => false
                      end) (sorted_ids (dom (groups w))) in
  foldl disband_group w empty_group_ids.

Definition get_group (w : World) (group_id : Z) : option Group.t :=
  groups w !! group_id.

(** [add_agent_to_group]: the group object is updated in place. *)
Definition add_agent_to_group (w : World) (agent_id group_id : Z)
    : bool * World :=
  match get_group w group_id, agents w !! agent_id with
  | Some group, Some agent =>
      if negb (is_some (Agent.group_id agent)) then
        let '(ok, group1, agents1) :=
          Group.add_member (agents w) group agent_id in
        (ok, set_agents agents1
               (set_groups (<[group_id := group1]> (groups w)) w))
      else (false, w)
  | _, _ => (false, w)
  end.

End GroupManager.

(** ** agent_manager.py *)

Module AgentManager.

Definition get_agent (w : World) (agent_id : Z) : option Agent.t :=
  agents w !! agent_id.

(** A plan target used as a dictionary key in [get_agent] / [get_group]:
    only an integer can name an entry. *)
Definition target_key (t : Target) : option Z :=
  match t with TInt n => Some n | _ => None end.

Definition get_agent_by_target (w : World) (t : Target) : option Agent.t :=
  match target_key t with Some k => get_agent w k | None => None end.

(** [create_agent]: [pos] is the result of [get_random_empty_cell],
    [has_configs] the truth of [self.available_llm_configs], and the five
    integers are the constructor's random draws. *)
Definition create_agent (w : World) (pos : option Pos) (has_configs : bool)
    (strength defense fighting ticks rate : Z) : option Z * World :=
  match pos with
  | Some (px, py) =>
      if has_configs then
        let agent_id := next_agent_id w in
        let agent := Agent.init agent_id px py strength defense fighting
                                ticks rate true in
        let '(_, gm) := GridManager.place_object (grid_manager w)
                          (ObjAgent agent_id) px py in
        (Some agent_id,
         mkWorld (<[agent_id := agent]> (agents w)) (next_agent_id w + 1)
                 (groups w) (next_group_id w) gm (resources w) (heap w)
                 (next_ref w))
      else (None, w)
  | None => (None, w)
  end.

Definition clear_pending_requests_involving (w : World) (agent_id : Z)
    : World :=
  set_agents
    ((λ other_agent,
        let o1 :=
          if bool_decide (agent_id ∈ Agent.pending_group_requests_from other_agent)
          then Agent.set_pending_group_requests_from
                 (Agent.pending_group_requests_from other_agent ∖ {[ agent_id ]})
                 other_agent
          else other_agent in
        if opt_is (Agent.pending_group_request_to o1) agent_id
        then Agent.set_pending_group_request_to None o1
        else o1) <$> agents w) w.

(** [remove_agent].  [if agent.group_id:] is false for [None] and for the
    group id [0]. *)
Definition remove_agent (w : World) (agent_id : Z) : option Agent.t * World :=
  match agents w !! agent_id with
  | Some agent =>
      let w1 := set_agents (delete agent_id (agents w)) w in
      let '(_, gm) := GridManager.remove_object (heap w1) (grid_manager w1)
                        (ObjAgent agent_id) (Agent.x agent) (Agent.y agent) in
      let w2 := set_grid_manager gm w1 in
      let w3 :=
        match Agent.group_id agent with
        | Some gid =>
            if gid =? 0 then w2
            else GroupManager.remove_agent_from_group w2 (Agent.id agent) gid
        | None => w2
        end in
      (Some agent, clear_pending_requests_involving w3 agent_id)
  | None => (None, w)
  end.

Definition handle_deaths (w : World) : World :=
  let dead_agent_ids :=
    List.filter (λ i, match agents w !! i with
                      | Some agent => negb (Agent.is_alive agent)
                      | None => false
                      end) (agent_ids (agents w)) in
  foldl (λ w' i, (remove_agent w' i).2) w dead_agent_ids.

(** The expiry test shared by both halves of [update_pending_requests]:
    the other party is missing, dead, grouped or farther than 2. *)
Definition request_expired (agent : Agent.t) (other : option Agent.t) : bool :=
  match other with
  | None => true
  | Some o =>
      negb (Agent.is_alive o) || is_some (Agent.group_id o)
      || (2 <? manhattan_distance (Agent.x agent, Agent.y agent)
                                  (Agent.x o, Agent.y o))
  end.

(** First half of the loop body: the request initiated by this agent. *)
Definition check_outgoing (w : World) (agent_id : Z) : World :=
  match agents w !! agent_id with
  | Some agent =>
      match Agent.pending_group_request_to agent with
      | Some target_id =>
          let target_agent := get_agent w target_id in
          if request_expired agent target_agent then
            let w1 := upd_agent agent_id
                        (Agent.set_pending_group_request_to None) w in
            match get_agent w1 target_id with
            | Some ta =>
                if bool_decide (Agent.id agent ∈ Agent.pending_group_requests_from ta)
                then upd_agent target_id
                       (λ t, Agent.set_pending_group_requests_from
                               (Agent.pending_group_requests_from t
                                  ∖ {[ Agent.id agent ]}) t) w1
                else w1
            | None => w1
            end
          else w
      | None => w
      end
  | None => w
  end.

(** One round of the inner loop over the requests made to this agent. *)
Definition check_incoming (agent_id : Z) (w : World) (requester_id : Z)
    : World :=
  match agents w !! agent_id with
  | Some agent =>
      let requester_agent := get_agent w requester_id in
      if request_expired agent requester_agent then
        let w1 := upd_agent agent_id
                    (λ a, Agent.set_pending_group_requests_from
                            (Agent.pending_group_requests_from a
                               ∖ {[ requester_id ]}) a) w in
        match get_agent w1 requester_id with
        | Some ra =>
            if opt_is (Agent.pending_group_request_to ra) (Agent.id agent)
            then upd_agent requester_id
                   (Agent.set_pending_group_request_to None) w1
            else w1
        | None => w1
        end
      else w
  | None => w
  end.

Definition update_agent_requests (w : World) (agent_id : Z) : World :=
  match agents w !! agent_id with
  | Some agent =>
      if negb (Agent.is_alive agent) then w
      else
        let w1 := check_outgoing w agent_id in
        let requests_from :=
          match agents w1 !! agent_id with
          | Some a => sorted_ids (Agent.pending_group_requests_from a)
          | None => []
          end in
        foldl (check_incoming agent_id) w1 requests_from
  | None => w
  end.

Definition update_pending_requests (w : World) : World :=
  foldl update_agent_requests w (agent_ids (agents w)).

(** The effect of [Agent.get_state_for_llm] on the agent: while building
    the prompt it resets a truthy [group_id] that names no group.  The
    prompt text itself is not modelled. *)
Definition get_state_for_llm (w : World) (agent : Agent.t) : Agent.t :=
  match Agent.group_id agent with
  | Some gid =>
      if negb (gid =? 0) && negb (is_some (groups w !! gid))
      then Agent.set_group_id None agent
      else agent
  | None => agent
  end.

(** The interruption test of an [EXPLORE] plan: a known non-empty deposit
    at distance at most 1, or another agent within the perception
    radius. *)
Definition nearby_significant (w : World) (agent_id : Z) (agent : Agent.t)
    : bool :=
  existsb (λ kv : (Z * Z) * KnownResource,
             (0 <? last_seen_quantity kv.2)
             && (manhattan_distance (Agent.x agent, Agent.y agent) kv.1 <=? 1))
          (map_to_list (Agent.known_resources agent))
  || existsb (λ op : Obj * Pos,
                match op.1 with
                | ObjAgent i => negb (i =? agent_id)
                | ObjResource _ => false
                end)
             (GridManager.get_objects_in_radius (grid_manager w)
                (Agent.x agent) (Agent.y agent) PERCEPTION_RADIUS).

Definition LLM_DECISION_FREQUENCY : Z := 5.

(** One round of the loop of [initiate_llm_requests]; the state is the
    world and the request queue (the ids queued; the prompt travelling
    with each id is not modelled). *)
Definition request_round (current_time_step : Z) (st : World * list Z)
    (agent_id : Z) : World * list Z :=
  let '(w, request_queue) := st in
  match agents w !! agent_id with
  | Some agent =>
      if Agent.is_alive agent && negb (Agent.in_combat agent)
         && Agent.llm_config agent
      then
        let a1 := Agent.set_simulation_time_step current_time_step agent in
        let '(a2, q2, llm_request_queued) :=
          if Agent.group_request_pending_decision a1
             && negb (Agent.is_waiting_for_llm a1)
          then
            let a := get_state_for_llm w a1 in
            (Agent.set_current_plan (mkPlan RESPOND_TO_GROUP_REQUEST TNone)
               (Agent.set_group_request_pending_decision false
                  (Agent.set_is_waiting_for_llm true a)),
             request_queue ++ [agent_id], true)
          else (a1, request_queue, false) in
        let a3 :=
          if bool_decide (plan (Agent.current_plan a2) = EXPLORE)
             && nearby_significant w agent_id a2
          then Agent.set_new_plan idle_plan a2
          else a2 in
        let '(a4, q4) :=
          if negb llm_request_queued then
            let needs_new_plan := bool_decide (plan (Agent.current_plan a3) = IDLE) in
            let time_to_decide :=
              LLM_DECISION_FREQUENCY <=? Agent.ticks_since_last_llm_decision a3 in
            let can_request := negb (Agent.is_waiting_for_llm a3) in
            if needs_new_plan && time_to_decide && can_request then
              (Agent.set_is_waiting_for_llm true
                 (get_state_for_llm w
                    (Agent.set_ticks_since_last_llm_decision 0 a3)),
               q2 ++ [agent_id])
            else
              (Agent.set_ticks_since_last_llm_decision
                 (Agent.ticks_since_last_llm_decision a3 + 1) a3, q2)
          else (a3, q2) in
        (set_agents (<[agent_id := a4]> (agents w)) w, q4)
      else st
  | None => st
  end.

Definition initiate_llm_requests (w : World) (current_time_step : Z)
    (request_queue : list Z) : World * list Z :=
  let w1 := update_pending_requests w in
  foldl (request_round current_time_step) (w1, request_queue)
        (agent_ids (agents w1)).

Definition move_map : list (string * (Z * Z)) :=
  [ ("N", (0, -1)); ("S", (0, 1)); ("E", (1, 0)); ("W", (-1, 0));
    ("NE", (1, -1)); ("NW", (-1, -1)); ("SE", (1, 1)); ("SW", (-1, 1)) ]%string.

(** [deque(maxlen=MAX_TRAIL_LENGTH).append]. *)
Definition trail_append (trail : list (Pos * Z)) (e : Pos * Z)
    : list (Pos * Z) :=
  let l := trail ++ [e] in
  skipn (length l - MAX_TRAIL_LENGTH)%nat l.

Definition blocked_by_agent (w : World) (x y : Z) : bool :=
  existsb is_agent_obj (GridManager.get_objects_at (grid_manager w) x y).

(** [_execute_move].  The result is what the Python function returns:
    [Some false] for [return False] and [None] where control reaches the
    end of the function without a [return]. *)
Definition _execute_move (w : World) (agent_id : Z) (direction : string)
    (current_time_step : Z) : option bool * World :=
  match agents w !! agent_id with
  | Some agent =>
      match assoc_string direction move_map with
      | Some (dx, dy) =>
          let new_x := Agent.x agent + dx in
          let new_y := Agent.y agent + dy in
          if GridManager.is_valid_coordinate (grid_manager w) new_x new_y then
            if blocked_by_agent w new_x new_y then (Some false, w)
            else
              let '(move_success, gm, agents1) :=
                GridManager.move_object (heap w) (agents w) (grid_manager w)
                  (ObjAgent agent_id) (Agent.x agent) (Agent.y agent)
                  new_x new_y in
              let w1 := set_grid_manager gm (set_agents agents1 w) in
              if move_success then
                (None,
                 upd_agent agent_id
                   (λ a, Agent.set_visited_trail
                           (trail_append (Agent.visited_trail a)
                              ((new_x, new_y), current_time_step)) a) w1)
              else (None, w1)
          else (Some false, w)
      | None => (None, w)
      end
  | None => (None, w)
  end.

(** [not r] for the value [_execute_move] returned. *)
Definition py_not (r : option bool) : bool :=
  match r with Some b => negb b | None => true end.

Definition set_idle (w : World) (agent_id : Z) : World :=
  upd_agent agent_id (Agent.set_new_plan idle_plan) w.

(** The [EXPLORE] branch.  [choice] stands for [random.choice]: the index
    it picks in the list of candidate directions. *)
Definition explore_step (w : World) (agent_id : Z) (agent : Agent.t)
    (choice : nat) : World :=
  let valid_directions := ["N"; "S"; "E"; "W"; "NE"; "NW"; "SE"; "SW"]%string in
  let walkable_adjacent :=
    omap (λ direction,
            match assoc_string direction move_map with
            | Some (dx, dy) =>
                let next_x := Agent.x agent + dx in
                let next_y := Agent.y agent + dy in
                if GridManager.is_valid_coordinate (grid_manager w) next_x next_y
                   && negb (blocked_by_agent w next_x next_y)
                then Some (direction, (next_x, next_y))
                else None
            | None => None
            end) valid_directions in
  match walkable_adjacent with
  | [] => set_idle w agent_id
  | _ =>
      let visited (pos : Pos) : bool :=
        existsb (λ e, bool_decide (e.1 = pos)) (Agent.visited_trail agent) in
      let unvisited_walkable :=
        List.filter (λ d, negb (visited d.2)) walkable_adjacent in
      let visited_walkable :=
        List.filter (λ d, visited d.2) walkable_adjacent in
      let candidates :=
        match unvisited_walkable with
        | [] => visited_walkable
        | _ => unvisited_walkable
        end in
      match nth_error candidates (choice mod length candidates)%nat with
      | Some (chosen_direction, _) =>
          (_execute_move w agent_id chosen_direction
                         (Agent.simulation_time_step agent)).2
      | None => set_idle w agent_id
      end
  end.

(** The harvesting branch, entered on arrival under [GO_TO_RESOURCE]. *)
Definition harvest_step (w : World) (agent_id : Z) (agent : Agent.t)
    (current_pos : Pos) : World :=
  let resource_info := ResourceManager.resource_at w current_pos in
  let agent_full := AGENT_MAX_RESOURCES <=? Agent.resource_level agent in
  match resource_info with
  | Some (_, info) =>
      if (0 <? quantity info) && negb agent_full then
        let amount_this_tick :=
          Z.min (Z.min (Agent.harvest_rate agent) (quantity info))
                (AGENT_MAX_RESOURCES - Agent.resource_level agent) in
        if 0 <? amount_this_tick then
          let '(harvest_success, w1) :=
            ResourceManager.harvest_resource_at w agent_id current_pos
                                                amount_this_tick in
          let w2 :=
            if harvest_success then
              let new_quantity :=
                match ResourceManager.resource_at w1 current_pos with
                | Some (_, updated_res_info) => quantity updated_res_info
                | None => 0
                end in
              upd_agent agent_id
                (λ a, Agent.set_known_resources
                        (<[current_pos :=
                             mkKnown (res_type info) new_quantity
                                     (Agent.simulation_time_step a)]>
                           (Agent.known_resources a)) a) w1
            else w1 in
          let resource_has_quantity :=
            match ResourceManager.resource_at w2 current_pos with
            | Some (_, i) => 0 <? quantity i
            | None => false
            end in
          let agent_full_now :=
            match agents w2 !! agent_id with
            | Some a => AGENT_MAX_RESOURCES <=? Agent.resource_level a
            | None => false
            end in
          if negb resource_has_quantity || agent_full_now
          then set_idle w2 agent_id
          else w2
        else set_idle w agent_id
      else set_idle w agent_id
  | None => set_idle w agent_id
  end.

(** Arrival under [GO_TO_AGENT]: a group request is recorded on both
    sides when both agents are ungrouped, then the plan becomes IDLE. *)
Definition arrive_at_agent (w : World) (agent_id : Z) (agent : Agent.t)
    (target : Z) : World :=
  let w1 :=
    match get_agent w target with
    | Some target_agent =>
        if negb (is_some (Agent.group_id agent))
           && Agent.is_alive target_agent
           && negb (is_some (Agent.group_id target_agent))
        then
          let w' := upd_agent agent_id
                      (Agent.set_pending_group_request_to (Some target)) w in
          upd_agent target
            (λ t, Agent.set_pending_group_requests_from
                    ({[ Agent.id agent ]} ∪ Agent.pending_group_requests_from t)
                    t) w'
        else w
    | None => w
    end in
  set_idle w1 agent_id.

(** The move of a [GO_TO_*] plan that has not arrived: the vertical
    letter, then the horizontal one. *)
Definition move_step (w : World) (agent_id : Z) (agent : Agent.t)
    (current_pos target_pos : Pos) : World :=
  let dx := target_pos.1 - current_pos.1 in
  let dy := target_pos.2 - current_pos.2 in
  let v_dir : string := if 0 <? dy then "S" else if dy <? 0 then "N" else "" in
  let h_dir : string := if 0 <? dx then "E" else if dx <? 0 then "W" else "" in
  let move_dir := String.append v_dir h_dir in
  if negb (String.eqb move_dir "") then
    let '(move_successful, w1) :=
      _execute_move w agent_id move_dir (Agent.simulation_time_step agent) in
    if py_not move_successful then set_idle w1 agent_id else w1
  else set_idle w agent_id.

Definition goto_step (w : World) (agent_id : Z) (agent : Agent.t)
    (plan_type : PlanType) (target : Target) : World :=
  match target with
  | TNone => set_idle w agent_id
  | _ =>
      let target_pos : option Pos :=
        if bool_decide (plan_type = GO_TO_AGENT) then
          match get_agent_by_target w target with
          | Some target_agent =>
              if Agent.is_alive target_agent
              then Some (Agent.x target_agent, Agent.y target_agent)
              else None
          | None => None
          end
        else
          match target with
          | TPos tx ty => Some (tx, ty)
          | _ => None
          end in
      match target_pos with
      | None => set_idle w agent_id
      | Some target_pos =>
          let current_pos := (Agent.x agent, Agent.y agent) in
          if bool_decide (current_pos = target_pos) then
            match plan_type with
            | GO_TO_RESOURCE => harvest_step w agent_id agent current_pos
            | GO_TO_AGENT =>
                match target_key target with
                | Some t => arrive_at_agent w agent_id agent t
                | None => set_idle w agent_id
                end
            | _ => set_idle w agent_id
            end
          else move_step w agent_id agent current_pos target_pos
      end
  end.

Definition form_group_step (w : World) (agent_id : Z) (agent : Agent.t)
    (target : Target) : World :=
  match target_key target with
  | Some target_agent_id =>
      match get_agent w target_agent_id with
      | Some target_agent =>
          if negb (is_some (Agent.group_id agent))
             && Agent.is_alive target_agent
             && negb (is_some (Agent.group_id target_agent))
             && negb (target_agent_id =? Agent.id agent)
             && (manhattan_distance (Agent.x agent, Agent.y agent)
                   (Agent.x target_agent, Agent.y target_agent) <=? 1)
          then
            let w1 := upd_agent agent_id
                        (Agent.set_pending_group_request_to
                           (Some target_agent_id)) w in
            let w2 := upd_agent target_agent_id
                        (λ t, Agent.set_group_request_pending_decision true
                                (Agent.set_pending_group_requests_from
                                   ({[ Agent.id agent ]}
                                      ∪ Agent.pending_group_requests_from t) t))
                        w1 in
            upd_agent agent_id
              (Agent.set_new_plan
                 (mkPlan WAITING_GROUP_RESPONSE (TInt target_agent_id))) w2
          else set_idle w agent_id
      | None => set_idle w agent_id
      end
  | None => set_idle w agent_id
  end.

Definition attack_step (w : World) (agent_id : Z) (agent : Agent.t)
    (target : Target) : World :=
  match target with
  | TNone => set_idle w agent_id
  | _ =>
      let p2 := match target_key target with
                | Some t => CombatManager.get_participant w t
                | None => None
                end in
      match CombatManager.get_participant w (Agent.id agent), p2,
            target_key target with
      | Some _, Some p2, Some target_id =>
          let initiator_id_for_combat :=
            match Agent.group_id agent with
            | Some g => g
            | None => Agent.id agent
            end in
          let '(w1, dist) :=
            match p2 with
            | CombatManager.PAgent _ a2 =>
                (w, manhattan_distance (Agent.x agent, Agent.y agent)
                      (Agent.x a2, Agent.y a2))
            | CombatManager.PGroup k g2 =>
                let '(g2', centroid) := Group.get_centroid (agents w) g2 in
                (set_groups (<[k := g2']> (groups w)) w,
                 match centroid with
                 | Some c => manhattan_distance (Agent.x agent, Agent.y agent) c
                 | None => 999
                 end)
            end in
          let '(success, w2) :=
            if dist <=? 1
            then CombatManager.initiate_combat w1 initiator_id_for_combat
                                               target_id
            else (false, w1) in
          if negb success then set_idle w2 agent_id else w2
      | _, _, _ => set_idle w agent_id
      end
  end.

(** [execute_agent_plan_step]. *)
Definition execute_agent_plan_step (w : World) (agent_id : Z) (choice : nat)
    : World :=
  match get_agent w agent_id with
  | Some agent =>
      if negb (Agent.is_alive agent) || Agent.in_combat agent then w
      else
        let plan_type := plan (Agent.current_plan agent) in
        let target := target (Agent.current_plan agent) in
        match plan_type with
        | WAITING_LLM | WAITING_GROUP_RESPONSE | RESPOND_TO_GROUP_REQUEST => w
        | IDLE => w
        | EXPLORE => explore_step w agent_id agent choice
        | GO_TO_POS | GO_TO_RESOURCE | GO_TO_AGENT =>
            goto_step w agent_id agent plan_type target
        | FORM_GROUP_WITH => form_group_step w agent_id agent target
        | ACCEPT_GROUP_FROM => set_idle w agent_id
        | ATTACK_TARGET => attack_step w agent_id agent target
        end
  | None => w
  end.

Definition apply_consumption (w : World) : World :=
  set_agents
    ((λ agent, if Agent.is_alive agent then Agent.consume_resource agent
               else agent) <$> agents w) w.

Definition FORGET_THRESHOLD : Z := 100.

(** The test under which the decay loop deletes a known position: it was
    not seen this tick and was last seen more than the threshold ago. *)
Definition forgets (seen : gset (Z * Z)) (current_time_step : Z)
    (pos : Z * Z) (entry : KnownResource) : bool :=
  negb (bool_decide (pos ∈ seen))
  && (FORGET_THRESHOLD <? current_time_step - last_seen_tick entry).

(** One agent's round of [update_agent_perception_and_memory]. *)
Definition perceive (w : World) (current_time_step : Z) (agent : Agent.t)
    : Agent.t :=
  if negb (Agent.is_alive agent) then agent
  else
    let visible_radius := 5 in
    let visible_objects :=
      GridManager.get_objects_in_radius (grid_manager w)
        (Agent.x agent) (Agent.y agent) visible_radius in
    let '(known, seen_resource_positions_this_tick) :=
      foldl (λ (st : Knowledge * gset (Z * Z)) (op : Obj * Pos),
               match op.1 with
               | ObjResource r =>
                   let res_info := default (mkRes "Unknown" 0) (heap w !! r) in
                   (<[op.2 := mkKnown (res_type res_info) (quantity res_info)
                                      current_time_step]> st.1,
                    {[ op.2 ]} ∪ st.2)
               | ObjAgent _ => st
               end)
            (Agent.known_resources agent, ∅) visible_objects in
    let known' :=
      filter (λ kv : (Z * Z) * KnownResource,
                forgets seen_resource_positions_this_tick current_time_step
                        kv.1 kv.2 = false)
             known in
    Agent.set_known_resources known' agent.

Definition update_agent_perception_and_memory (w : World)
    (current_time_step : Z) : World :=
  set_agents (perceive w current_time_step <$> agents w) w.

End AgentManager.

(** ** simulation.py: draining the decision results *)

Module Simulation.

(** A value produced by [json.loads] in the worker, or [None] when the
    call failed.  [JFloat] is a finite float, [JNonFinite] stands for
    [NaN] and the infinities, which [json.loads] accepts.  A [JDict] is
    the parsed dictionary (keys unique); strings are ASCII. *)
#[local] Unset Elimination Schemes.
Inductive json :=
  | JNull
  | JBool (b : bool)
  | JInt (n : Z)
  | JFloat (q : Q)
  | JNonFinite
  | JStr (s : string)
  | JList (l : list json)
  | JDict (d : list (string * json)).
#[local] Set Elimination Schemes.

(** The exceptions the drain can meet. *)
Inductive Exn :=
  | AttributeError | KeyError | TypeError | ValueError | UnboundLocalError.

Inductive outcome (A : Type) :=
  | Ret (a : A)
  | Raise (e : Exn).
Arguments Ret {A} a.
Arguments Raise {A} e.

(** The local variables of [_process_llm_results] that the loop body can
    read before it has assigned them in the current iteration.  They are
    unbound when the function starts and keep their value from one
    iteration of the [while] loop to the next. *)
Record Locals := mkLocals {
  was_group_decision : option bool;
  parsed_plan_type : option PlanType;
  new_plan : option Plan
}.

Definition unbound : Locals := mkLocals None None None.

Record Frame := mkFrame { world : World; locals : Locals }.

(** Computations over the frame that may raise; the frame reached when
    the exception was raised is kept. *)
Definition M (A : Type) : Type := Frame → Frame * outcome A.

Definition ret {A} (a : A) : M A := λ f, (f, Ret a).
Definition raise {A} (e : Exn) : M A := λ f, (f, Raise e).
Definition bind {A B} (c : M A) (k : A → M B) : M B :=
  λ f, match c f with
       | (f', Ret a) => k a f'
       | (f', Raise e) => (f', Raise e)
       end.
Definition lift {A} (o : outcome A) : M A := λ f, (f, o).
Definition try_except {A} (c : M A) (handler : Exn → M A) : M A :=
  λ f, match c f with
       | (f', Ret a) => (f', Ret a)
       | (f', Raise e) => handler e f'
       end.

Notation "'let!' x ':=' c 'in' k" := (bind c (λ x, k))
  (at level 10, x name, c at level 100, k at level 200).
Notation "'do!' c 'in' k" := (bind c (λ _, k))
  (at level 10, c at level 100, k at level 200).

Definition get_world : M World := λ f, (f, Ret (world f)).
Definition put_world (w : World) : M unit :=
  λ f, (mkFrame w (locals f), Ret tt).
Definition modify_world (g : World → World) : M unit :=
  λ f, (mkFrame (g (world f)) (locals f), Ret tt).

Definition assign_was_group_decision (b : bool) : M unit :=
  λ f, (mkFrame (world f)
          (mkLocals (Some b) (parsed_plan_type (locals f))
                    (new_plan (locals f))), Ret tt).
Definition assign_parsed_plan_type (p : PlanType) : M unit :=
  λ f, (mkFrame (world f)
          (mkLocals (was_group_decision (locals f)) (Some p)
                    (new_plan (locals f))), Ret tt).
Definition assign_new_plan (p : Plan) : M unit :=
  λ f, (mkFrame (world f)
          (mkLocals (was_group_decision (locals f))
                    (parsed_plan_type (locals f)) (Some p)), Ret tt).

(** Reading a local variable raises [UnboundLocalError] while it is
    unbound. *)
Definition read {A} (var : Locals → option A) : M A :=
  λ f, match var (locals f) with
       | Some v => (f, Ret v)
       | None => (f, Raise UnboundLocalError)
       end.

(** Truthiness of a parsed value ([if parsed_decision:]). *)
Definition truthy (v : json) : bool :=
  match v with
  | JNull => false
  | JBool b => b
  | JInt n => negb (n =? 0)
  | JFloat q => negb (Qeq_bool q 0)
  | JNonFinite => true
  | JStr s => negb (String.eqb s "")
  | JList l => negb (bool_decide (length l = 0%nat))
  | JDict d => negb (bool_decide (length d = 0%nat))
  end.

(** [v.get(key, default)]: only a dictionary has the method. *)
Definition py_get (v : json) (key : string) (default : json) : outcome json :=
  match v with
  | JDict d => Ret (match assoc_string key d with
                    | Some x => x
                    | None => default
                    end)
  | _ => Raise AttributeError
  end.

Definition upper_ascii (c : ascii) : ascii :=
  let n := nat_of_ascii c in
  if ((97 <=? n) && (n <=? 122))%nat then ascii_of_nat (n - 32) else c.

Fixpoint upper (s : string) : string :=
  match s with
  | EmptyString => EmptyString
  | String c s' => String (upper_ascii c) (upper s')
  end.

(** [v.upper()]: only a string has the method. *)
Definition py_upper (v : json) : outcome string :=
  match v with
  | JStr s => Ret (upper s)
  | _ => Raise AttributeError
  end.

(** [PlanType[name]] raises [KeyError] for a name that is no member. *)
Definition PlanType_getitem (name : string) : outcome PlanType :=
  match PlanType_lookup name with
  | Some p => Ret p
  | None => Raise KeyError
  end.

(** The attribute access [PlanType.NAME] raises [AttributeError] for a
    name that is no member. *)
Definition PlanType_getattr (name : string) : outcome PlanType :=
  match PlanType_lookup name with
  | Some p => Ret p
  | None => Raise AttributeError
  end.

(** A parsed value used as a key of a dictionary or set of ids: lists and
    dictionaries are unhashable ([TypeError]); an integer, a boolean or an
    integral float equals the id of the same value; nothing else equals
    an id. *)
Definition as_key (v : json) : outcome (option Z) :=
  match v with
  | JList _ | JDict _ => Raise TypeError
  | JInt n => Ret (Some n)
  | JBool b => Ret (Some (if b then 1 else 0))
  | JFloat q => Ret (if Qeq_bool q (inject_Z (Qfloor q))
                     then Some (Qfloor q) else None)
  | JNull | JNonFinite | JStr _ => Ret None
  end.

(** [isinstance(n, (int, float))] followed by [int(round(n))]; [round]
    raises on [NaN] and the infinities. *)
Definition is_number (v : json) : bool :=
  match v with
  | JBool _ | JInt _ | JFloat _ | JNonFinite => true
  | _ => false
  end.
Definition int_round (v : json) : outcome Z :=
  match v with
  | JBool b => Ret (if b then 1 else 0)
  | JInt n => Ret n
  | JFloat q => Ret (Group.py_round q)
  | JNonFinite => Raise ValueError
  | _ => Raise TypeError
  end.

(** [isinstance(plan_target, int)]: true for integers and booleans. *)
Definition as_int (v : json) : option Z :=
  match v with
  | JInt n => Some n
  | JBool b => Some (if b then 1 else 0)
  | _ => None
  end.

Definition set_plan (agent_key : Z) (p : Plan) : M unit :=
  modify_world (upd_agent agent_key (Agent.set_new_plan p)).


(** The handler of the inner [except Exception as e:].  Its first
    statement calls [log_agent_event(..., exc_info=True)], and
    [log_agent_event(agent_id, message, agent_ref=None, level=...)] has
    no such parameter: the call raises [TypeError] before the assignment
    [new_plan = IDLE] that follows it is reached. *)
Definition inner_handler (e : Exn) : M unit :=
  do! (raise TypeError : M unit) in
  assign_new_plan idle_plan.

(** The normal validation of a plan target (the part after the group
    branch), ending with the assignment of [new_plan]. *)
Definition validate_plan (plan_target : json) : M unit :=
  let! ppt := read parsed_plan_type in
  let! valid_target :=
    (match ppt with
     | GO_TO_RESOURCE | GO_TO_POS =>
         match plan_target with
         | JList [a; b] =>
             if is_number a && is_number b then
               let! ra := lift (int_round a) in
               let! rb := lift (int_round b) in
               ret (TPos ra rb)
             else (do! assign_parsed_plan_type IDLE in ret TNone)
         | _ => (do! assign_parsed_plan_type IDLE in ret TNone)
         end
     | GO_TO_AGENT | FORM_GROUP_WITH | ACCEPT_GROUP_FROM | ATTACK_TARGET =>
         match as_int plan_target with
         | Some n => ret (TInt n)
         | None => (do! assign_parsed_plan_type IDLE in ret TNone)
         end
     | EXPLORE =>
         match plan_target with
         | JStr s =>
             if bool_decide (upper s ∈
                  ["N"; "S"; "E"; "W"; "NE"; "NW"; "SE"; "SW"]%string)
             then ret (TStr s) else ret TNone
         | _ => ret TNone
         end
     | _ => ret TNone
     end) in
  let! ppt := read parsed_plan_type in
  let! valid_target :=
    (if bool_decide (valid_target = TNone)
        && negb (bool_decide (ppt = IDLE))
        && negb (bool_decide (ppt = EXPLORE))
     then (do! assign_parsed_plan_type IDLE in ret TNone)
     else ret valid_target) in
  let! ppt := read parsed_plan_type in
  assign_new_plan (mkPlan ppt valid_target).

(** Removes the decided request from the deciding agent's incoming set
    ([if requester_id in agent.pending_group_requests_from: ...remove]). *)
Definition drop_incoming (agent_key : Z) (requester_key : option Z) : M unit :=
  match requester_key with
  | Some k =>
      modify_world
        (upd_agent agent_key
           (λ a, if bool_decide (k ∈ Agent.pending_group_requests_from a)
                 then Agent.set_pending_group_requests_from
                        (Agent.pending_group_requests_from a ∖ {[ k ]}) a
                 else a))
  | None => ret tt
  end.

(** [if requester_agent: requester_agent.pending_group_request_to = None;
    requester_agent.set_new_plan(IDLE)]. *)
Definition release_requester (requester_key : option Z) : M unit :=
  match requester_key with
  | Some k =>
      do! modify_world
            (upd_agent k (Agent.set_pending_group_request_to None)) in
      set_plan k idle_plan
  | None => ret tt
  end.

(** The [ACCEPT_GROUP_FROM] branch of a group decision, up to its
    [continue]. *)
Definition accept_group (agent_key : Z) (requester_key : option Z) : M unit :=
  let! w := get_world in
  match agents w !! agent_key with
  | None => ret tt
  | Some agent =>
      let requester_agent :=
        match requester_key with
        | Some k => (λ r, (k, r)) <$> agents w !! k
        | None => None
        end in
      let conditions_met :=
        match requester_agent with
        | Some (k, r) =>
            negb (is_some (Agent.group_id agent))
            && Agent.is_alive r
            && negb (is_some (Agent.group_id r))
            && bool_decide (k ∈ Agent.pending_group_requests_from agent)
            && opt_is (Agent.pending_group_request_to r) (Agent.id agent)
            && (manhattan_distance (Agent.x agent, Agent.y agent)
                                   (Agent.x r, Agent.y r) <=? 1)
        | None => false
        end in
      do! (match requester_agent with
           | Some (k, _) =>
               if conditions_met then
                 let '(new_group, w1) :=
                   GroupManager.create_group_with_agents w (Agent.id agent) k in
                 do! put_world w1 in
                 match new_group with
                 | Some _ => set_plan k idle_plan
                 | None =>
                     do! assign_new_plan idle_plan in
                     set_plan k idle_plan
                 end
               else
                 do! assign_new_plan idle_plan in
                 release_requester (Some k)
           | None => assign_new_plan idle_plan
           end) in
      do! drop_incoming agent_key requester_key in
      let! np := read new_plan in
      set_plan agent_key np
  end.

(** The requester object found for a rejecting branch
    ([if requester_agent:]), as the key to release. *)
Definition present_requester (w : World) (requester_key : option Z)
    : option Z :=
  match requester_key with
  | Some k => if is_some (agents w !! k) then Some k else None
  | None => None
  end.

(** The branch under [elif parsed_plan_type == PlanType.ATTACK_AGENT:]. *)
Definition attack_requester (agent_key : Z) (requester_key : option Z)
    : M unit :=
  let! w := get_world in
  do! (match requester_key, agents w !! agent_key with
       | Some k, Some agent =>
           match agents w !! k with
           | Some r =>
               if Agent.is_alive r
               then put_world
                      (CombatManager.initiate_combat w (Agent.id agent) k).2
               else ret tt
           | None => ret tt
           end
       | _, _ => ret tt
       end) in
  let! w1 := get_world in
  do! release_requester (present_requester w1 requester_key) in
  do! drop_incoming agent_key requester_key in
  do! assign_new_plan idle_plan in
  set_plan agent_key idle_plan.

(** The final [else:] of the group branch (implicit rejection). *)
Definition ignore_requester (agent_key : Z) (requester_key : option Z)
    : M unit :=
  let! w := get_world in
  do! release_requester (present_requester w requester_key) in
  drop_incoming agent_key requester_key.

(** How the body of the inner [try] ends when it does not raise. *)
Inductive Flow := Continue | FallThrough.

(** The body of the inner [try] for a truthy [parsed_decision]. *)
Definition parse_decision (agent_key : Z) (agent : Agent.t)
    (parsed_decision : json) : M Flow :=
  let! plan_name_str := lift (py_get parsed_decision "plan" (JStr "IDLE")) in
  let! plan_target := lift (py_get parsed_decision "target" JNull) in
  do! assign_was_group_decision
        (bool_decide
           (plan (Agent.current_plan agent) = RESPOND_TO_GROUP_REQUEST)) in
  do! try_except
        (let! name := lift (py_upper plan_name_str) in
         let! p := lift (PlanType_getitem name) in
         assign_parsed_plan_type p)
        (λ e, match e with
              | KeyError => assign_parsed_plan_type IDLE
              | _ => raise e
              end) in
  let! wgd := read was_group_decision in
  if wgd then
    let! ppt := read parsed_plan_type in
    let requester_id :=
      if bool_decide (ppt = ACCEPT_GROUP_FROM)
         || bool_decide (ppt = ATTACK_TARGET)
      then plan_target else JNull in
    let! requester_key :=
      (match requester_id with
       | JNull => ret None
       | v => lift (as_key v)
       end) in
    if bool_decide (ppt = ACCEPT_GROUP_FROM) then
      do! accept_group agent_key requester_key in
      ret Continue
    else
      (* elif parsed_plan_type == PlanType.ATTACK_AGENT: *)
      let! attack_agent := lift (PlanType_getattr "ATTACK_AGENT") in
      if bool_decide (ppt = attack_agent) then
        do! attack_requester agent_key requester_key in
        ret Continue
      else
        do! ignore_requester agent_key requester_key in
        do! validate_plan plan_target in
        ret FallThrough
  else
    do! validate_plan plan_target in
    ret FallThrough.

(** The final [if] of the loop body and the [set_new_plan] under it. *)
Definition apply_new_plan (agent_key : Z) : M unit :=
  let! wgd := read was_group_decision in
  let! cond :=
    (if negb wgd then ret true
     else
       let! ppt := read parsed_plan_type in
       if negb (bool_decide (ppt = ACCEPT_GROUP_FROM)) then
         let! attack_agent := lift (PlanType_getattr "ATTACK_AGENT") in
         ret (negb (bool_decide (ppt = attack_agent)))
       else ret false) in
  if cond then
    let! np := read new_plan in
    set_plan agent_key np
  else ret tt.

(** One iteration of the [while] loop for the result
    [(agent_id, parsed_decision)]. *)
Definition process_result (agent_id : Z) (parsed_decision : json) : M unit :=
  let! w := get_world in
  match agents w !! agent_id with
  | Some agent =>
      if Agent.is_alive agent then
        let! flow :=
          (if truthy parsed_decision then
             try_except (parse_decision agent_id agent parsed_decision)
                        (λ e, do! inner_handler e in ret FallThrough)
           else
             do! assign_new_plan idle_plan in ret FallThrough) in
        match flow with
        | Continue => ret tt
        | FallThrough => apply_new_plan agent_id
        end
      else ret tt
  | None => ret tt
  end.

(** The [while] loop: it stops at the first exception, which the outer
    [except Exception] logs; the results not yet taken stay queued. *)
Fixpoint drain (queue : list (Z * json)) : M (list (Z * json)) :=
  match queue with
  | [] => ret []
  | (agent_id, parsed_decision) :: rest =>
      λ f, match process_result agent_id parsed_decision f with
           | (f', Ret _) => drain rest f'
           | (f', Raise _) => (f', Ret rest)
           end
  end.

(** [_process_llm_results]: the world after the call and the results left
    in the queue.  No exception leaves the function. *)
Definition _process_llm_results (w : World) (queue : list (Z * json))
    : World * list (Z * json) :=
  match drain queue (mkFrame w unbound) with
  | (f, Ret rest) => (world f, rest)
  | (f, Raise _) => (world f, [])
  end.

(** The random choices of one tick: the combat factors, the index
    [random.choice] picks for each exploring agent, and the three
    ingredients of [periodic_spawn]. *)
Record TickInput := mkTickInput {
  combat_rand : nat → Q;
  explore_choice : Z → nat;
  spawn_roll : bool;
  spawn_cells : nat → Pos;
  spawn_quantity : Z
}.

(** The state of the [Simulation] object. *)
Record Sim := mkSim {
  sim_world : World;
  time_step : Z;
  llm_request_queue : list Z;
  llm_result_queue : list (Z * json);
  is_running : bool
}.

(** [_tick]. *)
Definition _tick (s : Sim) (inp : TickInput) : Sim :=
  let w1 := AgentManager.update_agent_perception_and_memory
              (sim_world s) (time_step s) in
  let '(w2, q) := AgentManager.initiate_llm_requests w1 (time_step s)
                    (llm_request_queue s) in
  let w3 := CombatManager.resolve_all_combats w2 (combat_rand inp) in
  let w4 := foldl (λ w agent_id,
                     AgentManager.execute_agent_plan_step w agent_id
                       (explore_choice inp agent_id))
                  w3 (agent_ids (agents w3)) in
  let w5 := AgentManager.apply_consumption w4 in
  let w6 := AgentManager.handle_deaths w5 in
  let w7 := GroupManager.update_all_group_stats w6 in
  let w8 := GroupManager.manage_groups w7 in
  let w9 := ResourceManager.periodic_spawn w8 (spawn_roll inp)
              (spawn_cells inp) (spawn_quantity inp) in
  mkSim w9 (time_step s + 1) q (llm_result_queue s)
        (if bool_decide (agents w9 = ∅) then false else is_running s).

(** One pass of the loop of [run]: [arrived] are the results the worker
    thread has put on the result queue since the last pass, [taken] the
    number of requests it has taken off the request queue, [paused] the
    pause flag after [_handle_input]. *)
Definition run_pass (s : Sim) (arrived : list (Z * json)) (taken : nat)
    (paused : bool) (inp : TickInput) : Sim :=
  let '(w1, rest) :=
    _process_llm_results (sim_world s) (llm_result_queue s ++ arrived) in
  let s1 := mkSim w1 (time_step s) (skipn taken (llm_request_queue s)) rest
                  (is_running s) in
  if paused then s1 else _tick s1 inp.

End Simulation.

(** ** Scenarios *)

(** Worlds built with the simulation's own operations, used as concrete
    inputs below. *)
Module Scenario.

(** Three agents, ids 0, 1 and 2, created in this order. *)
Definition three_agents : World :=
  let w0 := (AgentManager.create_agent init_world (Some (0, 0)) true
               10 5 12 0 3).2 in
  let w1 := (AgentManager.create_agent w0 (Some (5, 5)) true 8 4 15 2 2).2 in
  (AgentManager.create_agent w1 (Some (5, 6)) true 12 6 10 5 4).2.

(** Agents 1 and 2 then form the first group, which gets the id 0. *)
Definition one_group : World :=
  (GroupManager.create_group_with_agents three_agents 1 2).2.


(** Agent 0 receives the decision
    [{"plan": "GO_TO_POS", "target": [2, 2]}]. *)
Definition walker : World :=
  (Simulation._process_llm_results three_agents
     [(0, Simulation.JDict
            [("plan", Simulation.JStr "GO_TO_POS");
             ("target", Simulation.JList
                          [Simulation.JInt 2; Simulation.JInt 2])])]).1.

(** Agent 2, adjacent to agent 1, receives the decision
    [{"plan": "FORM_GROUP_WITH", "target": 1}] and executes one plan step:
    the request 2 -> 1 is recorded on both sides. *)
Definition requested : World :=
  let w1 := (Simulation._process_llm_results three_agents
               [(2, Simulation.JDict
                      [("plan", Simulation.JStr "FORM_GROUP_WITH");
                       ("target", Simulation.JInt 1)])]).1 in
  AgentManager.execute_agent_plan_step w1 2 0.

(** The next dispatch queues agent 1's group decision. *)
Definition asked : World :=
  (AgentManager.initiate_llm_requests requested 1 []).1.

(** The oracle's answers used below. *)
Definition accept_from_2 : Simulation.json :=
  Simulation.JDict [("plan", Simulation.JStr "ACCEPT_GROUP_FROM");
                    ("target", Simulation.JInt 2)].
Definition banana : Simulation.json :=
  Simulation.JDict [("plan", Simulation.JStr "GO_TO_RESOURCE");
                    ("target", Simulation.JStr "banana")].
Definition unknown_plan : Simulation.json :=
  Simulation.JDict [("plan", Simulation.JStr "DANCE")].






(** A deposit of 3 at (2,2), in sight of all three agents. *)
Definition deposit_in_sight : World :=
  ResourceManager.spawn_resource_at three_agents (2, 2) 3.

Definition goto_resource_2_2 : Simulation.json :=
  Simulation.JDict [("plan", Simulation.JStr "GO_TO_RESOURCE");
                    ("target", Simulation.JList
                                 [Simulation.JInt 2; Simulation.JInt 2])].

(** One decision for agent [k] followed by one step of its plan. *)
Definition decide_and_step (w : World) (k : Z) (d : Simulation.json) : World :=
  AgentManager.execute_agent_plan_step
    (Simulation._process_llm_results w [(k, d)]).1 k 0.

(** The agents perceive the deposit at tick 0; agents 1 and 2 form group 0,
    whose shared map takes the entry over; agent 0 walks to the deposit
    (two moves) and harvests it in one step, which removes it from the
    world. *)
Definition shared_memory : World :=
  let w2 := AgentManager.update_agent_perception_and_memory deposit_in_sight 0 in
  let w3 := (GroupManager.create_group_with_agents w2 1 2).2 in
  let w4 := decide_and_step w3 0 goto_resource_2_2 in
  let w5 := decide_and_step w4 0 goto_resource_2_2 in
  decide_and_step w5 0 goto_resource_2_2.

(** Two agents created on cells found by [get_random_empty_cell], then
    one deposit; and the world after one pass of the loop in which the
    answer "go to (2,2)" arrives for agent 0. *)
Definition started : World :=
  let w1 := (AgentManager.create_agent init_world
               (GridManager.get_random_empty_cell (grid_manager init_world)
                  (λ _, (3, 4)))
               true 10 5 12 0 3).2 in
  let w2 := (AgentManager.create_agent w1
               (GridManager.get_random_empty_cell (grid_manager w1)
                  (λ n, match n with O => (3, 4) | _ => (3, 5) end))
               true 8 4 15 2 2).2 in
  ResourceManager.spawn_resources_1 w2 (λ _, (6, 9)) 30.

Definition quiet : Simulation.TickInput :=
  Simulation.mkTickInput (λ _, 1%Q) (λ _, 0%nat) true (λ _, (10, 10)) 25.

Definition after_one_pass : World :=
  Simulation.sim_world
    (Simulation.run_pass (Simulation.mkSim started 0 [] [] true)
       [(0, goto_resource_2_2)] 0 false quiet).

End Scenario.

(** ** Vocabulary of the properties *)



(** What the drain leaves of an agent: its plan and its waiting flag. *)
Definition plan_and_flag (w : World) (k : Z) : option (Plan * bool) :=
  (λ a, (Agent.current_plan a, Agent.is_waiting_for_llm a)) <$> agents w !! k.

(** What becoming a member does to the agent itself. *)
Definition joined (gid : Z) (c : Z * Z * Z) (k : Knowledge) (a : Agent.t)
    : Agent.t :=
  Agent.set_known_resources k
    (Agent.clear_pending_group_requests
       (Agent.set_color c (Agent.set_group_id (Some gid) a))).

Arguments joined : simpl never.

(** Hit points of the agent stored under [k]. *)
Definition hp_of (w : World) (k : Z) : option Q := Agent.hp <$> agents w !! k.










(** A position is visible to an agent when a resource marker at that
    position lies within its perception radius. *)
Definition visible_to (w : World) (a : Agent.t) (pos : Z * Z) : Prop :=
  ∃ r, (ObjResource r, pos)
       ∈ GridManager.get_objects_in_radius (grid_manager w)
           (Agent.x a) (Agent.y a) 5.

(** What an agent, and what a group, remembers of a position. *)
Definition agent_memory (w : World) (k : Z) (pos : Z * Z)
    : option KnownResource :=
  agents w !! k ≫= λ a, Agent.known_resources a !! pos.

Definition group_memory (w : World) (k : Z) (pos : Z * Z)
    : option KnownResource :=
  groups w !! k ≫= λ g, Group.group_known_resources g !! pos.

(** [n] ticks of consumption for one agent, nothing else happening to it. *)
Definition consume_ticks (n : nat) (a : Agent.t) : Agent.t :=
  Nat.iter n Agent.consume_resource a.

(** The number of ticks, among the first [n], on which an agent that
    started with [L] units starves. *)
Definition starving_ticks (L : Z) (n : nat) : Z :=
  Z.max 0 (Z.of_nat n - L + 1).

(** Every reference held by the resource table was handed out before:
    the next spawn gets a dictionary of its own. *)
Definition refs_fresh (w : World) : Prop :=
  ∀ pos r, resources w !! pos = Some r → (r < next_ref w)%nat.
(** The member set of the group stored under [k]. *)
Definition group_members (w : World) (k : Z) : option (gset Z) :=
  Group.member_ids <$> groups w !! k.
(** Every id in use was handed out by [create_agent] before. *)
Definition ids_below (w : World) : Prop :=
  ∀ k, is_Some (agents w !! k) → k < next_agent_id w.
(** The agent stored under [j] can still be grouped with [a]: it is
    present, alive, ungrouped and at Manhattan distance at most 2. *)
Definition request_alive (w : World) (a : Agent.t) (j : Z) : Prop :=
  ∃ o, agents w !! j = Some o
       ∧ Agent.is_alive o = true ∧ Agent.group_id o = None
       ∧ manhattan_distance (Agent.x a, Agent.y a) (Agent.x o, Agent.y o) ≤ 2.

(** What the request bookkeeping does to an agent: position, hit points
    and group stay, the outgoing request stays or is dropped, incoming
    requests are only ever removed. *)
Definition shrinks (a a' : Agent.t) : Prop :=
  Agent.x a' = Agent.x a ∧ Agent.y a' = Agent.y a
  ∧ Agent.hp a' = Agent.hp a ∧ Agent.group_id a' = Agent.group_id a
  ∧ (Agent.pending_group_request_to a' = Agent.pending_group_request_to a
     ∨ Agent.pending_group_request_to a' = None)
  ∧ Agent.pending_group_requests_from a' ⊆ Agent.pending_group_requests_from a.

Definition requests_shrink (w w' : World) : Prop :=
  ∀ k, match agents w !! k, agents w' !! k with
       | Some a, Some a' => shrinks a a'
       | None, None => True
       | _, _ => False
       end.

(** The requests of the living agent under [k] all pass the expiry
    test. *)
Definition requests_checked (w : World) (k : Z) : Prop :=
  ∀ a, agents w !! k = Some a → Agent.is_alive a = true →
    (∀ t, Agent.pending_group_request_to a = Some t →
          AgentManager.request_expired a (agents w !! t) = false)
    ∧ (∀ r, r ∈ Agent.pending_group_requests_from a →
            AgentManager.request_expired a (agents w !! r) = false).
(** A queued result is stale when the agent it is for is gone or dead. *)
Definition stale (w : World) (r : Z * Simulation.json) : Prop :=
  match agents w !! r.1 with
  | Some a => Agent.is_alive a = false
  | None => True
  end.

(** ** Agent-wise relations between worlds *)

(** Every agent of [ags'] was present in [ags] under the same id and is
    related to what it was; agents may have been removed, none is new. *)
Definition agents_rel (R : Agent.t → Agent.t → Prop) (ags ags' : Agents)
    : Prop :=
  ∀ k a', ags' !! k = Some a' → ∃ a, ags !! k = Some a ∧ R a a'.

(** The same between two worlds, together with a relation [G] between
    their grids. *)
Definition reaches (R : Agent.t → Agent.t → Prop)
    (G : GridManager.t → GridManager.t → Prop) (w0 w : World) : Prop :=
  agents_rel R (agents w0) (agents w) ∧ G (grid_manager w0) (grid_manager w).

(** The same for a computation of the drain, whatever frame it starts
    from. *)
Definition preserves (R : Agent.t → Agent.t → Prop)
    (G : GridManager.t → GridManager.t → Prop) {A} (c : Simulation.M A)
    : Prop :=
  ∀ w0 f, reaches R G w0 (Simulation.world f) →
          reaches R G w0 (Simulation.world (c f).1).

(** At most one of the two opponent fields is set. *)
Definition one_opponent (a : Agent.t) : Prop :=
  Agent.in_combat_with_group a = None ∨ Agent.in_combat_with_agent a = None.

(** A cell of the grid the simulation runs on. *)
Definition in_grid (p : Pos) : Prop :=
  0 ≤ p.1 < GRID_WIDTH ∧ 0 ≤ p.2 < GRID_HEIGHT.

(** The worlds the simulation can be in between two passes of its loop:
    [_initialize_sim] creates agents and spawns deposits on cells that
    [get_random_empty_cell] found, starting from the empty world, and
    [run] then makes one pass after the other.  The random draws, the
    answers of the oracle and the pause flag are arbitrary. *)
Inductive reachable : World → Prop :=
  | reachable_init : reachable init_world
  | reachable_create w draws has_configs strength defense fighting ticks rate :
      reachable w → (∀ n, in_grid (draws n)) →
      reachable
        (AgentManager.create_agent w
           (GridManager.get_random_empty_cell (grid_manager w) draws)
           has_configs strength defense fighting ticks rate).2
  | reachable_spawn w draws quantity :
      reachable w → (∀ n, in_grid (draws n)) →
      reachable (ResourceManager.spawn_resources_1 w draws quantity)
  | reachable_pass s arrived taken paused inp :
      reachable (Simulation.sim_world s) →
      (∀ n, in_grid (Simulation.spawn_cells inp n)) →
      reachable
        (Simulation.sim_world (Simulation.run_pass s arrived taken paused inp)).

(** Hit points and resource level are within their ranges. *)
Definition in_range (a : Agent.t) : Prop :=
  (0 <= Agent.hp a)%Q ∧ (Agent.hp a <= inject_Z AGENT_MAX_HP)%Q
  ∧ 0 ≤ Agent.resource_level a ≤ AGENT_MAX_RESOURCES.

(** The ids of the Agent objects that the cell [(x, y)] holds, in the
    order of the cell's list. *)
Definition agent_ids_at (gm : GridManager.t) (x y : Z) : list Z :=
  omap (λ o, match o with ObjAgent i => Some i | ObjResource _ => None end)
       (GridManager.get_objects_at gm x y).

(** The position of agent [k] is a cell of the grid, and the cell holds
    the Agent object. *)
Definition on_grid (gm : GridManager.t) (k : Z) (a : Agent.t) : Prop :=
  GridManager.is_valid_coordinate gm (Agent.x a) (Agent.y a) = true
  ∧ ObjAgent k ∈ GridManager.get_objects_at gm (Agent.x a) (Agent.y a).

(** The grid has the dimensions it was built with, every agent of the
    store is on the grid and no cell holds more than one Agent object. *)
Definition grid_ok (w : World) : Prop :=
  GridManager.width (grid_manager w) = GRID_WIDTH
  ∧ GridManager.height (grid_manager w) = GRID_HEIGHT
  ∧ (∀ k a, agents w !! k = Some a → on_grid (grid_manager w) k a)
  ∧ (∀ x y, (length (agent_ids_at (grid_manager w) x y) ≤ 1)%nat).

(** The agent has not moved. *)
Definition same_place (a a' : Agent.t) : Prop :=
  Agent.x a' = Agent.x a ∧ Agent.y a' = Agent.y a.

(** The grid has kept its dimensions and the Agent objects of every
    cell. *)
Definition same_agents_on_grid (gm gm' : GridManager.t) : Prop :=
  GridManager.width gm' = GridManager.width gm
  ∧ GridManager.height gm' = GridManager.height gm
  ∧ ∀ x y, agent_ids_at gm' x y = agent_ids_at gm x y.

(** The agent has the hit points it had. *)
Definition same_hp (a a' : Agent.t) : Prop := Agent.hp a' = Agent.hp a.

(** The agent has the id and the statistics drawn at its creation. *)
Definition same_stats (a a' : Agent.t) : Prop :=
  Agent.id a' = Agent.id a
  ∧ Agent.base_strength a' = Agent.base_strength a
  ∧ Agent.base_defense a' = Agent.base_defense a
  ∧ Agent.base_fighting_ability a' = Agent.base_fighting_ability a
  ∧ Agent.harvest_rate a' = Agent.harvest_rate a
  ∧ Agent.llm_config a' = Agent.llm_config a.

(** The agent is where it was, with the hit points and the resources it
    had. *)
Definition same_body (a a' : Agent.t) : Prop :=
  Agent.x a' = Agent.x a ∧ Agent.y a' = Agent.y a
  ∧ Agent.hp a' = Agent.hp a
  ∧ Agent.resource_level a' = Agent.resource_level a.

(** * Properties *)

(** ** Combat linkage *)










(** C10.  [initiate_combat i i] returns [False] and changes nothing,
    whatever the two ids name.  Agent ids and group ids both start at 0: in
    the scenario [one_group] agent 0 and group 0 are distinct entities, the
    id 0 names the agent, and agent 0 cannot start a fight with group 0. *)
Theorem initiate_combat_same_id :
  (∀ (w : World) (i : Z), CombatManager.initiate_combat w i i = (false, w))
  ∧ next_agent_id init_world = 0
  ∧ next_group_id init_world = 0
  ∧ is_some (agents Scenario.one_group !! 0) = true
  ∧ is_some (groups Scenario.one_group !! 0) = true
  ∧ (Agent.group_id <$> agents Scenario.one_group !! 0) = Some None
  ∧ (CombatManager.is_agent <$> CombatManager.get_participant Scenario.one_group 0)
    = Some true.
Proof.
  split.
  { intros w i. unfold CombatManager.initiate_combat. by rewrite Z.eqb_refl. }
  repeat split; by vm_compute.
Qed.

(** ** Movement under a GoTo plan *)

Lemma execute_move_never_true w k d t :
  (AgentManager._execute_move w k d t).1 ≠ Some true.
Proof.
  unfold AgentManager._execute_move.
  destruct (agents w !! k); [|done].
  destruct (assoc_string d AgentManager.move_map) as [[dx dy]|]; [|done].
  destruct (GridManager.is_valid_coordinate _ _ _); [|done].
  destruct (AgentManager.blocked_by_agent _ _ _); [done|].
  destruct (GridManager.move_object _ _ _ _ _ _ _ _) as [[ok gm] ags].
  by destruct ok.
Qed.

Lemma py_not_execute_move w k d t :
  AgentManager.py_not (AgentManager._execute_move w k d t).1 = true.
Proof.
  pose proof (execute_move_never_true w k d t) as H.
  destruct (AgentManager._execute_move w k d t).1 as [[|]|]; done.
Qed.

(** C2 (the code departs from the claim).  Agent 0 stands at (0,0) with the
    plan GO_TO_POS and target (2,2) on a grid where nothing blocks it.  One
    plan step moves it diagonally to (1,1), the cell is updated on the grid,
    and the plan is nevertheless reset to IDLE: [_execute_move] has no
    [return True], so [not move_successful] also holds after a move that
    succeeded. *)
Theorem goto_step_resets_plan_after_successful_move :
  let w := Scenario.walker in
  let w' := AgentManager.execute_agent_plan_step w 0 0 in
  (Agent.current_plan <$> agents w !! 0) = Some (mkPlan GO_TO_POS (TPos 2 2))
  ∧ ((λ a, (Agent.x a, Agent.y a)) <$> agents w !! 0) = Some (0, 0)
  ∧ ((λ a, (Agent.x a, Agent.y a)) <$> agents w' !! 0) = Some (1, 1)
  ∧ GridManager.get_objects_at (grid_manager w') 1 1 = [ObjAgent 0]
  ∧ GridManager.get_objects_at (grid_manager w') 0 0 = []
  ∧ (Agent.current_plan <$> agents w' !! 0) = Some idle_plan.
Proof. repeat split; by vm_compute. Qed.

Lemma move_object_agent heap ags gm i ox oy nx ny k a :
  ags !! k = Some a →
  ∃ a', (GridManager.move_object heap ags gm (ObjAgent i) ox oy nx ny).2 !! k
        = Some a' ∧ Agent.hp a' = Agent.hp a.
Proof.
  intros Ha. unfold GridManager.move_object.
  destruct (negb _); [eauto|].
  destruct (GridManager.remove_object _ _ _ _ _) as [removed gm1].
  destruct (GridManager.place_object _ _ _ _) as [placed gm2].
  destruct placed; simpl; [|eauto].
  destruct (decide (i = k)) as [->|Hne].
  - rewrite lookup_alter_eq, Ha. simpl. eauto.
  - rewrite lookup_alter_ne by done. eauto.
Qed.

Lemma execute_move_agent w k d t a :
  agents w !! k = Some a →
  ∃ a', agents (AgentManager._execute_move w k d t).2 !! k = Some a'
        ∧ Agent.hp a' = Agent.hp a.
Proof.
  intros Ha. unfold AgentManager._execute_move. rewrite Ha.
  destruct (assoc_string d AgentManager.move_map) as [[dx dy]|]; [|eauto].
  destruct (GridManager.is_valid_coordinate _ _ _); [|eauto].
  destruct (AgentManager.blocked_by_agent _ _ _); [eauto|].
  destruct (move_object_agent (heap w) (agents w) (grid_manager w) k
              (Agent.x a) (Agent.y a) (Agent.x a + dx) (Agent.y a + dy) k a Ha)
    as (a' & Ha' & Hhp).
  destruct (GridManager.move_object _ _ _ _ _ _ _ _) as [[ok gm] ags].
  simpl in Ha'. destruct ok; simpl; [|eauto].
  rewrite lookup_alter_eq, Ha'. simpl. eauto.
Qed.

(** The general form of the defect: whenever a living agent's GoTo plan
    takes its move branch, the plan is IDLE afterwards, whether the move
    was blocked or not. *)
Lemma move_step_always_idles w k a cur tgt :
  agents w !! k = Some a →
  Agent.is_alive a = true →
  (Agent.current_plan <$> agents (AgentManager.move_step w k a cur tgt) !! k)
  = Some idle_plan.
Proof.
  intros Ha Halive. unfold AgentManager.move_step.
  assert (Hidle : ∀ w1 a1, agents w1 !! k = Some a1 → Agent.hp a1 = Agent.hp a →
            (Agent.current_plan <$> agents (AgentManager.set_idle w1 k) !! k)
            = Some idle_plan).
  { intros w1 a1 H1 Hhp. unfold AgentManager.set_idle, upd_agent. simpl.
    rewrite lookup_alter_eq, H1. simpl. unfold Agent.set_new_plan.
    unfold Agent.is_alive in *. rewrite Hhp, Halive. done. }
  destruct (negb _); [|by eapply Hidle].
  pose proof (py_not_execute_move w k
                (String.append
                   (if 0 <? tgt.2 - cur.2 then "S"
                    else if tgt.2 - cur.2 <? 0 then "N" else "")
                   (if 0 <? tgt.1 - cur.1 then "E"
                    else if tgt.1 - cur.1 <? 0 then "W" else ""))
                (Agent.simulation_time_step a)) as Hnot.
  destruct (execute_move_agent w k
                (String.append
                   (if 0 <? tgt.2 - cur.2 then "S"
                    else if tgt.2 - cur.2 <? 0 then "N" else "")
                   (if 0 <? tgt.1 - cur.1 then "E"
                    else if tgt.1 - cur.1 <? 0 then "W" else ""))
                (Agent.simulation_time_step a) a Ha) as (a' & Ha' & Hhp).
  destruct (AgentManager._execute_move _ _ _ _) as [r w1]. simpl in *.
  rewrite Hnot. by eapply Hidle.
Qed.

(** ** Draining decision results *)

(** No exception leaves the drain: the loop always returns, with the
    results it has not taken. *)
Lemma drain_returns queue f :
  ∃ f' rest, Simulation.drain queue f = (f', Simulation.Ret rest).
Proof.
  revert f. induction queue as [|[agent_id d] rest IH]; intros f; simpl.
  - by eexists _, _.
  - destruct (Simulation.process_result agent_id d f) as [f' [u|e]]; [apply IH|].
    by eexists _, _.
Qed.

(** C1 (the code departs from the claim).  Agent 1 is alive and waits for
    its group decision (plan RESPOND_TO_GROUP_REQUEST).  Whether the oracle
    call fails ([None]), names an unknown plan, or sends the malformed target
    ["banana"] for GO_TO_RESOURCE, the drain raises internally
    ([UnboundLocalError] on [was_group_decision], or [AttributeError] on
    [PlanType.ATTACK_AGENT] followed by the handler's own [TypeError]),
    the outer handler swallows it, and the agent's plan is not set to IDLE:
    it stays RESPOND_TO_GROUP_REQUEST with the waiting flag still set. *)
Theorem failed_group_decision_is_not_idled :
  let stuck := Some (mkPlan RESPOND_TO_GROUP_REQUEST TNone, true) in
  (Agent.is_alive <$> agents Scenario.asked !! 1) = Some true
  ∧ plan_and_flag Scenario.asked 1 = stuck
  ∧ (Simulation.process_result 1 Simulation.JNull
       (Simulation.mkFrame Scenario.asked Simulation.unbound)).2
    = Simulation.Raise Simulation.UnboundLocalError
  ∧ plan_and_flag
      (Simulation._process_llm_results Scenario.asked
         [(1, Simulation.JNull)]).1 1 = stuck
  ∧ (Simulation.process_result 1 Scenario.unknown_plan
       (Simulation.mkFrame Scenario.asked Simulation.unbound)).2
    = Simulation.Raise Simulation.TypeError
  ∧ plan_and_flag
      (Simulation._process_llm_results Scenario.asked
         [(1, Scenario.unknown_plan)]).1 1 = stuck
  ∧ plan_and_flag
      (Simulation._process_llm_results Scenario.asked
         [(1, Scenario.banana)]).1 1 = stuck.
Proof. repeat split; by vm_compute. Qed.

(** The same malformed answers do idle an agent that is not in a group
    decision, as the spec's scenario expects. *)
Lemma ordinary_decision_is_idled :
  plan_and_flag
    (Simulation._process_llm_results Scenario.walker [(0, Scenario.banana)]).1 0
  = Some (idle_plan, false)
  ∧ plan_and_flag
      (Simulation._process_llm_results Scenario.walker
         [(0, Scenario.unknown_plan)]).1 0
    = Some (idle_plan, false).
Proof. split; by vm_compute. Qed.

(** C3 (the code departs from the claim).  Agent 2 requested agent 1, both
    conditions still hold, and agent 1's decision is ACCEPT_GROUP_FROM 2.
    The group 0 is created with exactly the members 1 and 2 and the
    requester's plan becomes IDLE, but the acceptor's own plan is not reset:
    [agent.set_new_plan(new_plan)] reads a [new_plan] that the success
    branch never assigned, and agent 1 stays in RESPOND_TO_GROUP_REQUEST. *)
Theorem accepted_group_leaves_acceptor_waiting :
  let w' := (Simulation._process_llm_results Scenario.asked
               [(1, Scenario.accept_from_2)]).1 in
  plan_and_flag Scenario.asked 1
  = Some (mkPlan RESPOND_TO_GROUP_REQUEST TNone, true)
  ∧ (Agent.pending_group_request_to <$> agents Scenario.asked !! 2) = Some (Some 1)
  ∧ (Agent.pending_group_requests_from <$> agents Scenario.asked !! 1)
    = Some {[ 2 ]}
  ∧ (Group.member_ids <$> groups w' !! 0) = Some {[ 1; 2 ]}
  ∧ (Agent.group_id <$> agents w' !! 1) = Some (Some 0)
  ∧ (Agent.group_id <$> agents w' !! 2) = Some (Some 0)
  ∧ plan_and_flag w' 2 = Some (idle_plan, false)
  ∧ plan_and_flag w' 1 = Some (mkPlan RESPOND_TO_GROUP_REQUEST TNone, true).
Proof. repeat split; by vm_compute. Qed.

(** ** Group formation: membership and merged knowledge *)

Lemma write_stats_fields ms g :
  Group.member_ids (Group.write_stats ms g) = Group.member_ids g
  ∧ Group.group_known_resources (Group.write_stats ms g)
    = Group.group_known_resources g
  ∧ Group.id (Group.write_stats ms g) = Group.id g.
Proof. unfold Group.write_stats. by destruct ms. Qed.

Lemma update_stats_fields ags g :
  Group.member_ids (Group.update_stats ags g)
  = filter (λ i, Group.keeps ags g i = true) (Group.member_ids g)
  ∧ Group.group_known_resources (Group.update_stats ags g)
    = Group.group_known_resources g
  ∧ Group.id (Group.update_stats ags g) = Group.id g.
Proof.
  unfold Group.update_stats, Group.get_member_agents.
  destruct (write_stats_fields
    (omap (λ i, (λ a, (i, a)) <$> ags !! i)
       (sorted_ids (filter (λ i, Group.keeps ags g i = true) (Group.member_ids g))))
    (if bool_decide
          (filter (λ i, Group.keeps ags g i = true) (Group.member_ids g)
           ≠ Group.member_ids g)
     then Group.write_stats
            (omap (λ i, (λ a, (i, a)) <$> ags !! i)
               (sorted_ids
                  (filter (λ i, Group.keeps ags g i = true) (Group.member_ids g))))
            (Group.set_member_ids
               (filter (λ i, Group.keeps ags g i = true) (Group.member_ids g)) g)
     else Group.set_member_ids
            (filter (λ i, Group.keeps ags g i = true) (Group.member_ids g)) g))
    as (-> & -> & ->).
  case_bool_decide; [|done].
  by destruct (write_stats_fields
    (omap (λ i, (λ a, (i, a)) <$> ags !! i)
       (sorted_ids (filter (λ i, Group.keeps ags g i = true) (Group.member_ids g))))
    (Group.set_member_ids
       (filter (λ i, Group.keeps ags g i = true) (Group.member_ids g)) g))
    as (-> & -> & ->).
Qed.

Lemma filter_all (P : Z → Prop) `{∀ x, Decision (P x)} (X : gset Z) :
  (∀ x, x ∈ X → P x) → filter P X = X.
Proof.
  intros HP. apply set_eq. intros x. rewrite elem_of_filter.
  split; [by intros [_ ?]|]. intros Hx. split; [by apply HP|done].
Qed.

Lemma clear_pending_fields a :
  let a' := Agent.clear_pending_group_requests a in
  Agent.hp a' = Agent.hp a ∧ Agent.group_id a' = Agent.group_id a
  ∧ Agent.known_resources a' = Agent.known_resources a
  ∧ Agent.pending_group_request_to a' = None
  ∧ Agent.pending_group_requests_from a' = ∅
  ∧ Agent.current_plan a' = Agent.current_plan a.
Proof.
  unfold Agent.clear_pending_group_requests.
  destruct (Agent.pending_group_request_to a) eqn:E1; simpl;
    case_bool_decide as E2; simpl; repeat split; try done.
  all: by destruct (decide (Agent.pending_group_requests_from a = ∅)).
Qed.

Lemma update_stats_color ags g :
  Group.color (Group.update_stats ags g) = Group.color g.
Proof.
  unfold Group.update_stats, Group.get_member_agents, Group.write_stats.
  destruct (omap _ _); case_bool_decide; done.
Qed.

Lemma joined_fields gid c k a :
  Agent.hp (joined gid c k a) = Agent.hp a
  ∧ Agent.group_id (joined gid c k a) = Some gid
  ∧ Agent.known_resources (joined gid c k a) = k
  ∧ Agent.pending_group_request_to (joined gid c k a) = None
  ∧ Agent.pending_group_requests_from (joined gid c k a) = ∅
  ∧ Agent.current_plan (joined gid c k a) = Agent.current_plan a
  ∧ Agent.in_combat_with_group (joined gid c k a) = Agent.in_combat_with_group a
  ∧ Agent.in_combat_with_agent (joined gid c k a) = Agent.in_combat_with_agent a.
Proof.
  unfold joined, Agent.clear_pending_group_requests. simpl.
  destruct (Agent.pending_group_request_to a) eqn:Eto; simpl;
    case_bool_decide as E; simpl; repeat split; try done.
  all: try (by destruct (decide (Agent.pending_group_requests_from a = ∅))).
Qed.

Lemma keeps_joined ags g gid c k a i :
  Agent.is_alive a = true → Group.id g = gid →
  Group.keeps (<[i := joined gid c k a]> ags) g i = true.
Proof.
  intros Hal Hid. unfold Group.keeps. rewrite lookup_insert_eq.
  destruct (joined_fields gid c k a) as (Hhp & Hg & _).
  unfold Agent.is_alive in *. rewrite Hhp, Hal, Hg, Hid. simpl.
  by rewrite Z.eqb_refl.
Qed.

Lemma group_init_spec gid acc ags c a :
  ags !! acc = Some a → Agent.is_alive a = true →
  ∃ g, Group.init gid acc ags c
       = (g, <[acc := joined gid c (Agent.known_resources a) a]> ags)
    ∧ Group.member_ids g = {[ acc ]} ∧ Group.id g = gid
    ∧ Group.group_known_resources g = Agent.known_resources a
    ∧ Group.color g = c.
Proof.
  intros Ha Hal. unfold Group.init. rewrite Ha.
  destruct (clear_pending_fields
              (Agent.set_color c (Agent.set_group_id (Some gid) a)))
    as (_ & _ & Hk & _).
  cbn [Group.group_known_resources Group.set_group_known_resources] in *.
  rewrite Hk. cbn [Agent.known_resources Agent.set_color Agent.set_group_id].
  fold (joined gid c (Agent.known_resources a) a).
  eexists. split; [reflexivity|].
  match goal with |- context [Group.update_stats ?m ?g] =>
    destruct (update_stats_fields m g) as (Hm & Hkn & Hid);
    pose proof (update_stats_color m g) as Hc
  end.
  rewrite Hm, Hkn, Hid, Hc. cbn.
  repeat split; try done.
  apply filter_all. intros x Hx. apply elem_of_singleton in Hx as ->.
  by apply keeps_joined.
Qed.

Lemma add_member_spec ags g k r :
  ags !! k = Some r → Agent.is_alive r = true → Agent.group_id r = None →
  let merged := Agent.known_resources r ∪ Group.group_known_resources g in
  let ags' := <[k := joined (Group.id g) (Group.color g) merged r]> ags in
  ∃ g', Group.add_member ags g k = (true, g', ags')
    ∧ Group.member_ids g'
      = filter (λ i, Group.keeps ags' g i = true) ({[ k ]} ∪ Group.member_ids g)
    ∧ Group.id g' = Group.id g
    ∧ Group.group_known_resources g' = merged
    ∧ Group.color g' = Group.color g.
Proof.
  intros Hr Hal Hg merged ags'. unfold Group.add_member.
  rewrite Hr, Hal, Hg. cbn [is_some negb andb].
  destruct (clear_pending_fields
              (Agent.set_color (Group.color g)
                 (Agent.set_group_id (Some (Group.id g)) r)))
    as (_ & _ & Hk & _).
  cbn [Group.group_known_resources Group.set_group_known_resources
       Group.set_member_ids Group.id Group.color] in *.
  rewrite Hk. cbn [Agent.known_resources Agent.set_color Agent.set_group_id].
  fold merged. fold (joined (Group.id g) (Group.color g) merged r). fold ags'.
  eexists. split; [reflexivity|].
  match goal with |- context [Group.update_stats ?m ?g] =>
    destruct (update_stats_fields m g) as (Hm & Hkn & Hid);
    pose proof (update_stats_color m g) as Hc
  end.
  rewrite Hm, Hkn, Hid, Hc. done.
Qed.

(** The part of C3 that holds for every accepted pair: when both agents
    are alive and ungrouped, [create_group_with_agents] creates the group
    under the next group id with exactly the two members, and the group's
    map and both agents' maps equal the union of the two maps, the
    requester's entry winning on a shared position. *)
Lemma create_group_members_and_knowledge w acc req a r :
  acc ≠ req →
  agents w !! acc = Some a → agents w !! req = Some r →
  Agent.is_alive a = true → Agent.group_id a = None →
  Agent.is_alive r = true → Agent.group_id r = None →
  let merged := Agent.known_resources r ∪ Agent.known_resources a in
  ∃ w' g,
    GroupManager.create_group_with_agents w acc req = (Some (next_group_id w), w')
    ∧ groups w' !! next_group_id w = Some g
    ∧ Group.member_ids g = {[ acc; req ]}
    ∧ Group.group_known_resources g = merged
    ∧ (Agent.known_resources <$> agents w' !! acc) = Some merged
    ∧ (Agent.known_resources <$> agents w' !! req) = Some merged
    ∧ (Agent.group_id <$> agents w' !! acc) = Some (Some (next_group_id w))
    ∧ (Agent.group_id <$> agents w' !! req) = Some (Some (next_group_id w)).
Proof.
  intros Hne Ha Hr Haa Hga Hra Hgr merged.
  unfold GroupManager.create_group_with_agents.
  rewrite Ha, Hr, Haa, Hga, Hra, Hgr. cbn [is_some negb andb].
  set (gid := next_group_id w).
  destruct (group_init_spec gid acc (agents w) (Agent.color r) a Ha Haa)
    as (g0 & -> & Hm0 & Hid0 & Hk0 & Hc0).
  rewrite lookup_insert_ne, Hr by done.
  set (a1 := joined gid (Agent.color r) (Agent.known_resources a) a).
  set (group1 := Group.set_group_known_resources _ g0).
  assert (Hk1 : Group.group_known_resources group1 = merged).
  { unfold group1. cbn. by rewrite Hk0. }
  rewrite Hk1.
  set (ags3 := alter _ req (alter _ acc (<[acc := a1]> (agents w)))).
  assert (Hr3 : ags3 !! req = Some (Agent.set_known_resources merged r)).
  { unfold ags3. by rewrite lookup_alter_eq, lookup_alter_ne, lookup_insert_ne, Hr. }
  assert (Ha3 : ags3 !! acc = Some (Agent.set_known_resources merged a1)).
  { unfold ags3. by rewrite lookup_alter_ne, lookup_alter_eq, lookup_insert_eq. }
  destruct (add_member_spec ags3 group1 req (Agent.set_known_resources merged r)
              Hr3 Hra Hgr) as (g' & -> & Hm' & Hid' & Hk' & Hc').
  cbn [Agent.known_resources Agent.set_known_resources] in *.
  rewrite Hk1 in *.
  assert (Hmm : merged ∪ merged = merged).
  { apply map_eq. intros i. rewrite lookup_union. by destruct (merged !! i). }
  rewrite Hmm in *.
  assert (Hidg : Group.id group1 = gid) by done.
  rewrite Hidg in *.
  destruct (joined_fields gid (Agent.color r) (Agent.known_resources a) a)
    as (Hhp1 & Hg1 & _).
  eexists _, g'. split; [reflexivity|]. cbn [groups agents].
  rewrite lookup_insert_eq. split; [done|].
  split.
  { subst a1. rewrite Hm'. cbn. rewrite Hm0.
    rewrite filter_all; [apply (comm_L (∪))|].
    intros x Hx. apply elem_of_union in Hx as [Hx|Hx];
      apply elem_of_singleton in Hx as ->.
    - by apply keeps_joined.
    - unfold Group.keeps. rewrite lookup_insert_ne, Ha3 by done.
      unfold Agent.is_alive in *.
      cbn [Agent.hp Agent.group_id Agent.set_known_resources].
      fold (joined gid (Agent.color r) (Agent.known_resources a) a).
      rewrite Hhp1, Haa, Hg1, Hidg. cbn.
      by rewrite Z.eqb_refl. }
  split; [done|].
  rewrite lookup_insert_ne, Ha3, lookup_insert_eq by done.
  destruct (joined_fields gid (Group.color group1) merged
              (Agent.set_known_resources merged r)) as (_ & Hg2 & Hk2 & _).
  subst a1.
  unfold fmap, option_fmap, option_map.
  cbn [Agent.known_resources Agent.group_id Agent.set_known_resources].
  by rewrite Hg1, Hg2, Hk2.
Qed.

(** ** Damage of a combat round *)


Lemma sorted_ids_elem (s : gset Z) i : i ∈ sorted_ids s ↔ i ∈ s.
Proof.
  unfold sorted_ids. rewrite merge_sort_Permutation. apply elem_of_elements.
Qed.


(** The list [get_member_agents] returns: the kept ids, each with the
    agent stored under it. *)
Lemma members_lookup (ags : Agents) (l : list Z) i a :
  (i, a) ∈ omap (λ i, (λ a, (i, a)) <$> ags !! i) l ↔ i ∈ l ∧ ags !! i = Some a.
Proof.
  rewrite list_elem_of_omap. split.
  - intros (j & Hj & Hf). destruct (ags !! j) eqn:E; simplify_eq/=. done.
  - intros [Hi Ha]. exists i. by rewrite Ha.
Qed.


Lemma get_member_agents_spec ags g i a :
  (i, a) ∈ (Group.get_member_agents ags g).2
  ↔ i ∈ Group.member_ids g ∧ ags !! i = Some a
    ∧ Agent.is_alive a = true ∧ Agent.group_id a = Some (Group.id g).
Proof.
  unfold Group.get_member_agents. cbn [snd].
  rewrite members_lookup, sorted_ids_elem, elem_of_filter.
  unfold Group.keeps. split.
  - intros [[Hk Hi] Ha]. rewrite Ha in Hk.
    apply andb_true_iff in Hk as [Hal Hg]. repeat split; try done.
    unfold opt_is in Hg. destruct (Agent.group_id a); [|done].
    apply Z.eqb_eq in Hg. by subst.
  - intros (Hi & Ha & Hal & Hg). rewrite Ha, Hal, Hg. simpl.
    by rewrite Z.eqb_refl.
Qed.



Lemma is_alive_pos a : Agent.is_alive a = true ↔ (0 < Agent.hp a)%Q.
Proof.
  unfold Agent.is_alive, Qlt_bool. rewrite negb_true_iff.
  rewrite <- not_true_iff_false, Qle_bool_iff. split.
  - apply Qnot_le_lt.
  - apply Qlt_not_le.
Qed.






(** ** Harvesting *)

















(** ** Knowledge decay *)

(** The loop of [perceive] over the visible objects: every position it
    marks as seen carries the current tick, and the marked positions are
    those of the resource markers in the list. *)
Lemma perceive_loop (hp : Heap) (t : Z) (l : list (Obj * Pos))
    (kn0 : Knowledge) (sn0 : gset (Z * Z)) :
  (∀ pos, pos ∈ sn0 → ∃ e, kn0 !! pos = Some e ∧ last_seen_tick e = t) →
  let st := foldl (λ (st : Knowledge * gset (Z * Z)) (op : Obj * Pos),
                     match op.1 with
                     | ObjResource r =>
                         let res_info := default (mkRes "Unknown" 0) (hp !! r) in
                         (<[op.2 := mkKnown (res_type res_info)
                                            (quantity res_info) t]> st.1,
                          {[ op.2 ]} ∪ st.2)
                     | ObjAgent _ => st
                     end) (kn0, sn0) l in
  (∀ pos, pos ∈ st.2 → ∃ e, st.1 !! pos = Some e ∧ last_seen_tick e = t)
  ∧ (∀ pos, pos ∈ st.2 ↔ pos ∈ sn0 ∨ ∃ r, (ObjResource r, pos) ∈ l).
Proof.
  revert kn0 sn0. induction l as [|[o p] l IH]; intros kn0 sn0 Hinv.
  - cbn. split; [done|]. intros pos. split; [by left|].
    intros [?|[r Hr]]; [done|]. by apply elem_of_nil in Hr.
  - cbn [foldl fst snd]. destruct o as [i|r].
    + destruct (IH kn0 sn0 Hinv) as [H1 H2]. split; [done|].
      intros pos. rewrite H2. split.
      * intros [?|[r Hr]]; [by left|]. right. exists r.
        apply elem_of_cons. by right.
      * intros [?|[r Hr]]; [by left|]. right. exists r.
        apply elem_of_cons in Hr as [?|?]; [done|done].
    + match goal with |- context [foldl _ (?k, ?s) l] =>
        destruct (IH k s) as [H1 H2]
      end.
      { intros pos Hpos. destruct (decide (pos = p)) as [->|Hne].
        - rewrite lookup_insert_eq. by eexists.
        - rewrite lookup_insert_ne by done. apply Hinv.
          apply elem_of_union in Hpos as [Hp|?]; [|done].
          by apply elem_of_singleton in Hp. }
      split; [done|]. intros pos. rewrite H2. split.
      * intros [Hin|[r' Hr]].
        -- apply elem_of_union in Hin as [Hp|?]; [|by left].
           apply elem_of_singleton in Hp as ->. right. exists r.
           apply elem_of_cons. by left.
        -- right. exists r'. apply elem_of_cons. by right.
      * intros [?|[r' Hr]].
        -- left. apply elem_of_union. by right.
        -- apply elem_of_cons in Hr as [Heq|?]; [|right; by exists r'].
           injection Heq as _ ->. left. apply elem_of_union. left.
           by apply elem_of_singleton.
Qed.

Lemma perceive_known w t a pos e :
  Agent.is_alive a = true →
  Agent.known_resources (AgentManager.perceive w t a) !! pos = Some e →
  (visible_to w a pos ∧ last_seen_tick e = t)
  ∨ (¬ visible_to w a pos ∧ t - last_seen_tick e ≤ AgentManager.FORGET_THRESHOLD).
Proof.
  intros Hal. unfold AgentManager.perceive. rewrite Hal. cbn [negb].
  match goal with |- context [foldl ?f (?k, ?s) ?l] =>
    destruct (perceive_loop (heap w) t l k s) as [H1 H2];
      [intros ? Hx; by apply elem_of_empty in Hx|];
    destruct (foldl f (k, s) l) as [kn sn]
  end.
  cbn [fst snd Agent.known_resources Agent.set_known_resources] in *.
  intros Hlook. apply map_lookup_filter_Some in Hlook as [Hkn Hkeep].
  cbn [fst snd] in Hkeep. unfold AgentManager.forgets in Hkeep.
  destruct (decide (pos ∈ sn)) as [Hin|Hnin].
  - left. split.
    + apply H2 in Hin as [Hin|Hin]; [by apply elem_of_empty in Hin|done].
    + destruct (H1 pos Hin) as (e' & He' & Ht). congruence.
  - right. split.
    + intros Hv. apply Hnin, H2. by right.
    + rewrite bool_decide_eq_false_2 in Hkeep by done. cbn in Hkeep.
      apply Z.ltb_ge in Hkeep. done.
Qed.

Lemma perceive_position w t a :
  Agent.x (AgentManager.perceive w t a) = Agent.x a
  ∧ Agent.y (AgentManager.perceive w t a) = Agent.y a
  ∧ Agent.is_alive (AgentManager.perceive w t a) = Agent.is_alive a.
Proof.
  unfold AgentManager.perceive.
  destruct (negb (Agent.is_alive a)); [done|].
  by destruct (foldl _ _ _).
Qed.

(** C9 (amended). One call of [update_agent_perception_and_memory] at tick
    [t] leaves in the own map of every living agent only entries that are
    either visible now, and then stamped with [t], or were last seen at
    most [FORGET_THRESHOLD] ticks ago; the groups, and so their shared
    maps, are left as they were. *)
Theorem perception_prunes_agent_memory (w : World) (t k : Z) (a : Agent.t)
    (pos : Z * Z) (e : KnownResource) :
  let w' := AgentManager.update_agent_perception_and_memory w t in
  agents w' !! k = Some a →
  Agent.is_alive a = true →
  Agent.known_resources a !! pos = Some e →
  ((visible_to w a pos ∧ last_seen_tick e = t)
   ∨ (¬ visible_to w a pos
      ∧ t - last_seen_tick e ≤ AgentManager.FORGET_THRESHOLD))
  ∧ groups w' = groups w.
Proof.
  intros w' Hk Hal He. split; [|done].
  unfold w', AgentManager.update_agent_perception_and_memory in Hk.
  cbn [agents set_agents] in Hk. rewrite lookup_fmap in Hk.
  destruct (agents w !! k) as [a0|] eqn:Ha0; [|done].
  cbn in Hk. injection Hk as <-.
  destruct (perceive_position w t a0) as (Hx & Hy & Hl).
  rewrite Hl in Hal.
  destruct (perceive_known w t a0 pos e Hal He) as [[Hv Ht]|[Hv Ht]].
  - left. split; [|done]. unfold visible_to in *. by rewrite Hx, Hy.
  - right. split; [|done]. unfold visible_to in *. by rewrite Hx, Hy.
Qed.

(** The deposit at (2,2) is gone and 150 ticks have passed since anyone
    saw it: the three agents have forgotten it, the group has not. *)
Lemma group_memory_keeps_stale_entry :
  let w := AgentManager.update_agent_perception_and_memory
             Scenario.shared_memory 150 in
  group_memory w 0 (2, 2) = Some (mkKnown "food" 3 0)
  ∧ GridManager.get_objects_at (grid_manager w) 2 2 = [ObjAgent 0]
  ∧ resources w = ∅
  ∧ (AgentManager.FORGET_THRESHOLD <? 150 - 0) = true
  ∧ agent_memory w 1 (2, 2) = None
  ∧ agent_memory w 2 (2, 2) = None.
Proof. by vm_compute. Qed.

Lemma perception_prunes_agent_memory_witness :
  ∃ a, agents (AgentManager.update_agent_perception_and_memory
                 Scenario.deposit_in_sight 7) !! 1 = Some a
       ∧ ((visible_to Scenario.deposit_in_sight a (2, 2)
           ∧ last_seen_tick (mkKnown "food" 3 7) = 7)
          ∨ (¬ visible_to Scenario.deposit_in_sight a (2, 2)
             ∧ 7 - last_seen_tick (mkKnown "food" 3 7)
               ≤ AgentManager.FORGET_THRESHOLD))
       ∧ groups (AgentManager.update_agent_perception_and_memory
                   Scenario.deposit_in_sight 7)
         = groups Scenario.deposit_in_sight.
Proof.
  eexists. split; [vm_compute; reflexivity|].
  apply (perception_prunes_agent_memory Scenario.deposit_in_sight 7 1 _
           (2, 2) (mkKnown "food" 3 7)); vm_compute; reflexivity.
Defined.

(** ** The grid *)

Lemma obj_eqb_refl heap o : obj_eqb heap o o = true.
Proof.
  destruct o as [i|r]; cbn.
  - apply Z.eqb_refl.
  - by rewrite Nat.eqb_refl.
Qed.

Lemma remove_first_last heap o l :
  (∀ o', o' ∈ l → obj_eqb heap o' o = false) →
  remove_first (obj_eqb heap) o (l ++ [o]) = l.
Proof.
  induction l as [|o' l IH]; intros Habs; cbn.
  - by rewrite obj_eqb_refl.
  - rewrite (Habs o') by (apply elem_of_cons; by left).
    f_equal. apply IH. intros o'' Ho. apply Habs, elem_of_cons. by right.
Qed.

Lemma existsb_last heap o l :
  existsb (λ o', obj_eqb heap o' o) (l ++ [o]) = true.
Proof.
  rewrite existsb_app. cbn. rewrite obj_eqb_refl. by rewrite orb_true_r.
Qed.

Lemma get_objects_at_insert w h g x y l i j :
  GridManager.get_objects_at (GridManager.mk w h (<[(x, y) := l]> g)) i j
  = if decide ((i, j) = (x, y)) then l
    else default [] (g !! (i, j)).
Proof.
  unfold GridManager.get_objects_at. cbn [GridManager.grid].
  destruct (decide ((i, j) = (x, y))) as [->|Hne].
  - by rewrite lookup_insert_eq.
  - by rewrite lookup_insert_ne.
Qed.

(** Placing an object on a valid cell that holds no object equal to it
    and removing it again succeeds and gives back every cell as it read
    before. *)
Theorem place_then_remove_restores (heap : Heap) (gm : GridManager.t)
    (o : Obj) (x y : Z) :
  GridManager.is_valid_coordinate gm x y = true →
  (∀ o', o' ∈ GridManager.get_objects_at gm x y → obj_eqb heap o' o = false) →
  let gm1 := (GridManager.place_object gm o x y).2 in
  let r := GridManager.remove_object heap gm1 o x y in
  r.1 = true
  ∧ ∀ i j, GridManager.get_objects_at r.2 i j
           = GridManager.get_objects_at gm i j.
Proof.
  intros Hv Habs gm1 r. subst r gm1.
  unfold GridManager.place_object. rewrite Hv. cbn [snd].
  unfold GridManager.remove_object.
  change (GridManager.is_valid_coordinate
            (GridManager.mk (GridManager.width gm) (GridManager.height gm) _)
            x y)
    with (GridManager.is_valid_coordinate gm x y).
  rewrite Hv, get_objects_at_insert, decide_True by done.
  rewrite existsb_last. cbn [fst snd GridManager.width GridManager.height
                             GridManager.grid].
  split; [done|]. intros i j.
  rewrite insert_insert_eq, get_objects_at_insert.
  destruct (decide ((i, j) = (x, y))) as [[= -> ->]|Hne]; [|done].
  by apply remove_first_last.
Qed.

Lemma place_then_remove_restores_witness :
  let gm := grid_manager Scenario.three_agents in
  let r := GridManager.remove_object ∅
             (GridManager.place_object gm (ObjResource 7) 5 5).2
             (ObjResource 7) 5 5 in
  r.1 = true
  ∧ ∀ i j, GridManager.get_objects_at r.2 i j
           = GridManager.get_objects_at gm i j.
Proof.
  apply (place_then_remove_restores ∅ (grid_manager Scenario.three_agents)
           (ObjResource 7) 5 5).
  - reflexivity.
  - intros o' Ho. vm_compute in Ho.
    apply list_elem_of_singleton in Ho. by subst o'.
Defined.

(** [move_object] reports success exactly when the target coordinate is
    valid, whether or not the object was found at the old position.  On
    success the object is the last one of the target cell; on failure grid
    and agents are untouched. *)
Theorem move_object_succeeds_iff_target_valid (heap : Heap) (ags : Agents)
    (gm : GridManager.t) (o : Obj) (ox oy nx ny : Z) :
  let r := GridManager.move_object heap ags gm o ox oy nx ny in
  r.1.1 = GridManager.is_valid_coordinate gm nx ny
  ∧ if GridManager.is_valid_coordinate gm nx ny
    then last (GridManager.get_objects_at r.1.2 nx ny) = Some o
    else r = (false, gm, ags).
Proof.
  intros r. subst r. unfold GridManager.move_object.
  destruct (GridManager.is_valid_coordinate gm nx ny) eqn:Hv; cbn [negb];
    [|done].
  destruct (GridManager.remove_object heap gm o ox oy) as [removed gm1] eqn:Hr.
  assert (Hv1 : GridManager.is_valid_coordinate gm1 nx ny = true).
  { unfold GridManager.remove_object in Hr.
    destruct (GridManager.is_valid_coordinate gm ox oy);
      [destruct (existsb _ _)|]; injection Hr as _ <-; done. }
  unfold GridManager.place_object. rewrite Hv1.
  destruct o as [i|ref]; cbn [fst snd];
    (split; [done|]); rewrite get_objects_at_insert, decide_True by done;
    apply last_snoc.
Qed.

Lemma range_elem lo hi k : k ∈ range lo hi ↔ lo ≤ k < hi.
Proof.
  unfold range. rewrite list_elem_of_In, in_map_iff. split.
  - intros (n & <- & Hn). apply in_seq in Hn. lia.
  - intros Hk. exists (Z.to_nat (k - lo)). split; [lia|].
    apply in_seq. lia.
Qed.

Lemma square_le_bound a r : 0 ≤ r → a ^ 2 ≤ r ^ 2 → - r ≤ a ≤ r.
Proof.
  intros Hr Ha. destruct (Z_lt_le_dec r (Z.abs a)) as [Hlt|Hle]; [|lia].
  assert (H2 : r ^ 2 < Z.abs a ^ 2) by (apply Z.pow_lt_mono_l; lia).
  rewrite !Z.pow_2_r in *. rewrite Z.abs_square in H2. lia.
Qed.

Lemma square_sum_parts a b r :
  a ^ 2 + b ^ 2 ≤ r ^ 2 → a ^ 2 ≤ r ^ 2 ∧ b ^ 2 ≤ r ^ 2.
Proof.
  intros H. pose proof (Z.square_nonneg a). pose proof (Z.square_nonneg b).
  rewrite !Z.pow_2_r in *. lia.
Qed.

(** [get_objects_in_radius] returns exactly the objects of the cells of
    the grid whose squared Euclidean distance to the centre is at most the
    squared radius, each with its position.  The centre itself need not be
    on the grid. *)
Theorem get_objects_in_radius_spec (gm : GridManager.t) (x y radius : Z)
    (o : Obj) (i j : Z) :
  0 ≤ radius →
  (o, (i, j)) ∈ GridManager.get_objects_in_radius gm x y radius
  ↔ GridManager.is_valid_coordinate gm i j = true
    ∧ (x - i) ^ 2 + (y - j) ^ 2 ≤ radius ^ 2
    ∧ o ∈ GridManager.get_objects_at gm i j.
Proof.
  intros Hr. unfold GridManager.get_objects_in_radius, GridManager.is_valid_coordinate.
  split.
  - intros Hin. apply list_elem_of_In, in_concat in Hin as (l & Hl & Ho).
    apply in_map_iff in Hl as (i' & <- & Hi').
    apply in_concat in Ho as (l' & Hl' & Ho).
    apply in_map_iff in Hl' as (j' & <- & Hj').
    apply list_elem_of_In, range_elem in Hi'.
    apply list_elem_of_In, range_elem in Hj'.
    destruct ((x - i') ^ 2 + (y - j') ^ 2 <=? radius ^ 2) eqn:Hd; [|done].
    apply in_map_iff in Ho as (o' & [= -> -> ->] & Ho').
    apply Z.leb_le in Hd. apply list_elem_of_In in Ho'.
    repeat split; [|done..].
    clear Hd. repeat (apply andb_true_intro; split); lia.
  - intros (Hv & Hd & Ho).
    apply andb_prop in Hv as [Hv Hj2]. apply andb_prop in Hv as [Hv Hj1].
    apply andb_prop in Hv as [Hi1 Hi2].
    destruct (square_sum_parts _ _ _ Hd) as [Hxi Hyj].
    assert (Hbi : x - radius ≤ i ≤ x + radius)
      by (pose proof (square_le_bound _ _ Hr Hxi); lia).
    assert (Hbj : y - radius ≤ j ≤ y + radius)
      by (pose proof (square_le_bound _ _ Hr Hyj); lia).
    clear Hxi Hyj. apply list_elem_of_In, in_concat. eexists. split.
    + apply in_map_iff. exists i. split; [reflexivity|].
      apply list_elem_of_In, range_elem. clear Hd. lia.
    + apply in_concat. eexists. split.
      * apply in_map_iff. exists j. split; [reflexivity|].
        apply list_elem_of_In, range_elem. clear Hd. lia.
      * apply Z.leb_le in Hd. rewrite Hd. apply in_map_iff.
        exists o. split; [done|]. by apply list_elem_of_In.
Qed.

Lemma get_objects_in_radius_spec_witness :
  (ObjAgent 2, (5, 6))
    ∈ GridManager.get_objects_in_radius (grid_manager Scenario.three_agents)
        5 5 5
  ↔ GridManager.is_valid_coordinate (grid_manager Scenario.three_agents) 5 6
    = true
    ∧ (5 - 5) ^ 2 + (5 - 6) ^ 2 ≤ 5 ^ 2
    ∧ ObjAgent 2
        ∈ GridManager.get_objects_at (grid_manager Scenario.three_agents) 5 6.
Proof.
  apply (get_objects_in_radius_spec (grid_manager Scenario.three_agents)
           5 5 5 (ObjAgent 2) 5 6).
  lia.
Defined.

(** [get_random_empty_cell] returns the first drawn cell that holds no
    object; it gives up, returning nothing, only when each of the
    [width * height] drawn cells is occupied. *)
Theorem get_random_empty_cell_spec (gm : GridManager.t) (draws : nat → Pos) :
  match GridManager.get_random_empty_cell gm draws with
  | Some pos =>
      GridManager.get_objects_at gm pos.1 pos.2 = []
      ∧ ∃ n, (n < Z.to_nat (GridManager.width gm * GridManager.height gm))%nat
             ∧ draws n = pos
             ∧ ∀ m, (m < n)%nat →
                  GridManager.get_objects_at gm (draws m).1 (draws m).2 ≠ []
  | None =>
      ∀ n, (n < Z.to_nat (GridManager.width gm * GridManager.height gm))%nat →
           GridManager.get_objects_at gm (draws n).1 (draws n).2 ≠ []
  end.
Proof.
  unfold GridManager.get_random_empty_cell.
  set (N := Z.to_nat (GridManager.width gm * GridManager.height gm)).
  set (f := λ c : Z * Z, bool_decide (GridManager.get_objects_at gm c.1 c.2 = [])).
  assert (Hgen : ∀ len start,
    match List.find f (map draws (seq start len)) with
    | Some pos =>
        GridManager.get_objects_at gm pos.1 pos.2 = []
        ∧ ∃ n, (start ≤ n < start + len)%nat ∧ draws n = pos
               ∧ ∀ m, (start ≤ m < n)%nat →
                    GridManager.get_objects_at gm (draws m).1 (draws m).2 ≠ []
    | None =>
        ∀ n, (start ≤ n < start + len)%nat →
             GridManager.get_objects_at gm (draws n).1 (draws n).2 ≠ []
    end).
  { induction len as [|len IH]; intros start; cbn [seq map List.find].
    - intros n Hn. lia.
    - destruct (f (draws start)) eqn:Hf.
      + apply bool_decide_eq_true in Hf. split; [done|].
        exists start. split; [lia|]. split; [done|]. intros m Hm. lia.
      + apply bool_decide_eq_false in Hf. specialize (IH (S start)).
        destruct (List.find f (map draws (seq (S start) len))) as [pos|].
        * destruct IH as (He & n & Hn & Hd & Hbefore). split; [done|].
          exists n. split; [lia|]. split; [done|]. intros m Hm.
          destruct (decide (m = start)) as [->|]; [done|].
          apply Hbefore. lia.
        * intros n Hn. destruct (decide (n = start)) as [->|]; [done|].
          apply IH. lia. }
  specialize (Hgen N 0%nat). revert Hgen.
  destruct (List.find f (map draws (seq 0 N))) as [pos|]; intros Hgen.
  - destruct Hgen as (He & n & Hn & Hd & Hbefore). split; [done|].
    exists n. split; [lia|]. split; [done|]. intros m Hm. apply Hbefore. lia.
  - intros n Hn. apply Hgen. lia.
Qed.

(** ** Hit points and consumption *)



Lemma consume_resource_step (a : Agent.t) (h : Q) :
  (Agent.hp a == h)%Q →
  let a' := Agent.consume_resource a in
  (Agent.resource_level a'
   = if Qlt_bool 0 h then Z.max 0 (Agent.resource_level a - 1)
     else Agent.resource_level a)
  ∧ (Agent.hp a'
     == if Qlt_bool 0 h && (Agent.resource_level a <=? 1)
        then Qmax 0 (h - 2) else h)%Q.
Proof.
  intros Hh a'. subst a'. unfold Agent.consume_resource, Agent.is_alive.
  assert (Hb : Qlt_bool 0 (Agent.hp a) = Qlt_bool 0 h).
  { unfold Qlt_bool. f_equal. apply eq_true_iff_eq.
    rewrite !Qle_bool_iff. by rewrite Hh. }
  rewrite Hb. destruct (Qlt_bool 0 h) eqn:Hal; cbn [andb]; [|done].
  cbn [Agent.resource_level Agent.set_resource_level].
  change AGENT_CONSUMPTION_RATE with 1.
  destruct (Z.max 0 (Agent.resource_level a - 1) <=? 0) eqn:E1;
    destruct (Agent.resource_level a <=? 1) eqn:E2;
    try (apply Z.leb_le in E1); try (apply Z.leb_gt in E1);
    try (apply Z.leb_le in E2); try (apply Z.leb_gt in E2); try lia.
  - split; [unfold Agent.take_damage; by destruct (negb _)|].
    unfold Agent.take_damage, Agent.is_alive.
    cbn [Agent.hp Agent.set_resource_level]. rewrite Hb.
    cbn [negb Agent.hp Agent.set_hp].
    change (inject_Z STARVATION_DAMAGE_PER_TICK) with 2%Q.
    change (Qmax 0 2) with 2%Q.
    destruct (Q.max_spec 0 (Agent.hp a - 2)) as [[H3 H4]|[H3 H4]];
      destruct (Q.max_spec 0 (h - 2)) as [[H5 H6]|[H5 H6]];
      rewrite H4, H6; lra.
  - done.
Qed.

(** An agent with an integral number [H > 0] of hit points and [L >= 1]
    units of resources, left to consumption alone, has [max 0 (L - n)]
    units after [n] ticks; it starves for the first time on tick [L], the
    tick on which its last unit is used up, and from then on loses the
    starvation damage each tick until its hit points are zero. *)
Theorem consumption_schedule (a : Agent.t) (H : Z) (n : nat) :
  (Agent.hp a == inject_Z H)%Q → 0 < H → 1 ≤ Agent.resource_level a →
  let a' := consume_ticks n a in
  Agent.resource_level a' = Z.max 0 (Agent.resource_level a - Z.of_nat n)
  ∧ (Agent.hp a'
     == inject_Z (Z.max 0 (H - STARVATION_DAMAGE_PER_TICK
                               * starving_ticks (Agent.resource_level a) n)))%Q.
Proof.
  intros Hhp HH HL a'. subst a'. unfold starving_ticks.
  change STARVATION_DAMAGE_PER_TICK with 2.
  set (L := Agent.resource_level a) in *.
  induction n as [|n [IHl IHh]].
  - unfold consume_ticks. change (Nat.iter 0 Agent.consume_resource a) with a.
    fold L. split; [lia|].
    rewrite Hhp. replace (Z.max 0 (H - 2 * Z.max 0 (Z.of_nat 0 - L + 1))) with H by lia.
    reflexivity.
  - unfold consume_ticks in *. rewrite Nat.iter_succ.
    set (an := Nat.iter n Agent.consume_resource a) in *.
    set (hn := Z.max 0 (H - 2 * Z.max 0 (Z.of_nat n - L + 1))) in *.
    destruct (consume_resource_step an (inject_Z hn) IHh) as [Hl Hh].
    assert (Hal : Qlt_bool 0 (inject_Z hn) = (0 <? hn)).
    { unfold Qlt_bool. apply eq_true_iff_eq.
      rewrite negb_true_iff, Z.ltb_lt. rewrite <- not_true_iff_false.
      rewrite Qle_bool_iff. change 0%Q with (inject_Z 0).
      rewrite <- Zle_Qle. lia. }
    rewrite Hal in Hl, Hh. rewrite Hl, Hh, IHl.
    destruct (0 <? hn) eqn:E; [apply Z.ltb_lt in E|apply Z.ltb_ge in E].
    + split; [lia|]. cbn [andb].
      destruct (Z.max 0 (L - Z.of_nat n) <=? 1) eqn:E2;
        [apply Z.leb_le in E2|apply Z.leb_gt in E2].
      * assert (Hsub : (inject_Z hn - 2 == inject_Z (hn - 2))%Q).
        { unfold Qminus, Z.sub. change 2%Q with (inject_Z 2).
          rewrite <- inject_Z_opp, <- inject_Z_plus. reflexivity. }
        rewrite Hsub. change 0%Q with (inject_Z 0).
        assert (Hm : ∀ x y, (Qmax (inject_Z x) (inject_Z y) == inject_Z (Z.max x y))%Q).
        { intros x y. destruct (Z.max_spec x y) as [[? ->]|[? ->]].
          - apply Q.max_r. rewrite <- Zle_Qle. lia.
          - apply Q.max_l. rewrite <- Zle_Qle. lia. }
        rewrite Hm. apply inject_Z_injective. lia.
      * apply inject_Z_injective. lia.
    + split; [lia|]. cbn [andb]. apply inject_Z_injective. lia.
Qed.

Lemma consumption_schedule_witness :
  let a := Agent.init 0 0 0 10 5 12 0 3 true in
  Agent.resource_level (consume_ticks 120 a)
  = Z.max 0 (Agent.resource_level a - Z.of_nat 120)
  ∧ (Agent.hp (consume_ticks 120 a)
     == inject_Z (Z.max 0 (100 - STARVATION_DAMAGE_PER_TICK
                                 * starving_ticks (Agent.resource_level a) 120)))%Q.
Proof.
  apply (consumption_schedule (Agent.init 0 0 0 10 5 12 0 3 true) 100 120).
  - reflexivity.
  - lia.
  - vm_compute. discriminate.
Defined.

(** ** Distance *)

(** The Manhattan distance is a metric on positions. *)
Theorem manhattan_distance_metric (p q r : Pos) :
  manhattan_distance p q = manhattan_distance q p
  ∧ 0 ≤ manhattan_distance p q
  ∧ (manhattan_distance p q = 0 ↔ p = q)
  ∧ manhattan_distance p r ≤ manhattan_distance p q + manhattan_distance q r.
Proof.
  destruct p as [px py], q as [qx qy], r as [rx ry].
  unfold manhattan_distance. cbn [fst snd].
  repeat split; try lia.
  - intros Hd. f_equal; lia.
  - intros [= -> ->]. lia.
Qed.

(** ** Group statistics and membership *)

Lemma keeps_id ags g g' i :
  Group.id g' = Group.id g → Group.keeps ags g' i = Group.keeps ags g i.
Proof. intros Hid. unfold Group.keeps. by rewrite Hid. Qed.

Lemma update_stats_unfold ags g :
  let kept := filter (λ i, Group.keeps ags g i = true) (Group.member_ids g) in
  Group.update_stats ags g
  = Group.write_stats
      (omap (λ i, (λ a, (i, a)) <$> ags !! i) (sorted_ids kept))
      (Group.set_member_ids kept g).
Proof.
  intros kept. unfold Group.update_stats, Group.get_member_agents. fold kept.
  case_bool_decide; [|done].
  unfold Group.write_stats. by destruct (omap _ _).
Qed.

Lemma filter_filter_same (P : Z → Prop) `{∀ x, Decision (P x)} (X : gset Z) :
  filter P (filter P X) = filter P X.
Proof.
  apply filter_all. intros x Hx. by apply elem_of_filter in Hx as [? _].
Qed.

(** Recomputing a group's statistics twice in a row changes nothing the
    second time: the member set is already pruned and the aggregates are
    already those of the remaining members. *)
Theorem update_stats_idempotent (ags : Agents) (g : Group.t) :
  Group.update_stats ags (Group.update_stats ags g) = Group.update_stats ags g.
Proof.
  rewrite (update_stats_unfold ags (Group.update_stats ags g)).
  destruct (update_stats_fields ags g) as (Hm & _ & Hid).
  rewrite Hm.
  assert (Hk : filter (λ i, Group.keeps ags (Group.update_stats ags g) i = true)
                 (filter (λ i, Group.keeps ags g i = true) (Group.member_ids g))
               = filter (λ i, Group.keeps ags g i = true) (Group.member_ids g)).
  { apply set_eq. intros x. rewrite !elem_of_filter, (keeps_id ags g _ x Hid).
    tauto. }
  rewrite Hk. rewrite (update_stats_unfold ags g) at 2.
  rewrite (update_stats_unfold ags g).
  unfold Group.write_stats. by destruct (omap _ _).
Qed.

Lemma foldl_sum_shift (f : Agent.t → Z) (l : list (Z * Agent.t)) (z : Z) :
  foldl (λ acc m, acc + f m.2) z l = z + sum_Z f l.
Proof.
  unfold sum_Z. revert z. induction l as [|m l IH]; intros z; cbn [foldl].
  - lia.
  - rewrite IH, (IH (0 + f m.2)). lia.
Qed.

Lemma sum_Z_bounds (f : Agent.t → Z) (l : list (Z * Agent.t)) (lo hi : Z) :
  (∀ m, m ∈ l → lo ≤ f m.2 ≤ hi) →
  Z.of_nat (length l) * lo ≤ sum_Z f l ≤ Z.of_nat (length l) * hi.
Proof.
  induction l as [|m l IH]; intros Hb.
  - unfold sum_Z. cbn. lia.
  - unfold sum_Z. cbn [foldl]. rewrite foldl_sum_shift.
    pose proof (Hb m ltac:(apply elem_of_cons; by left)).
    assert (Hl : ∀ m', m' ∈ l → lo ≤ f m'.2 ≤ hi).
    { intros m' Hm'. apply Hb, elem_of_cons. by right. }
    specialize (IH Hl). cbn [length]. lia.
Qed.

Lemma py_round_bounds (q : Q) (lo hi : Z) :
  (inject_Z lo <= q)%Q → (q <= inject_Z hi)%Q →
  lo ≤ Group.py_round q ≤ hi.
Proof.
  intros Hlo Hhi. unfold Group.py_round.
  pose proof (Qfloor_le q) as Hf1. pose proof (Qlt_floor q) as Hf2.
  assert (Hlo' : lo ≤ Qfloor q).
  { rewrite <- (Qfloor_Z lo). by apply Qfloor_resp_le. }
  assert (Hhi' : Qfloor q ≤ hi).
  { rewrite <- (Qfloor_Z hi). by apply Qfloor_resp_le. }
  assert (Hstrict : (q < inject_Z hi)%Q → Qfloor q + 1 ≤ hi).
  { intros Hlt. assert (Qfloor q < hi); [|lia].
    rewrite Zlt_Qlt. lra. }
  assert (Hhalf : Qlt_bool (q - inject_Z (Qfloor q)) (1 # 2) = false →
                  (q < inject_Z hi)%Q).
  { unfold Qlt_bool. rewrite negb_false_iff, Qle_bool_iff. intros Hr.
    destruct (Qlt_le_dec q (inject_Z hi)) as [|Hge]; [done|].
    assert (Heq : (q == inject_Z hi)%Q) by lra.
    assert (Hfl : Qfloor q = hi).
    { rewrite <- (Qfloor_Z hi). by apply Qfloor_comp. }
    rewrite Hfl in Hr. lra. }
  destruct (Qlt_bool (q - inject_Z (Qfloor q)) (1 # 2)) eqn:E1; [lia|].
  specialize (Hstrict (Hhalf eq_refl)).
  destruct (Qlt_bool (1 # 2) (q - inject_Z (Qfloor q))); [lia|].
  destruct (Z.even (Qfloor q)); lia.
Qed.

(** The centroid of a group lies in the bounding box of its living
    members' positions (so a group with a single living member has its
    centroid on that member); without living members there is no
    centroid. *)
Theorem get_centroid_in_bounding_box (ags : Agents) (g : Group.t)
    (lo_x hi_x lo_y hi_y : Z) :
  (∀ i a, (i, a) ∈ (Group.get_member_agents ags g).2 →
          lo_x ≤ Agent.x a ≤ hi_x ∧ lo_y ≤ Agent.y a ≤ hi_y) →
  match (Group.get_centroid ags g).2 with
  | Some (cx, cy) => lo_x ≤ cx ≤ hi_x ∧ lo_y ≤ cy ≤ hi_y
  | None => (Group.get_member_agents ags g).2 = []
  end.
Proof.
  intros Hbox. unfold Group.get_centroid.
  destruct (Group.get_member_agents ags g) as [g1 ms]. cbn [snd] in *.
  destruct ms as [|m ms]; [done|]. cbn [snd].
  set (l := m :: ms) in *.
  assert (Hn : (0 < inject_Z (Z.of_nat (length l)))%Q).
  { change 0%Q with (inject_Z 0). rewrite <- Zlt_Qlt. cbn. lia. }
  assert (Hq : ∀ (f : Agent.t → Z) lo hi,
             (∀ m', m' ∈ l → lo ≤ f m'.2 ≤ hi) →
             (inject_Z lo <= inject_Z (sum_Z f l) / inject_Z (Z.of_nat (length l)))%Q
             ∧ (inject_Z (sum_Z f l) / inject_Z (Z.of_nat (length l))
                <= inject_Z hi)%Q).
  { intros f lo hi Hb. destruct (sum_Z_bounds f l lo hi Hb) as [H1 H2].
    rewrite Zle_Qle, inject_Z_mult in H1. rewrite Zle_Qle, inject_Z_mult in H2.
    split.
    - apply Qle_shift_div_l; [done|]. lra.
    - apply Qle_shift_div_r; [done|]. lra. }
  destruct (Hq Agent.x lo_x hi_x) as [Hx1 Hx2].
  { intros [i a] Hm. by apply (Hbox i a). }
  destruct (Hq Agent.y lo_y hi_y) as [Hy1 Hy2].
  { intros [i a] Hm. by apply (Hbox i a). }
  split; by apply py_round_bounds.
Qed.

Lemma get_centroid_in_bounding_box_witness :
  match (Group.get_centroid (agents Scenario.one_group)
           (default (Group.mk 0 ∅ 0 0 0 0 None None (0, 0, 0) ∅)
              (groups Scenario.one_group !! 0))).2 with
  | Some (cx, cy) => 5 ≤ cx ≤ 5 ∧ 5 ≤ cy ≤ 6
  | None =>
      (Group.get_member_agents (agents Scenario.one_group)
         (default (Group.mk 0 ∅ 0 0 0 0 None None (0, 0, 0) ∅)
            (groups Scenario.one_group !! 0))).2 = []
  end.
Proof.
  apply (get_centroid_in_bounding_box (agents Scenario.one_group)
           (default (Group.mk 0 ∅ 0 0 0 0 None None (0, 0, 0) ∅)
              (groups Scenario.one_group !! 0)) 5 5 5 6).
  intros i a Hm. apply get_member_agents_spec in Hm as (Hi & Ha & _).
  assert (Hi' : i = 1 ∨ i = 2).
  { assert (Hms : Group.member_ids
                    (default (Group.mk 0 ∅ 0 0 0 0 None None (0, 0, 0) ∅)
                       (groups Scenario.one_group !! 0)) = {[ 1; 2 ]})
      by (vm_compute; reflexivity).
    rewrite Hms in Hi. apply elem_of_union in Hi as [Hi|Hi];
      apply elem_of_singleton in Hi; auto. }
  destruct Hi' as [-> | ->]; vm_compute in Ha; injection Ha as <-;
    vm_compute; repeat split; discriminate.
Defined.

(** An agent that joins a group and is removed again is ungrouped and out
    of combat, with its hit points unchanged, but keeps what joining gave
    it: the merged knowledge map and the cleared requests.  No other agent
    is touched, and the group's members are its previous valid members. *)
Theorem add_then_remove_member (ags : Agents) (g : Group.t) (k : Z)
    (r : Agent.t) :
  ags !! k = Some r → Agent.is_alive r = true → Agent.group_id r = None →
  let '(ok, g1, ags1) := Group.add_member ags g k in
  let '(g2, ags2) := Group.remove_member ags1 g1 k in
  ok = true
  ∧ Group.member_ids g2
    = filter (λ i, Group.keeps ags g i = true) (Group.member_ids g) ∖ {[ k ]}
  ∧ (∀ i, i ≠ k → ags2 !! i = ags !! i)
  ∧ ∃ r', ags2 !! k = Some r'
      ∧ Agent.group_id r' = None ∧ Agent.in_combat r' = false
      ∧ Agent.hp r' = Agent.hp r
      ∧ Agent.known_resources r'
        = Agent.known_resources r ∪ Group.group_known_resources g
      ∧ Agent.pending_group_request_to r' = None
      ∧ Agent.pending_group_requests_from r' = ∅.
Proof.
  intros Hr Hal Hg.
  destruct (add_member_spec ags g k r Hr Hal Hg)
    as (g1 & -> & Hm1 & Hid1 & Hk1 & Hc1).
  set (merged := Agent.known_resources r ∪ Group.group_known_resources g) in *.
  set (j := joined (Group.id g) (Group.color g) merged r) in *.
  set (ags1 := <[k := j]> ags) in *.
  destruct (joined_fields (Group.id g) (Group.color g) merged r)
    as (Hhp & Hgid & Hkn & Hto & Hfrom & _).
  fold j in Hhp, Hgid, Hkn, Hto, Hfrom.
  assert (Hkeepk : Group.keeps ags1 g k = true).
  { unfold ags1, j. by apply keeps_joined. }
  assert (Hkin : k ∈ Group.member_ids g1).
  { rewrite Hm1. apply elem_of_filter. split; [done|].
    apply elem_of_union. left. by apply elem_of_singleton. }
  unfold Group.remove_member. rewrite bool_decide_eq_true_2 by done.
  assert (Hl : ags1 !! k = Some j) by (unfold ags1; by rewrite lookup_insert_eq).
  rewrite !Hl.
  set (r' := Agent.set_combat None None (Agent.set_group_id None j)).
  set (ags2 := <[k := r']> ags1).
  assert (Hother : ∀ i, i ≠ k → ags2 !! i = ags !! i).
  { intros i Hi. unfold ags2, ags1. by rewrite !lookup_insert_ne. }
  assert (Hkeeps : ∀ i, i ≠ k → Group.keeps ags2 g i = Group.keeps ags g i).
  { intros i Hi. unfold Group.keeps. by rewrite Hother. }
  assert (Hkeeps1 : ∀ i, i ≠ k → Group.keeps ags1 g i = Group.keeps ags g i).
  { intros i Hi. unfold Group.keeps, ags1. by rewrite lookup_insert_ne. }
  assert (Hset : Group.member_ids g1 ∖ {[ k ]}
                 = filter (λ i, Group.keeps ags g i = true) (Group.member_ids g)
                   ∖ {[ k ]}).
  { rewrite Hm1. apply set_eq. intros i.
    rewrite !elem_of_difference, !elem_of_filter, elem_of_union,
      !elem_of_singleton.
    split.
    - intros [[Hki [->|Hi]] Hne]; [done|]. rewrite <- Hkeeps1 by done. done.
    - intros [[Hki Hi] Hne]. rewrite Hkeeps1 by done. auto. }
  assert (Hagent : ∃ r'', ags2 !! k = Some r''
      ∧ Agent.group_id r'' = None ∧ Agent.in_combat r'' = false
      ∧ Agent.hp r'' = Agent.hp r
      ∧ Agent.known_resources r'' = merged
      ∧ Agent.pending_group_request_to r'' = None
      ∧ Agent.pending_group_requests_from r'' = ∅).
  { exists r'. unfold ags2. rewrite lookup_insert_eq. unfold r'.
    cbn [Agent.group_id Agent.in_combat Agent.hp Agent.known_resources
         Agent.pending_group_request_to Agent.pending_group_requests_from
         Agent.set_combat Agent.set_group_id Agent.in_combat_with_group
         Agent.in_combat_with_agent is_some orb].
    by rewrite Hhp, Hkn, Hto, Hfrom. }
  cbn [Group.member_ids Group.set_member_ids].
  case_bool_decide as Hempty.
  - split; [done|]. split; [by rewrite <- Hset|]. split; [exact Hother|exact Hagent].
  - split; [done|]. split; [|split; [exact Hother|exact Hagent]].
    destruct (update_stats_fields ags2
                (Group.set_member_ids (Group.member_ids g1 ∖ {[ k ]}) g1))
      as (-> & _ & _).
    cbn [Group.member_ids Group.set_member_ids]. rewrite Hset.
    apply filter_all. intros i Hi.
    apply elem_of_difference in Hi as [Hi Hne].
    apply elem_of_filter in Hi as [Hki _].
    rewrite elem_of_singleton in Hne.
    rewrite (keeps_id ags2 g); [by rewrite Hkeeps|done].
Qed.

Lemma add_then_remove_member_witness :
  let ags := agents Scenario.one_group in
  let g := default (Group.mk 0 ∅ 0 0 0 0 None None (0, 0, 0) ∅)
             (groups Scenario.one_group !! 0) in
  let r := Agent.init 0 0 0 10 5 12 0 3 true in
  let '(ok, g1, ags1) := Group.add_member ags g 0 in
  let '(g2, ags2) := Group.remove_member ags1 g1 0 in
  ok = true
  ∧ Group.member_ids g2
    = filter (λ i, Group.keeps ags g i = true) (Group.member_ids g) ∖ {[ 0 ]}
  ∧ (∀ i, i ≠ 0 → ags2 !! i = ags !! i)
  ∧ ∃ r', ags2 !! 0 = Some r'
      ∧ Agent.group_id r' = None ∧ Agent.in_combat r' = false
      ∧ Agent.hp r' = Agent.hp r
      ∧ Agent.known_resources r'
        = Agent.known_resources r ∪ Group.group_known_resources g
      ∧ Agent.pending_group_request_to r' = None
      ∧ Agent.pending_group_requests_from r' = ∅.
Proof.
  apply (add_then_remove_member (agents Scenario.one_group)
           (default (Group.mk 0 ∅ 0 0 0 0 None None (0, 0, 0) ∅)
              (groups Scenario.one_group !! 0)) 0
           (Agent.init 0 0 0 10 5 12 0 3 true));
    vm_compute; reflexivity.
Defined.

(** ** Deposits *)

Lemma find_marker_elem r cell :
  ObjResource r ∈ cell → ResourceManager.find_marker r cell = Some (ObjResource r).
Proof.
  unfold ResourceManager.find_marker.
  induction cell as [|o cell IH]; intros Hin.
  - by apply elem_of_nil in Hin.
  - cbn [List.find]. destruct o as [i|r'].
    + apply elem_of_cons in Hin as [?|Hin]; [done|]. by apply IH.
    + destruct (r' =? r)%nat eqn:E.
      * apply Nat.eqb_eq in E. by subst.
      * apply elem_of_cons in Hin as [Heq|Hin]; [|by apply IH].
        injection Heq as ->. by rewrite Nat.eqb_refl in E.
Qed.

(** On a deposit that is not empty and whose marker is on its cell,
    [collect_resource] does what [harvest_resource_at] does with the amount
    [RESOURCE_COLLECT_AMOUNT]. *)
Theorem collect_resource_is_harvest (w : World) (agent_id x y : Z) (r : nat)
    (info : ResInfo) :
  ResourceManager.resource_at w (x, y) = Some (r, info) →
  0 < quantity info →
  ObjResource r ∈ GridManager.get_objects_at (grid_manager w) x y →
  ResourceManager.collect_resource w agent_id x y
  = ResourceManager.harvest_resource_at w agent_id (x, y)
      RESOURCE_COLLECT_AMOUNT.
Proof.
  intros Hres Hq Hm.
  unfold ResourceManager.collect_resource, ResourceManager.harvest_resource_at.
  rewrite Hres. rewrite (Z.min_comm (quantity info)).
  assert (Hpos : (Z.min RESOURCE_COLLECT_AMOUNT (quantity info) <=? 0) = false).
  { apply Z.leb_gt. unfold RESOURCE_COLLECT_AMOUNT. lia. }
  rewrite Hpos. cbn [fst snd grid_manager upd_agent set_agents].
  rewrite (find_marker_elem r _ Hm). done.
Qed.

Lemma collect_resource_is_harvest_witness :
  ResourceManager.collect_resource Scenario.deposit_in_sight 0 2 2
  = ResourceManager.harvest_resource_at Scenario.deposit_in_sight 0 (2, 2)
      RESOURCE_COLLECT_AMOUNT.
Proof.
  apply (collect_resource_is_harvest Scenario.deposit_in_sight 0 2 2 0%nat
           (mkRes "food" 3)).
  - vm_compute. reflexivity.
  - vm_compute. reflexivity.
  - vm_compute. apply list_elem_of_singleton. reflexivity.
Defined.

(** A spawn that finds an empty, valid cell registers a new food deposit
    of the drawn quantity there, with its marker alone on the cell, and
    leaves every other deposit, cell and agent as it was. *)
Theorem spawn_adds_one_deposit (w : World) (draws : nat → Pos)
    (quantity : Z) (pos : Pos) :
  refs_fresh w →
  GridManager.get_random_empty_cell (grid_manager w) draws = Some pos →
  GridManager.is_valid_coordinate (grid_manager w) pos.1 pos.2 = true →
  let w' := ResourceManager.spawn_resources_1 w draws quantity in
  ResourceManager.resource_at w' pos
  = Some (next_ref w, mkRes "food" quantity)
  ∧ GridManager.get_objects_at (grid_manager w') pos.1 pos.2
    = [ObjResource (next_ref w)]
  ∧ (∀ pos', pos' ≠ pos →
       ResourceManager.resource_at w' pos' = ResourceManager.resource_at w pos'
       ∧ GridManager.get_objects_at (grid_manager w') pos'.1 pos'.2
         = GridManager.get_objects_at (grid_manager w) pos'.1 pos'.2)
  ∧ agents w' = agents w
  ∧ refs_fresh w'.
Proof.
  intros Hfresh Hcell Hv w'. subst w'.
  unfold ResourceManager.spawn_resources_1. rewrite Hcell.
  assert (Hempty : GridManager.get_objects_at (grid_manager w) pos.1 pos.2 = []).
  { unfold GridManager.get_random_empty_cell in Hcell.
    apply find_some in Hcell as [_ Hc]. by apply bool_decide_eq_true in Hc. }
  unfold ResourceManager.spawn_resource_at, GridManager.place_object.
  rewrite Hv, Hempty. destruct pos as [px py]. cbn [fst snd app] in *.
  unfold ResourceManager.resource_at.
  cbn [resources heap grid_manager agents next_ref].
  rewrite get_objects_at_insert, decide_True by done.
  rewrite !lookup_insert_eq.
  split; [done|]. split; [done|]. split; [|split; [done|]].
  - intros pos' Hne. split.
    + rewrite lookup_insert_ne by done.
      destruct (resources w !! pos') as [r'|] eqn:Hr'; [|reflexivity].
      rewrite lookup_insert_ne; [reflexivity|].
      specialize (Hfresh _ _ Hr'). lia.
    + destruct pos' as [px' py']. cbn [fst snd].
      rewrite get_objects_at_insert, decide_False by done. reflexivity.
  - intros pos' r' Hl. cbn [resources next_ref] in *.
    destruct (decide (pos' = (px, py))) as [->|Hne].
    + rewrite lookup_insert_eq in Hl. injection Hl as <-. lia.
    + rewrite lookup_insert_ne in Hl by done.
      specialize (Hfresh _ _ Hl). lia.
Qed.

Lemma spawn_adds_one_deposit_witness :
  let w' := ResourceManager.spawn_resources_1
              Scenario.three_agents (λ n, (Z.of_nat n, 5)) 30 in
  ResourceManager.resource_at w' (0, 5)
  = Some (next_ref Scenario.three_agents, mkRes "food" 30)
  ∧ GridManager.get_objects_at (grid_manager w') (0, 5).1 (0, 5).2
    = [ObjResource (next_ref Scenario.three_agents)]
  ∧ (∀ pos', pos' ≠ (0, 5) →
       ResourceManager.resource_at w' pos'
       = ResourceManager.resource_at Scenario.three_agents pos'
       ∧ GridManager.get_objects_at (grid_manager w') pos'.1 pos'.2
         = GridManager.get_objects_at (grid_manager Scenario.three_agents)
             pos'.1 pos'.2)
  ∧ agents w' = agents Scenario.three_agents
  ∧ refs_fresh w'.
Proof.
  apply (spawn_adds_one_deposit Scenario.three_agents
           (λ n, (Z.of_nat n, 5)) 30 (0, 5)).
  - intros pos r Hr. vm_compute in Hr. discriminate.
  - vm_compute. reflexivity.
  - vm_compute. reflexivity.
Defined.

(** ** Group management *)

Lemma union_same (m : Knowledge) : m ∪ m = m.
Proof. apply map_eq. intros i. rewrite lookup_union. by destruct (m !! i). Qed.

(** An agent cannot form a group with itself: with the same living,
    ungrouped agent on both sides [create_group_with_agents] returns
    nothing, registers no group and uses up no group id; the agent stays
    ungrouped, but its pending requests are cleared as if it had joined. *)
Theorem create_group_with_itself (w : World) (k : Z) (a : Agent.t) :
  agents w !! k = Some a →
  Agent.is_alive a = true → Agent.group_id a = None →
  let r := GroupManager.create_group_with_agents w k k in
  r.1 = None
  ∧ groups r.2 = groups w ∧ next_group_id r.2 = next_group_id w
  ∧ agents r.2 = <[k := Agent.clear_pending_group_requests a]> (agents w).
Proof.
  intros Ha Hal Hg r. subst r.
  unfold GroupManager.create_group_with_agents.
  rewrite Ha, Hal, Hg. cbn [is_some negb andb].
  set (gid := next_group_id w).
  destruct (group_init_spec gid k (agents w) (Agent.color a) a Ha Hal)
    as (g0 & -> & Hm0 & Hid0 & Hk0 & Hc0).
  rewrite lookup_insert_eq.
  destruct (joined_fields gid (Agent.color a) (Agent.known_resources a) a)
    as (Hhp & Hgid & Hkn & _).
  rewrite Hkn.
  cbn [Group.group_known_resources Group.set_group_known_resources].
  rewrite Hk0, union_same.
  unfold Group.add_member.
  rewrite lookup_alter_eq, lookup_alter_eq, lookup_insert_eq.
  cbn [fmap option_fmap option_map Agent.is_alive Agent.group_id Agent.hp
       Agent.set_known_resources].
  rewrite Hgid. cbn [is_some negb]. rewrite andb_false_r.
  cbn [fst snd groups next_group_id agents set_agents].
  split; [done|]. split; [done|]. split; [done|].
  apply map_eq. intros i. destruct (decide (i = k)) as [->|Hne].
  - rewrite !lookup_alter_eq, !lookup_insert_eq.
    cbn [fmap option_fmap option_map]. f_equal.
    unfold joined, Agent.clear_pending_group_requests.
    destruct a. cbn in Hg. subst. cbn.
    destruct pending_group_request_to; cbn; case_bool_decide; reflexivity.
  - rewrite !lookup_alter_ne, !lookup_insert_ne by done. done.
Qed.

Lemma create_group_with_itself_witness :
  ∃ a, agents Scenario.requested !! 1 = Some a
    ∧ let r := GroupManager.create_group_with_agents Scenario.requested 1 1 in
      r.1 = None
      ∧ groups r.2 = groups Scenario.requested
      ∧ next_group_id r.2 = next_group_id Scenario.requested
      ∧ agents r.2
        = <[1 := Agent.clear_pending_group_requests a]>
            (agents Scenario.requested).
Proof.
  eexists. split; [vm_compute; reflexivity|].
  apply (create_group_with_itself Scenario.requested 1 _);
    vm_compute; reflexivity.
Defined.

Lemma upd_agent_groups i f w : groups (upd_agent i f w) = groups w.
Proof. done. Qed.

Lemma foldl_clear_agent_combat_groups l w :
  groups (foldl CombatManager.clear_agent_combat w l) = groups w.
Proof.
  revert w. induction l as [|i l IH]; intros w; cbn [foldl]; [done|].
  by rewrite IH.
Qed.

Lemma upd_group_members i f w k :
  (∀ g, Group.member_ids (f g) = Group.member_ids g) →
  group_members (upd_group i f w) k = group_members w k.
Proof.
  intros Hf. unfold group_members, upd_group. cbn [groups set_groups].
  destruct (decide (k = i)) as [->|Hne].
  - rewrite lookup_alter_eq. destruct (groups w !! i); cbn; [|done].
    by rewrite Hf.
  - by rewrite lookup_alter_ne.
Qed.

Lemma end_combat_for_participant_members w p k :
  group_members (CombatManager.end_combat_for_participant w p) k
  = group_members w k.
Proof.
  unfold CombatManager.end_combat_for_participant.
  destruct p as [[i a|i g]|]; [done| |done].
  unfold group_members at 1. rewrite foldl_clear_agent_combat_groups.
  by apply upd_group_members.
Qed.

Lemma end_combat_members w p1 p2 k :
  group_members (CombatManager.end_combat w p1 p2) k = group_members w k.
Proof.
  unfold CombatManager.end_combat.
  by rewrite !end_combat_for_participant_members.
Qed.

Lemma disband_group_members w gid k :
  group_members (GroupManager.disband_group w gid) k
  = if decide (k = gid) then None else group_members w k.
Proof.
  unfold GroupManager.disband_group.
  destruct (groups w !! gid) as [g|] eqn:Hg.
  - assert (Hdel : group_members (set_groups (delete gid (groups w)) w) k
                   = if decide (k = gid) then None else group_members w k).
    { unfold group_members. cbn [groups set_groups].
      destruct (decide (k = gid)) as [->|Hne].
      - by rewrite lookup_delete_eq.
      - by rewrite lookup_delete_ne. }
    destruct (py_or _ _); [|done].
    destruct (CombatManager.get_combat_participants _ _ _) as [p1 p2].
    by rewrite end_combat_members.
  - destruct (decide (k = gid)) as [->|Hne]; [|done].
    unfold group_members. by rewrite Hg.
Qed.

Lemma foldl_disband_members l w k :
  group_members (foldl GroupManager.disband_group w l) k
  = if decide (k ∈ l) then None else group_members w k.
Proof.
  revert w. induction l as [|gid l IH]; intros w; cbn [foldl].
  - rewrite decide_False; [done|]. apply not_elem_of_nil.
  - rewrite IH, disband_group_members.
    destruct (decide (k ∈ l)) as [Hin|Hnin].
    + rewrite decide_True; [done|]. apply elem_of_cons. by right.
    + destruct (decide (k = gid)) as [->|Hne].
      * rewrite decide_True; [done|]. apply elem_of_cons. by left.
      * rewrite decide_False; [done|].
        intros Hc. apply elem_of_cons in Hc as [?|?]; done.
Qed.

(** After [manage_groups] no group without member ids is left, and the
    groups that had member ids are all still there with the same ids. *)
Theorem manage_groups_removes_empty_groups (w : World) (k : Z) :
  group_members (GroupManager.manage_groups w) k
  = match group_members w k with
    | Some ids => if decide (ids = ∅) then None else Some ids
    | None => None
    end.
Proof.
  unfold GroupManager.manage_groups. rewrite foldl_disband_members.
  unfold group_members.
  destruct (groups w !! k) as [g|] eqn:Hg; cbn [fmap option_fmap option_map].
  - destruct (decide (Group.member_ids g = ∅)) as [He|Hne].
    + rewrite decide_True; [done|].
      apply list_elem_of_In, filter_In. split.
      * apply list_elem_of_In, sorted_ids_elem, elem_of_dom. by eexists.
      * rewrite Hg. by apply bool_decide_eq_true.
    + rewrite decide_False; [done|].
      intros Hin. apply list_elem_of_In, filter_In in Hin as [_ Hin].
      rewrite Hg in Hin. by apply bool_decide_eq_true in Hin.
  - by destruct (decide _).
Qed.

(** [add_agent_to_group] succeeds exactly for a living, ungrouped agent.
    The agent then carries the group's id and is a member, and the group's
    map and the agent's map are both the union of the two maps, the
    agent's entries winning; a refused call changes nothing. *)
Theorem add_agent_to_group_spec (w : World) (k gid : Z) (g : Group.t)
    (a : Agent.t) :
  groups w !! gid = Some g → agents w !! k = Some a →
  let r := GroupManager.add_agent_to_group w k gid in
  r.1 = Agent.is_alive a && negb (is_some (Agent.group_id a))
  ∧ if r.1
    then ∃ g' a',
        groups r.2 !! gid = Some g' ∧ agents r.2 !! k = Some a'
        ∧ k ∈ Group.member_ids g'
        ∧ Agent.group_id a' = Some (Group.id g)
        ∧ Group.group_known_resources g'
          = Agent.known_resources a ∪ Group.group_known_resources g
        ∧ Agent.known_resources a' = Group.group_known_resources g'
    else agents r.2 = agents w ∧ groups r.2 = groups w.
Proof.
  intros Hg Ha r. subst r. unfold GroupManager.add_agent_to_group,
    GroupManager.get_group.
  rewrite Hg, Ha.
  destruct (Agent.group_id a) as [g0|] eqn:Hgrp; cbn [is_some negb].
  - rewrite andb_false_r. done.
  - rewrite andb_true_r.
    destruct (Agent.is_alive a) eqn:Hal.
    + destruct (add_member_spec (agents w) g k a Ha Hal Hgrp)
        as (g' & -> & Hm & Hid & Hk & Hc).
      cbn [fst snd groups agents set_agents set_groups]. split; [done|].
      destruct (joined_fields (Group.id g) (Group.color g)
                  (Agent.known_resources a ∪ Group.group_known_resources g) a)
        as (_ & Hgid & Hkn & _).
      eexists g', _. rewrite !lookup_insert_eq.
      split; [done|]. split; [done|]. split.
      { rewrite Hm. apply elem_of_filter. split.
        - by apply keeps_joined.
        - apply elem_of_union. left. by apply elem_of_singleton. }
      by rewrite Hgid, Hkn, Hk.
    + unfold Group.add_member. rewrite Ha, Hal. cbn [andb fst snd].
      split; [done|]. cbn [groups agents set_agents set_groups].
      split; [done|]. by apply insert_id.
Qed.

Lemma add_agent_to_group_spec_witness :
  ∃ g a, groups Scenario.one_group !! 0 = Some g
    ∧ agents Scenario.one_group !! 0 = Some a
    ∧ let r := GroupManager.add_agent_to_group Scenario.one_group 0 0 in
      r.1 = Agent.is_alive a && negb (is_some (Agent.group_id a))
      ∧ if r.1
        then ∃ g' a',
            groups r.2 !! 0 = Some g' ∧ agents r.2 !! 0 = Some a'
            ∧ 0 ∈ Group.member_ids g'
            ∧ Agent.group_id a' = Some (Group.id g)
            ∧ Group.group_known_resources g'
              = Agent.known_resources a ∪ Group.group_known_resources g
            ∧ Agent.known_resources a' = Group.group_known_resources g'
        else agents r.2 = agents Scenario.one_group
             ∧ groups r.2 = groups Scenario.one_group.
Proof.
  eexists _, _. split; [vm_compute; reflexivity|].
  split; [vm_compute; reflexivity|].
  apply (add_agent_to_group_spec Scenario.one_group 0 0 _ _);
    vm_compute; reflexivity.
Defined.

(** ** Creating and removing agents *)

(** [create_agent] never reuses an id: when every id in use is below the
    counter, the new agent gets the counter's value, which was free, every
    agent already present is left as it was, and the counter stays above
    all ids.  The new agent is alive, ungrouped, out of combat and stands
    where it was placed.  Without a free cell or without configurations
    nothing changes. *)
Theorem create_agent_fresh (w : World) (pos : option Pos) (has_configs : bool)
    (strength defense fighting ticks rate : Z) :
  ids_below w →
  let r := AgentManager.create_agent w pos has_configs strength defense
             fighting ticks rate in
  ids_below r.2
  ∧ (∀ k a, agents w !! k = Some a → agents r.2 !! k = Some a)
  ∧ match r.1 with
    | Some i =>
        i = next_agent_id w ∧ agents w !! i = None
        ∧ ∃ a, agents r.2 !! i = Some a ∧ Agent.id a = i
             ∧ Agent.is_alive a = true ∧ Agent.group_id a = None
             ∧ Agent.in_combat a = false
             ∧ pos = Some (Agent.x a, Agent.y a)
    | None => r.2 = w ∧ (pos = None ∨ has_configs = false)
    end.
Proof.
  intros Hb r. subst r. unfold AgentManager.create_agent.
  destruct pos as [[px py]|];
    [|cbn [fst snd]; split; [done|]; split; [done|]; split; [done|]; by left].
  destruct has_configs;
    [|cbn [fst snd]; split; [done|]; split; [done|]; split; [done|]; by right].
  destruct (GridManager.place_object _ _ _ _) as [placed gm].
  cbn [fst snd agents next_agent_id].
  assert (Hfree : agents w !! next_agent_id w = None).
  { destruct (agents w !! next_agent_id w) eqn:E; [|done].
    specialize (Hb (next_agent_id w) ltac:(by eexists)). lia. }
  split; [|split].
  - unfold ids_below. cbn [agents next_agent_id]. intros k [a Hk].
    destruct (decide (k = next_agent_id w)) as [->|Hne].
    + lia.
    + rewrite lookup_insert_ne in Hk by done.
      specialize (Hb k ltac:(by eexists)). lia.
  - intros k a Hk. rewrite lookup_insert_ne; [done|]. intros <-.
    by rewrite Hfree in Hk.
  - split; [done|]. split; [done|]. eexists. rewrite lookup_insert_eq.
    split; [done|]. by repeat split.
Qed.

Lemma create_agent_fresh_witness :
  let r := AgentManager.create_agent Scenario.three_agents (Some (7, 7)) true
             9 3 20 1 5 in
  ids_below r.2
  ∧ (∀ k a, agents Scenario.three_agents !! k = Some a →
            agents r.2 !! k = Some a)
  ∧ match r.1 with
    | Some i =>
        i = next_agent_id Scenario.three_agents
        ∧ agents Scenario.three_agents !! i = None
        ∧ ∃ a, agents r.2 !! i = Some a ∧ Agent.id a = i
             ∧ Agent.is_alive a = true ∧ Agent.group_id a = None
             ∧ Agent.in_combat a = false
             ∧ Some (7, 7) = Some (Agent.x a, Agent.y a)
    | None => r.2 = Scenario.three_agents
              ∧ (Some (7, 7) = (None : option Pos) ∨ true = false)
    end.
Proof.
  apply (create_agent_fresh Scenario.three_agents (Some (7, 7)) true
           9 3 20 1 5).
  intros k [a Hk].
  assert (Hd : k ∈ dom (agents Scenario.three_agents))
    by (apply elem_of_dom; by eexists).
  assert (Hdom : dom (agents Scenario.three_agents) = {[ 0; 1; 2 ]})
    by (vm_compute; reflexivity).
  rewrite Hdom in Hd.
  change (next_agent_id Scenario.three_agents) with 3.
  repeat (apply elem_of_union in Hd as [Hd|Hd]);
    apply elem_of_singleton in Hd; lia.
Defined.

Lemma upd_agent_hp_of i f w k :
  (∀ a, Agent.hp (f a) = Agent.hp a) →
  hp_of (upd_agent i f w) k = hp_of w k.
Proof.
  intros Hf. unfold hp_of, upd_agent. cbn [agents set_agents].
  destruct (decide (k = i)) as [->|Hne].
  - rewrite lookup_alter_eq. destruct (agents w !! i); cbn; [|done].
    by rewrite Hf.
  - by rewrite lookup_alter_ne.
Qed.

Lemma foldl_clear_agent_combat_hp l w k :
  hp_of (foldl CombatManager.clear_agent_combat w l) k = hp_of w k.
Proof.
  revert w. induction l as [|i l IH]; intros w; cbn [foldl]; [done|].
  rewrite IH. by apply upd_agent_hp_of.
Qed.

Lemma end_combat_for_participant_hp w p k :
  hp_of (CombatManager.end_combat_for_participant w p) k = hp_of w k.
Proof.
  unfold CombatManager.end_combat_for_participant.
  destruct p as [[i a|i g]|]; [by apply upd_agent_hp_of| |done].
  by rewrite foldl_clear_agent_combat_hp.
Qed.

Lemma end_combat_hp w p1 p2 k :
  hp_of (CombatManager.end_combat w p1 p2) k = hp_of w k.
Proof.
  unfold CombatManager.end_combat. by rewrite !end_combat_for_participant_hp.
Qed.

Lemma disband_group_hp w gid k :
  hp_of (GroupManager.disband_group w gid) k = hp_of w k.
Proof.
  unfold GroupManager.disband_group.
  destruct (groups w !! gid) as [g|]; [|done].
  destruct (py_or _ _); [|done].
  destruct (CombatManager.get_combat_participants _ _ _) as [p1 p2].
  by rewrite end_combat_hp.
Qed.

Lemma remove_member_hp ags g i k :
  Agent.hp <$> (Group.remove_member ags g i).2 !! k = Agent.hp <$> ags !! k.
Proof.
  unfold Group.remove_member. case_bool_decide; [|done]. cbn [snd].
  destruct (ags !! i) as [a|] eqn:Ha; [|done].
  destruct (decide (k = i)) as [->|Hne].
  - by rewrite lookup_insert_eq, Ha.
  - by rewrite lookup_insert_ne.
Qed.

Lemma remove_agent_from_group_hp w i gid k :
  hp_of (GroupManager.remove_agent_from_group w i gid) k = hp_of w k.
Proof.
  unfold GroupManager.remove_agent_from_group.
  destruct (groups w !! gid) as [g|]; [|done].
  pose proof (remove_member_hp (agents w) g i k) as Hrm.
  destruct (Group.remove_member (agents w) g i) as [g1 ags1]. cbn [snd] in Hrm.
  case_bool_decide; [rewrite disband_group_hp|]; exact Hrm.
Qed.

Lemma clear_pending_requests_involving_hp w i k :
  hp_of (AgentManager.clear_pending_requests_involving w i) k = hp_of w k.
Proof.
  unfold hp_of, AgentManager.clear_pending_requests_involving.
  cbn [agents set_agents]. rewrite lookup_fmap.
  destruct (agents w !! k) as [a|]; [|done]. cbn. f_equal.
  case_bool_decide; by destruct (opt_is _ _).
Qed.

Lemma remove_agent_hp w i k :
  hp_of (AgentManager.remove_agent w i).2 k
  = if decide (k = i) then None else hp_of w k.
Proof.
  unfold AgentManager.remove_agent.
  destruct (agents w !! i) as [a|] eqn:Ha.
  - destruct (GridManager.remove_object _ _ _ _ _) as [removed gm].
    cbn [snd]. rewrite clear_pending_requests_involving_hp.
    assert (Hdel : hp_of (set_grid_manager gm
                            (set_agents (delete i (agents w)) w)) k
                   = if decide (k = i) then None else hp_of w k).
    { unfold hp_of. cbn [agents set_agents set_grid_manager].
      destruct (decide (k = i)) as [->|Hne].
      - by rewrite lookup_delete_eq.
      - by rewrite lookup_delete_ne. }
    destruct (Agent.group_id a) as [gid|]; [|done].
    destruct (gid =? 0); [done|].
    by rewrite remove_agent_from_group_hp.
  - cbn [snd]. destruct (decide (k = i)) as [->|]; [|done].
    unfold hp_of. by rewrite Ha.
Qed.

Lemma foldl_remove_agent_hp l w k :
  hp_of (foldl (λ w' i, (AgentManager.remove_agent w' i).2) w l) k
  = if decide (k ∈ l) then None else hp_of w k.
Proof.
  revert w. induction l as [|i l IH]; intros w; cbn [foldl].
  - rewrite decide_False; [done|]. apply not_elem_of_nil.
  - rewrite IH, remove_agent_hp.
    destruct (decide (k ∈ l)) as [Hin|Hnin].
    + rewrite decide_True; [done|]. apply elem_of_cons. by right.
    + destruct (decide (k = i)) as [->|Hne].
      * rewrite decide_True; [done|]. apply elem_of_cons. by left.
      * rewrite decide_False; [done|].
        intros Hc. apply elem_of_cons in Hc as [?|?]; done.
Qed.

(** [handle_deaths] removes exactly the agents that are not alive: an
    agent with positive hit points stays in the store with the same hit
    points, every other id is free afterwards. *)
Theorem handle_deaths_removes_exactly_the_dead (w : World) (k : Z) :
  hp_of (AgentManager.handle_deaths w) k
  = match hp_of w k with
    | Some h => if Qlt_bool 0 h then Some h else None
    | None => None
    end.
Proof.
  unfold AgentManager.handle_deaths. rewrite foldl_remove_agent_hp.
  unfold hp_of.
  destruct (agents w !! k) as [a|] eqn:Ha; cbn [fmap option_fmap option_map].
  - fold (Agent.is_alive a). destruct (Agent.is_alive a) eqn:Hal.
    + rewrite decide_False; [done|].
      intros Hin. apply list_elem_of_In, filter_In in Hin as [_ Hin].
      by rewrite Ha, Hal in Hin.
    + rewrite decide_True; [done|].
      apply list_elem_of_In, filter_In. split.
      * apply list_elem_of_In, sorted_ids_elem, elem_of_dom. by eexists.
      * by rewrite Ha, Hal.
  - by destruct (decide _).
Qed.

(** ** Pending group requests *)

Lemma shrinks_refl a : shrinks a a.
Proof. unfold shrinks. repeat split; auto. Qed.

Lemma shrinks_trans a b c : shrinks a b → shrinks b c → shrinks a c.
Proof.
  unfold shrinks.
  intros (Hx1 & Hy1 & Hh1 & Hg1 & Ht1 & Hf1) (Hx2 & Hy2 & Hh2 & Hg2 & Ht2 & Hf2).
  repeat split; try congruence.
  - destruct Ht2 as [->| ->]; auto.
  - by etrans.
Qed.

Lemma requests_shrink_refl w : requests_shrink w w.
Proof. intros k. destruct (agents w !! k); [apply shrinks_refl|done]. Qed.

Lemma requests_shrink_trans w1 w2 w3 :
  requests_shrink w1 w2 → requests_shrink w2 w3 → requests_shrink w1 w3.
Proof.
  intros H12 H23 k. specialize (H12 k). specialize (H23 k).
  destruct (agents w1 !! k), (agents w2 !! k), (agents w3 !! k); try done.
  by eapply shrinks_trans.
Qed.

Lemma upd_agent_shrink i f w :
  (∀ a, shrinks a (f a)) → requests_shrink w (upd_agent i f w).
Proof.
  intros Hf k. unfold upd_agent. cbn [agents set_agents].
  destruct (decide (k = i)) as [->|Hne].
  - rewrite lookup_alter_eq. destruct (agents w !! i); cbn; [apply Hf|done].
  - rewrite lookup_alter_ne by done.
    destruct (agents w !! k); [apply shrinks_refl|done].
Qed.

Lemma shrinks_clear_to a :
  shrinks a (Agent.set_pending_group_request_to None a).
Proof. unfold shrinks. cbn. repeat split; auto. Qed.

Lemma shrinks_remove_from a j :
  shrinks a (Agent.set_pending_group_requests_from
               (Agent.pending_group_requests_from a ∖ {[ j ]}) a).
Proof.
  unfold shrinks. cbn. repeat split; auto.
  by apply subseteq_difference_l.
Qed.

Lemma check_outgoing_shrink w k :
  requests_shrink w (AgentManager.check_outgoing w k).
Proof.
  unfold AgentManager.check_outgoing.
  destruct (agents w !! k) as [a|]; [|apply requests_shrink_refl].
  destruct (Agent.pending_group_request_to a) as [t|];
    [|apply requests_shrink_refl].
  destruct (AgentManager.request_expired _ _); [|apply requests_shrink_refl].
  assert (H1 : requests_shrink w
                 (upd_agent k (Agent.set_pending_group_request_to None) w))
    by (apply upd_agent_shrink, shrinks_clear_to).
  destruct (AgentManager.get_agent _ t) as [ta|]; [|done].
  case_bool_decide; [|done].
  eapply requests_shrink_trans; [exact H1|].
  apply upd_agent_shrink. intros b. apply shrinks_remove_from.
Qed.

Lemma check_incoming_shrink k w r :
  requests_shrink w (AgentManager.check_incoming k w r).
Proof.
  unfold AgentManager.check_incoming.
  destruct (agents w !! k) as [a|]; [|apply requests_shrink_refl].
  destruct (AgentManager.request_expired _ _); [|apply requests_shrink_refl].
  match goal with |- context [upd_agent k ?f w] =>
    assert (H1 : requests_shrink w (upd_agent k f w))
      by (apply upd_agent_shrink; intros b; apply shrinks_remove_from)
  end.
  destruct (AgentManager.get_agent _ r) as [ra|]; [|done].
  destruct (opt_is _ _); [|done].
  eapply requests_shrink_trans; [exact H1|].
  apply upd_agent_shrink, shrinks_clear_to.
Qed.

Lemma foldl_check_incoming_shrink k l w :
  requests_shrink w (foldl (AgentManager.check_incoming k) w l).
Proof.
  revert w. induction l as [|r l IH]; intros w; cbn [foldl].
  - apply requests_shrink_refl.
  - eapply requests_shrink_trans; [apply check_incoming_shrink|apply IH].
Qed.

Lemma update_agent_requests_shrink w k :
  requests_shrink w (AgentManager.update_agent_requests w k).
Proof.
  unfold AgentManager.update_agent_requests.
  destruct (agents w !! k) as [a|]; [|apply requests_shrink_refl].
  destruct (negb _); [apply requests_shrink_refl|].
  eapply requests_shrink_trans;
    [apply check_outgoing_shrink|apply foldl_check_incoming_shrink].
Qed.

Lemma foldl_update_agent_requests_shrink l w :
  requests_shrink w (foldl AgentManager.update_agent_requests w l).
Proof.
  revert w. induction l as [|k l IH]; intros w; cbn [foldl].
  - apply requests_shrink_refl.
  - eapply requests_shrink_trans; [apply update_agent_requests_shrink|apply IH].
Qed.

Lemma request_expired_shrink w w' k j a a' :
  requests_shrink w w' →
  agents w !! k = Some a → agents w' !! k = Some a' →
  AgentManager.request_expired a' (agents w' !! j)
  = AgentManager.request_expired a (agents w !! j).
Proof.
  intros Hs Ha Ha'. pose proof (Hs k) as Hk. rewrite Ha, Ha' in Hk.
  destruct Hk as (Hx & Hy & _). specialize (Hs j).
  unfold AgentManager.request_expired, Agent.is_alive.
  destruct (agents w !! j) as [o|], (agents w' !! j) as [o'|]; try done.
  destruct Hs as (Hox & Hoy & Hoh & Hog & _).
  by rewrite Hx, Hy, Hox, Hoy, Hoh, Hog.
Qed.

Lemma requests_checked_mono w w' k :
  requests_shrink w w' → requests_checked w k → requests_checked w' k.
Proof.
  intros Hs Hc a' Ha' Hal'. pose proof (Hs k) as Hk. rewrite Ha' in Hk.
  destruct (agents w !! k) as [a|] eqn:Ha; [|done].
  destruct Hk as (_ & _ & Hh & _ & Hto & Hfrom).
  assert (Hal : Agent.is_alive a = true).
  { unfold Agent.is_alive in *. by rewrite <- Hh. }
  destruct (Hc a Ha Hal) as [Hc1 Hc2]. split.
  - intros t Ht. rewrite (request_expired_shrink w w' k t a a') by done.
    apply Hc1. destruct Hto as [<-|Hn]; [done|congruence].
  - intros r Hr. rewrite (request_expired_shrink w w' k r a a') by done.
    apply Hc2. by apply Hfrom.
Qed.

Lemma check_outgoing_checked w k a1 t :
  agents (AgentManager.check_outgoing w k) !! k = Some a1 →
  Agent.pending_group_request_to a1 = Some t →
  AgentManager.request_expired a1
    (agents (AgentManager.check_outgoing w k) !! t) = false.
Proof.
  unfold AgentManager.check_outgoing.
  destruct (agents w !! k) as [a|] eqn:Ha; [|by rewrite Ha].
  destruct (Agent.pending_group_request_to a) as [t0|] eqn:Hto.
  - unfold AgentManager.get_agent.
    destruct (AgentManager.request_expired a (agents w !! t0)) eqn:He.
    + intros Hl Ht. exfalso.
      assert (Hk1 : ∀ b, agents (upd_agent k (Agent.set_pending_group_request_to None) w) !! k
                         = Some b → Agent.pending_group_request_to b = None).
      { intros b. unfold upd_agent. cbn [agents set_agents].
        rewrite lookup_alter_eq, Ha. cbn. by intros [= <-]. }
      destruct (agents (upd_agent k _ w) !! t0) as [ta|] eqn:Hta.
      * case_bool_decide.
        -- revert Hl. unfold upd_agent at 1. cbn [agents set_agents].
           destruct (decide (k = t0)) as [->|Hne].
           ++ rewrite lookup_alter_eq, Hta. cbn. intros [= <-].
              cbn in Ht. rewrite (Hk1 ta Hta) in Ht. done.
           ++ rewrite lookup_alter_ne by done. intros Hl.
              rewrite (Hk1 a1 Hl) in Ht. done.
        -- rewrite (Hk1 a1 Hl) in Ht. done.
      * rewrite (Hk1 a1 Hl) in Ht. done.
    + rewrite Ha. intros [= <-] Ht. rewrite Hto in Ht. by injection Ht as <-.
  - rewrite Ha. intros [= <-] Ht. by rewrite Hto in Ht.
Qed.

Lemma check_incoming_removed k w r a a1 :
  agents w !! k = Some a →
  AgentManager.request_expired a (agents w !! r) = true →
  agents (AgentManager.check_incoming k w r) !! k = Some a1 →
  r ∉ Agent.pending_group_requests_from a1.
Proof.
  intros Ha He. unfold AgentManager.check_incoming, AgentManager.get_agent.
  rewrite Ha, He.
  set (w1 := upd_agent k _ w).
  assert (Hk1 : ∀ b, agents w1 !! k = Some b →
                     r ∉ Agent.pending_group_requests_from b).
  { intros b. unfold w1, upd_agent. cbn [agents set_agents].
    rewrite lookup_alter_eq, Ha. cbn. intros [= <-]. cbn.
    apply not_elem_of_difference. right. by apply elem_of_singleton. }
  destruct (agents w1 !! r) as [ra|] eqn:Hra; [|apply Hk1].
  destruct (opt_is _ _); [|apply Hk1].
  unfold upd_agent. cbn [agents set_agents].
  destruct (decide (k = r)) as [->|Hne].
  - rewrite lookup_alter_eq, Hra. cbn. intros [= <-]. cbn. by apply Hk1.
  - rewrite lookup_alter_ne by done. apply Hk1.
Qed.

Lemma foldl_check_incoming_checked k l w r a' :
  r ∈ l →
  agents (foldl (AgentManager.check_incoming k) w l) !! k = Some a' →
  r ∈ Agent.pending_group_requests_from a' →
  AgentManager.request_expired a'
    (agents (foldl (AgentManager.check_incoming k) w l) !! r) = false.
Proof.
  revert w. induction l as [|r0 l IH]; intros w Hin Ha' Hr.
  - by apply elem_of_nil in Hin.
  - cbn [foldl] in *.
    destruct (decide (r = r0)) as [->|Hne].
    + set (w1 := AgentManager.check_incoming k w r0) in *.
      pose proof (foldl_check_incoming_shrink k l w1) as Hs.
      pose proof (check_incoming_shrink k w r0) as Hs0. fold w1 in Hs0.
      pose proof (Hs k) as Hk. rewrite Ha' in Hk.
      destruct (agents w1 !! k) as [a1|] eqn:Ha1; [|done].
      pose proof (Hs0 k) as Hk0. rewrite Ha1 in Hk0.
      destruct (agents w !! k) as [a|] eqn:Ha; [|done].
      rewrite (request_expired_shrink w1 _ k r0 a1 a') by done.
      destruct (AgentManager.request_expired a (agents w !! r0)) eqn:He.
      * exfalso. apply (check_incoming_removed k w r0 a a1 Ha He Ha1).
        destruct Hk as (_ & _ & _ & _ & _ & Hsub). by apply Hsub.
      * assert (Hw1 : w1 = w).
        { unfold w1, AgentManager.check_incoming, AgentManager.get_agent.
          by rewrite Ha, He. }
        rewrite Hw1 in Ha1. rewrite Hw1. congruence.
    + apply IH; [|done..].
      apply elem_of_cons in Hin as [?|?]; done.
Qed.

Lemma update_agent_requests_checked w k :
  requests_checked (AgentManager.update_agent_requests w k) k.
Proof.
  intros a2 Ha2 Hal2. revert Ha2.
  unfold AgentManager.update_agent_requests.
  destruct (agents w !! k) as [a|] eqn:Ha; [|by rewrite Ha].
  destruct (Agent.is_alive a) eqn:Hal; cbn [negb].
  - set (w1 := AgentManager.check_outgoing w k).
    destruct (agents w1 !! k) as [a1|] eqn:Ha1.
    + set (l := sorted_ids (Agent.pending_group_requests_from a1)).
      intros Ha2.
      pose proof (foldl_check_incoming_shrink k l w1) as Hs.
      pose proof (Hs k) as Hk. rewrite Ha1, Ha2 in Hk.
      destruct Hk as (_ & _ & _ & _ & Hto & Hfrom). split.
      * intros t Ht.
        rewrite (request_expired_shrink w1 _ k t a1 a2) by done.
        apply (check_outgoing_checked w k a1 t Ha1).
        destruct Hto as [<-|Hn]; [done|congruence].
      * intros r Hr.
        apply (foldl_check_incoming_checked k l w1 r a2); [|done..].
        apply sorted_ids_elem. by apply Hfrom.
    + pose proof (check_outgoing_shrink w k k) as Hk. fold w1 in Hk.
      by rewrite Ha, Ha1 in Hk.
  - rewrite Ha. intros [= <-]. congruence.
Qed.

Lemma foldl_update_agent_requests_checked l w k :
  k ∈ l → requests_checked (foldl AgentManager.update_agent_requests w l) k.
Proof.
  revert w. induction l as [|k0 l IH]; intros w Hin.
  - by apply elem_of_nil in Hin.
  - cbn [foldl]. destruct (decide (k = k0)) as [->|Hne].
    + eapply requests_checked_mono;
        [apply foldl_update_agent_requests_shrink
        |apply update_agent_requests_checked].
    + apply IH. apply elem_of_cons in Hin as [?|?]; done.
Qed.

Lemma request_expired_false w a j :
  AgentManager.request_expired a (agents w !! j) = false → request_alive w a j.
Proof.
  unfold AgentManager.request_expired, request_alive.
  destruct (agents w !! j) as [o|]; [|done].
  intros He. apply orb_false_elim in He as [He Hd].
  apply orb_false_elim in He as [Hal Hg].
  exists o. split; [done|]. apply negb_false_iff in Hal.
  split; [done|]. split; [by destruct (Agent.group_id o)|].
  by apply Z.ltb_ge in Hd.
Qed.

(** After [update_pending_requests] every request that a living agent
    still holds, outgoing or incoming, names an agent that is present,
    alive, ungrouped and at Manhattan distance at most 2. *)
Theorem update_pending_requests_keeps_only_valid (w : World) (k : Z)
    (a : Agent.t) :
  let w' := AgentManager.update_pending_requests w in
  agents w' !! k = Some a → Agent.is_alive a = true →
  (∀ t, Agent.pending_group_request_to a = Some t → request_alive w' a t)
  ∧ (∀ r, r ∈ Agent.pending_group_requests_from a → request_alive w' a r).
Proof.
  intros w' Ha Hal. subst w'. unfold AgentManager.update_pending_requests in *.
  assert (Hin : k ∈ agent_ids (agents w)).
  { pose proof (foldl_update_agent_requests_shrink (agent_ids (agents w)) w k)
      as Hk.
    rewrite Ha in Hk. unfold agent_ids. apply sorted_ids_elem, elem_of_dom.
    destruct (agents w !! k); [by eexists|done]. }
  destruct (foldl_update_agent_requests_checked _ w k Hin a Ha Hal) as [H1 H2].
  split.
  - intros t Ht. by apply request_expired_false, H1.
  - intros r Hr. by apply request_expired_false, H2.
Qed.

Lemma update_pending_requests_keeps_only_valid_witness :
  ∃ a, agents (AgentManager.update_pending_requests Scenario.requested) !! 2
       = Some a
    ∧ (∀ t, Agent.pending_group_request_to a = Some t →
            request_alive
              (AgentManager.update_pending_requests Scenario.requested) a t)
    ∧ (∀ r, r ∈ Agent.pending_group_requests_from a →
            request_alive
              (AgentManager.update_pending_requests Scenario.requested) a r).
Proof.
  eexists. split; [vm_compute; reflexivity|].
  apply (update_pending_requests_keeps_only_valid Scenario.requested 2 _);
    vm_compute; reflexivity.
Defined.

(** ** Stale results and new fights *)

Lemma process_result_stale k d f :
  stale (Simulation.world f) (k, d) →
  Simulation.process_result k d f = (f, Simulation.Ret tt).
Proof.
  unfold stale, Simulation.process_result, Simulation.bind,
    Simulation.get_world. cbn [fst].
  destruct (agents (Simulation.world f) !! k) as [a|]; [|done].
  by intros ->.
Qed.

Lemma drain_stale q1 q2 f :
  (∀ r, r ∈ q1 → stale (Simulation.world f) r) →
  Simulation.drain (q1 ++ q2) f = Simulation.drain q2 f.
Proof.
  induction q1 as [|[k d] q1 IH]; intros Hs; [done|].
  cbn [app Simulation.drain].
  rewrite process_result_stale by (apply Hs, elem_of_cons; by left).
  apply IH. intros r Hr. apply Hs, elem_of_cons. by right.
Qed.

(** Results that arrive for agents that are gone or dead are taken off
    the queue without any effect; the results behind them are processed as
    if the stale ones had never been queued. *)
Theorem stale_results_are_skipped (w : World) (q1 q2 : list (Z * Simulation.json)) :
  (∀ r, r ∈ q1 → stale w r) →
  Simulation._process_llm_results w (q1 ++ q2)
  = Simulation._process_llm_results w q2.
Proof.
  intros Hs. unfold Simulation._process_llm_results.
  by rewrite drain_stale.
Qed.

Lemma stale_results_are_skipped_witness :
  Simulation._process_llm_results Scenario.walker
    ([(7, Scenario.banana); (9, Simulation.JNull)] ++ [(0, Scenario.banana)])
  = Simulation._process_llm_results Scenario.walker [(0, Scenario.banana)].
Proof.
  apply (stale_results_are_skipped Scenario.walker
           [(7, Scenario.banana); (9, Simulation.JNull)]
           [(0, Scenario.banana)]).
  intros r Hr. apply elem_of_cons in Hr as [->|Hr]; [by vm_compute|].
  apply list_elem_of_singleton in Hr as ->. by vm_compute.
Defined.

(** A fight between two living agents that are not on the same side and
    not yet fighting each other: [initiate_combat] succeeds, each of the
    two then names the other as its only opponent, and nothing else
    changes; in particular an opponent that one of them had before is
    not told. *)
Theorem initiate_combat_links_both_agents (w : World) (i j : Z)
    (a b : Agent.t) :
  i ≠ j →
  agents w !! i = Some a → agents w !! j = Some b →
  Agent.is_alive a = true → Agent.is_alive b = true →
  opt_is (Agent.in_combat_with_agent a) (Agent.id b) = false →
  (is_some (Agent.group_id a)
   && bool_decide (Agent.group_id a = Agent.group_id b)) = false →
  let r := CombatManager.initiate_combat w i j in
  r.1 = true
  ∧ agents r.2 = <[j := Agent.set_combat None (Some i) b]>
                   (<[i := Agent.set_combat None (Some j) a]> (agents w))
  ∧ groups r.2 = groups w ∧ grid_manager r.2 = grid_manager w.
Proof.
  intros Hne Ha Hb Hala Halb Hf Hs r. subst r.
  unfold CombatManager.initiate_combat.
  rewrite (proj2 (Z.eqb_neq i j) Hne).
  unfold CombatManager.get_combat_participants, CombatManager.get_participant.
  rewrite Ha, Hb.
  cbn [CombatManager.is_valid]. rewrite Hala, Halb. cbn [negb].
  unfold CombatManager.already_fighting, CombatManager.same_side.
  cbn [CombatManager.is_agent CombatManager.p_with_agent CombatManager.p_id].
  rewrite Hf, Hs.
  cbn [CombatManager.end_combat_for_participant CombatManager.set_linkage
       CombatManager.mark_members CombatManager.linkage
       CombatManager.is_agent fst snd].
  unfold CombatManager.clear_agent_combat, upd_agent.
  cbn [agents groups grid_manager set_agents].
  split; [done|]. split; [|done].
  apply map_eq. intros k.
  destruct (decide (k = j)) as [->|Hkj].
  - rewrite lookup_insert_eq, lookup_alter_eq, lookup_alter_ne,
      lookup_alter_eq, lookup_alter_ne, Hb by done.
    done.
  - rewrite lookup_insert_ne, lookup_alter_ne by done.
    destruct (decide (k = i)) as [->|Hki].
    + rewrite lookup_insert_eq, lookup_alter_eq, lookup_alter_ne,
        lookup_alter_eq, Ha by done.
      done.
    + by rewrite lookup_insert_ne, !lookup_alter_ne.
Qed.

Lemma initiate_combat_links_both_agents_witness :
  ∃ a b, agents Scenario.three_agents !! 1 = Some a
    ∧ agents Scenario.three_agents !! 2 = Some b
    ∧ let r := CombatManager.initiate_combat Scenario.three_agents 1 2 in
      r.1 = true
      ∧ agents r.2 = <[2 := Agent.set_combat None (Some 1) b]>
                       (<[1 := Agent.set_combat None (Some 2) a]>
                          (agents Scenario.three_agents))
      ∧ groups r.2 = groups Scenario.three_agents
      ∧ grid_manager r.2 = grid_manager Scenario.three_agents.
Proof.
  eexists _, _. split; [vm_compute; reflexivity|].
  split; [vm_compute; reflexivity|].
  apply (initiate_combat_links_both_agents Scenario.three_agents 1 2 _ _);
    [lia|vm_compute; reflexivity..].
Defined.

(** * Invariants of a pass

    A relation [R] between the states of one agent that is reflexive,
    transitive and respected by the field assignments a function makes is
    respected by that function; the assumptions each lemma needs are the
    assignments the function can reach. *)

Section AgentRelation.

Variable R : Agent.t → Agent.t → Prop.
Variable G : GridManager.t → GridManager.t → Prop.
Hypothesis R_refl : ∀ a, R a a.
Hypothesis R_trans : ∀ a b c, R a b → R b c → R a c.

Hypothesis R_set_pos : ∀ x y a, R a (Agent.set_pos x y a).
Hypothesis R_take_damage : ∀ d a, R a (Agent.take_damage d a).
Hypothesis R_consume_level :
  ∀ a, R a (Agent.set_resource_level
              (Z.max 0 (Agent.resource_level a - AGENT_CONSUMPTION_RATE)) a).
Hypothesis R_collect_resource :
  ∀ n a, 0 < n → R a (Agent.collect_resource n a).
Hypothesis R_set_group_id : ∀ v a, R a (Agent.set_group_id v a).
Hypothesis R_set_ticks :
  ∀ v a, R a (Agent.set_ticks_since_last_llm_decision v a).
Hypothesis R_set_combat_none : ∀ a, R a (Agent.set_combat None None a).
Hypothesis R_set_combat_link :
  ∀ b i a, R a (Agent.set_combat (CombatManager.linkage b i).1
                                 (CombatManager.linkage b i).2 a).
Hypothesis R_set_pending_to :
  ∀ v a, R a (Agent.set_pending_group_request_to v a).
Hypothesis R_set_pending_from :
  ∀ v a, R a (Agent.set_pending_group_requests_from v a).
Hypothesis R_set_time : ∀ v a, R a (Agent.set_simulation_time_step v a).
Hypothesis R_set_waiting : ∀ v a, R a (Agent.set_is_waiting_for_llm v a).
Hypothesis R_set_known : ∀ v a, R a (Agent.set_known_resources v a).
Hypothesis R_set_color : ∀ v a, R a (Agent.set_color v a).
Hypothesis R_set_decision :
  ∀ v a, R a (Agent.set_group_request_pending_decision v a).
Hypothesis R_set_plan : ∀ v a, R a (Agent.set_current_plan v a).
Hypothesis R_set_trail : ∀ v a, R a (Agent.set_visited_trail v a).

Hypothesis G_place_resource :
  ∀ gm0 gm r x y,
    G gm0 gm → G gm0 (GridManager.place_object gm (ObjResource r) x y).2.
Hypothesis G_remove_resource :
  ∀ gm0 heap gm r x y,
    G gm0 gm →
    G gm0 (GridManager.remove_object heap gm (ObjResource r) x y).2.
Hypothesis G_remove_agent :
  ∀ gm0 heap gm i x y,
    G gm0 gm → G gm0 (GridManager.remove_object heap gm (ObjAgent i) x y).2.
Hypothesis G_move_agent :
  ∀ gm0 heap ags gm i ox oy nx ny,
    G gm0 gm →
    G gm0 (GridManager.move_object heap ags gm (ObjAgent i) ox oy nx ny).1.2.

Lemma agents_rel_refl ags : agents_rel R ags ags.
Proof. intros k a Ha. eauto. Qed.

Lemma agents_rel_trans ags1 ags2 ags3 :
  agents_rel R ags1 ags2 → agents_rel R ags2 ags3 → agents_rel R ags1 ags3.
Proof.
  intros H12 H23 k a3 Ha3.
  destruct (H23 k a3 Ha3) as (a2 & Ha2 & R23).
  destruct (H12 k a2 Ha2) as (a1 & Ha1 & R12). eauto.
Qed.

Lemma agents_rel_alter g i ags0 ags :
  (∀ a, R a (g a)) → agents_rel R ags0 ags → agents_rel R ags0 (alter g i ags).
Proof.
  intros Hg H0 k a' Hk. destruct (decide (k = i)) as [->|Hne].
  - rewrite lookup_alter_eq in Hk.
    destruct (ags !! i) as [a|] eqn:Ha; [|done]. injection Hk as <-.
    destruct (H0 i a Ha) as (a0 & Ha0 & R0). eauto.
  - rewrite lookup_alter_ne in Hk by done. eauto.
Qed.

Lemma agents_rel_fmap g ags0 ags :
  (∀ a, R a (g a)) → agents_rel R ags0 ags → agents_rel R ags0 (g <$> ags).
Proof.
  intros Hg H0 k a' Hk. rewrite lookup_fmap in Hk.
  destruct (ags !! k) as [a|] eqn:Ha; [|done]. injection Hk as <-.
  destruct (H0 k a Ha) as (a0 & Ha0 & R0). eauto.
Qed.

Lemma agents_rel_insert i a a' ags0 ags :
  ags !! i = Some a → R a a' →
  agents_rel R ags0 ags → agents_rel R ags0 (<[i := a']> ags).
Proof.
  intros Ha Haa H0 k b Hk. destruct (decide (k = i)) as [->|Hne].
  - rewrite lookup_insert_eq in Hk. injection Hk as <-.
    destruct (H0 i a Ha) as (a0 & Ha0 & R0). eauto.
  - rewrite lookup_insert_ne in Hk by done. eauto.
Qed.

Lemma agents_rel_delete i ags0 ags :
  agents_rel R ags0 ags → agents_rel R ags0 (delete i ags).
Proof.
  intros H0 k b Hk. destruct (decide (k = i)) as [->|Hne].
  - by rewrite lookup_delete_eq in Hk.
  - rewrite lookup_delete_ne in Hk by done. eauto.
Qed.

Lemma reaches_same w0 w w' :
  agents w' = agents w → grid_manager w' = grid_manager w →
  reaches R G w0 w → reaches R G w0 w'.
Proof. unfold reaches. by intros -> ->. Qed.

Lemma reaches_agents ags w0 w w' :
  agents w' = ags → grid_manager w' = grid_manager w →
  agents_rel R (agents w0) ags → reaches R G w0 w → reaches R G w0 w'.
Proof. unfold reaches. intros -> -> Ha [_ Hg]. by split. Qed.

Lemma reaches_upd_agent g i w0 w :
  (∀ a, R a (g a)) → reaches R G w0 w → reaches R G w0 (upd_agent i g w).
Proof. intros Hg [H0 Hgrid]. split; [by apply agents_rel_alter|done]. Qed.

Lemma reaches_upd_group g i w0 w :
  reaches R G w0 w → reaches R G w0 (upd_group i g w).
Proof. done. Qed.

Lemma reaches_foldl {X} (step : World → X → World) l :
  (∀ w0 w x, reaches R G w0 w → reaches R G w0 (step w x)) →
  ∀ w0 w, reaches R G w0 w → reaches R G w0 (foldl step w l).
Proof.
  intros Hstep. induction l as [|x l IH]; intros w0 w H0; cbn [foldl]; auto.
Qed.

(** The methods of [Agent]. *)

Lemma R_clear_pending a : R a (Agent.clear_pending_group_requests a).
Proof.
  unfold Agent.clear_pending_group_requests.
  eapply R_trans; [|apply R_set_decision].
  destruct (is_some _); case_bool_decide; eauto.
Qed.

Lemma R_set_new_plan p a : R a (Agent.set_new_plan p a).
Proof. unfold Agent.set_new_plan. destruct (negb _); eauto. Qed.

Lemma R_consume_resource a : R a (Agent.consume_resource a).
Proof.
  unfold Agent.consume_resource. destruct (Agent.is_alive a); [|done].
  destruct (_ <=? _); eauto.
Qed.

Lemma R_get_state_for_llm w a : R a (AgentManager.get_state_for_llm w a).
Proof.
  unfold AgentManager.get_state_for_llm.
  destruct (Agent.group_id a); [destruct (_ && _)|]; eauto.
Qed.

Lemma R_perceive w t a : R a (AgentManager.perceive w t a).
Proof.
  unfold AgentManager.perceive. destruct (negb _); [done|].
  destruct (foldl _ _ _). apply R_set_known.
Qed.

Lemma R_joined gid c k a : R a (joined gid c k a).
Proof.
  unfold joined. eapply R_trans; [|apply R_set_known].
  eapply R_trans; [|apply R_clear_pending]. eauto.
Qed.

(** [Group] and the grid. *)

Lemma group_init_rel gid i ags0 ags c :
  agents_rel R ags0 ags → agents_rel R ags0 (Group.init gid i ags c).2.
Proof.
  intros H0. unfold Group.init.
  destruct (ags !! i) as [a|] eqn:Ha; [|done]. cbn [snd].
  eapply agents_rel_insert; [exact Ha| |done].
  apply (R_joined gid c (Agent.known_resources
           (Agent.clear_pending_group_requests
              (Agent.set_color c (Agent.set_group_id (Some gid) a)))) a).
Qed.

Lemma add_member_rel ags0 ags g i :
  agents_rel R ags0 ags → agents_rel R ags0 (Group.add_member ags g i).2.
Proof.
  intros H0. unfold Group.add_member.
  destruct (ags !! i) as [a|] eqn:Ha; [|done].
  destruct (_ && _); [|done]. cbn [snd].
  eapply agents_rel_insert; [exact Ha| |done].
  match goal with |- R a (Agent.set_known_resources ?k _) =>
    apply (R_joined (Group.id g) (Group.color g) k a)
  end.
Qed.

Lemma remove_member_rel ags0 ags g i :
  agents_rel R ags0 ags → agents_rel R ags0 (Group.remove_member ags g i).2.
Proof.
  intros H0. unfold Group.remove_member. case_bool_decide; [|done].
  cbn [snd]. destruct (ags !! i) as [a|] eqn:Ha; [|done].
  eapply agents_rel_insert; [exact Ha| |done]. eauto.
Qed.

Lemma move_object_rel heap ags0 ags gm o ox oy nx ny :
  agents_rel R ags0 ags →
  agents_rel R ags0 (GridManager.move_object heap ags gm o ox oy nx ny).2.
Proof.
  intros H0. unfold GridManager.move_object.
  destruct (negb _); [done|].
  destruct (GridManager.remove_object _ _ _ _ _) as [removed gm1].
  destruct (GridManager.place_object _ _ _ _) as [placed gm2].
  destruct placed; [|done]. destruct o; [|done]. cbn [snd].
  by apply agents_rel_alter.
Qed.

(** [CombatManager]. *)

Lemma member_agents_reach w0 w k :
  reaches R G w0 w → reaches R G w0 (CombatManager.member_agents w k).1.
Proof.
  intros H0. unfold CombatManager.member_agents.
  destruct (groups w !! k) as [g|]; [|done].
  by destruct (Group.get_member_agents (agents w) g).
Qed.

Lemma is_valid_reach w0 w p :
  reaches R G w0 w → reaches R G w0 (CombatManager.is_valid w p).1.
Proof.
  intros H0. unfold CombatManager.is_valid. destruct p as [k a|k g]; [done|].
  pose proof (member_agents_reach w0 w k H0) as H1.
  by destruct (CombatManager.member_agents w k).
Qed.

Lemma clear_agent_combat_reach w0 w k :
  reaches R G w0 w → reaches R G w0 (CombatManager.clear_agent_combat w k).
Proof. by apply reaches_upd_agent. Qed.

Lemma end_combat_for_participant_reach w0 w p :
  reaches R G w0 w → reaches R G w0 (CombatManager.end_combat_for_participant w p).
Proof.
  intros H0. unfold CombatManager.end_combat_for_participant.
  destruct p as [[k a|k g]|]; [by apply clear_agent_combat_reach| |done].
  apply reaches_foldl; [|done].
  intros ? ? ?. apply clear_agent_combat_reach.
Qed.

Lemma end_combat_reach w0 w p1 p2 :
  reaches R G w0 w → reaches R G w0 (CombatManager.end_combat w p1 p2).
Proof.
  intros H0. unfold CombatManager.end_combat.
  by do 2 apply end_combat_for_participant_reach.
Qed.

Lemma set_linkage_reach w0 w p b i :
  reaches R G w0 w → reaches R G w0 (CombatManager.set_linkage w p b i).
Proof.
  intros H0. unfold CombatManager.set_linkage.
  pose proof (R_set_combat_link b i) as Hl.
  destruct (CombatManager.linkage b i) as [cg ca]. cbn [fst snd] in Hl.
  destruct p; [by apply reaches_upd_agent|done].
Qed.

Lemma mark_members_reach w0 w p b i :
  reaches R G w0 w → reaches R G w0 (CombatManager.mark_members w p b i).
Proof.
  intros H0. unfold CombatManager.mark_members.
  destruct p as [k a|k g]; [done|].
  pose proof (member_agents_reach w0 w k H0) as H1.
  destruct (CombatManager.member_agents w k) as [w1 ms]. cbn [fst] in H1.
  pose proof (R_set_combat_link b i) as Hl.
  destruct (CombatManager.linkage b i) as [cg ca]. cbn [fst snd] in Hl.
  apply reaches_foldl; [|done].
  intros ? ? ? ?. by apply reaches_upd_agent.
Qed.

Lemma initiate_combat_reach w0 w i j :
  reaches R G w0 w → reaches R G w0 (CombatManager.initiate_combat w i j).2.
Proof.
  intros H0. unfold CombatManager.initiate_combat.
  destruct (i =? j); [done|].
  destruct (CombatManager.get_combat_participants w i j) as [[p1|] [p2|]];
    try done.
  pose proof (is_valid_reach w0 w p1 H0) as H1.
  destruct (CombatManager.is_valid w p1) as [w1 ok1]. cbn [fst] in H1.
  destruct (negb ok1); [done|].
  pose proof (is_valid_reach w0 w1 p2 H1) as H2.
  destruct (CombatManager.is_valid w1 p2) as [w2 ok2]. cbn [fst] in H2.
  destruct (negb ok2); [done|].
  destruct (CombatManager.already_fighting p1 p2); [done|].
  destruct (CombatManager.same_side p1 p2); [done|]. cbn [snd].
  do 2 apply mark_members_reach. do 2 apply set_linkage_reach.
  by do 2 apply end_combat_for_participant_reach.
Qed.

Lemma get_combat_stats_reach w0 w p :
  reaches R G w0 w → reaches R G w0 (CombatManager.get_combat_stats w p).1.
Proof.
  intros H0. unfold CombatManager.get_combat_stats.
  destruct p as [[k a|k g]|]; [| |done].
  - destruct (agents w !! k) as [a'|]; [destruct (Agent.is_alive a')|]; done.
  - pose proof (member_agents_reach w0 w k H0) as H1.
    destruct (CombatManager.member_agents w k) as [w1 ms]. cbn [fst] in H1.
    destruct ms; [done|].
    destruct (groups _ !! k); done.
Qed.

Lemma apply_damage_reach w0 w p d :
  reaches R G w0 w → reaches R G w0 (CombatManager.apply_damage w p d).
Proof.
  intros H0. unfold CombatManager.apply_damage.
  destruct p as [k a|k g]; [by apply reaches_upd_agent|].
  pose proof (member_agents_reach w0 w k H0) as H1.
  destruct (CombatManager.member_agents w k) as [w1 ms]. cbn [fst] in H1.
  destruct ms as [|m ms]; [done|].
  apply reaches_foldl; [|done].
  intros ? ? ? ?. by apply reaches_upd_agent.
Qed.

Lemma resolve_combat_round_reach w0 w p1 p2 r12 r21 :
  reaches R G w0 w →
  reaches R G w0 (CombatManager.resolve_combat_round w p1 p2 r12 r21).
Proof.
  intros H0. unfold CombatManager.resolve_combat_round.
  pose proof (get_combat_stats_reach w0 w (Some p1) H0) as H1.
  destruct (CombatManager.get_combat_stats w (Some p1)) as [w1 s1].
  cbn [fst] in H1.
  pose proof (get_combat_stats_reach w0 w1 (Some p2) H1) as H2.
  destruct (CombatManager.get_combat_stats w1 (Some p2)) as [w2 s2].
  cbn [fst] in H2.
  destruct s1 as [s1|]; [|by apply end_combat_reach].
  destruct s2 as [s2|]; [|by apply end_combat_reach].
  match goal with |- context [CombatManager.apply_damage
                                (CombatManager.apply_damage w2 p2 ?d1) p1 ?d2] =>
    pose proof (apply_damage_reach w0 _ p1 d2
                  (apply_damage_reach w0 w2 p2 d1 H2)) as H4;
    set (w4 := CombatManager.apply_damage
                 (CombatManager.apply_damage w2 p2 d1) p1 d2) in *
  end.
  pose proof (get_combat_stats_reach w0 w4 (Some p1) H4) as H5.
  destruct (CombatManager.get_combat_stats w4 (Some p1)) as [w5 s5].
  cbn [fst] in H5.
  pose proof (get_combat_stats_reach w0 w5 (Some p2) H5) as H6.
  destruct (CombatManager.get_combat_stats w5 (Some p2)) as [w6 s6].
  cbn [fst] in H6.
  destruct s5, s6; try done; by apply end_combat_reach.
Qed.

Lemma resolve_pair_reach rand w0 st i j :
  reaches R G w0 st.1.1 →
  reaches R G w0 (CombatManager.resolve_pair rand st i j).1.1.
Proof.
  destruct st as [[w pp] n]. cbn [fst]. intros H0.
  unfold CombatManager.resolve_pair.
  case_bool_decide; [done|].
  destruct (CombatManager.get_combat_participants w i j) as [[p1|] [p2|]];
    try done; cbn [fst].
  - destruct (_ && _); cbn [fst].
    + by apply resolve_combat_round_reach.
    + by apply end_combat_reach.
  - by apply end_combat_for_participant_reach.
Qed.

Lemma agent_round_reach rand w0 st i :
  reaches R G w0 st.1.1 →
  reaches R G w0 (CombatManager.agent_round rand st i).1.1.
Proof.
  intros H0. unfold CombatManager.agent_round.
  destruct st as [[w pp] n]. cbn [fst] in H0.
  destruct (agents w !! i) as [a|]; [|done].
  destruct (_ || _); [done|].
  destruct (py_or _ _).
  - by apply (resolve_pair_reach rand w0 (w, pp, n)).
  - cbn [fst]. by apply end_combat_for_participant_reach.
Qed.

Lemma group_round_reach rand w0 st i :
  reaches R G w0 st.1.1 →
  reaches R G w0 (CombatManager.group_round rand st i).1.1.
Proof.
  intros H0. unfold CombatManager.group_round.
  destruct st as [[w pp] n]. cbn [fst] in H0.
  destruct (groups w !! i); [|done].
  pose proof (member_agents_reach w0 w i H0) as H1.
  destruct (CombatManager.member_agents w i) as [w1 ms]. cbn [fst] in H1.
  destruct (groups w1 !! i) as [g1|]; [|done].
  destruct (_ || _); [done|].
  destruct (py_or _ _).
  - by apply (resolve_pair_reach rand w0 (w1, pp, n)).
  - cbn [fst]. by apply end_combat_for_participant_reach.
Qed.

Lemma foldl_round_reach (step : CombatManager.LoopState → Z →
                                CombatManager.LoopState) l :
  (∀ w0 st i, reaches R G w0 st.1.1 → reaches R G w0 (step st i).1.1) →
  ∀ w0 st, reaches R G w0 st.1.1 → reaches R G w0 (foldl step st l).1.1.
Proof.
  intros Hstep. induction l as [|x l IH]; intros w0 st H0; cbn [foldl]; auto.
Qed.

Lemma resolve_all_combats_reach w0 w rand :
  reaches R G w0 w → reaches R G w0 (CombatManager.resolve_all_combats w rand).
Proof.
  intros H0. unfold CombatManager.resolve_all_combats.
  apply foldl_round_reach; [apply group_round_reach|].
  apply foldl_round_reach; [apply agent_round_reach|]. done.
Qed.

(** [GroupManager]. *)

Lemma create_group_with_agents_reach w0 w i j :
  reaches R G w0 w →
  reaches R G w0 (GroupManager.create_group_with_agents w i j).2.
Proof.
  intros H0. unfold GroupManager.create_group_with_agents.
  destruct (agents w !! i) as [a|]; [|done].
  destruct (agents w !! j) as [b|]; [|done].
  destruct (_ && _); [|done].
  destruct H0 as [H0 Hg].
  pose proof (group_init_rel (next_group_id w) i (agents w0) (agents w)
                (Agent.color b) H0) as H1.
  destruct (Group.init _ _ _ _) as [g ags1]. cbn [snd] in H1.
  match goal with |- context [Group.add_member ?ags ?g1 j] =>
    assert (H3 : agents_rel R (agents w0) ags)
      by (do 2 (apply agents_rel_alter; [apply R_set_known|]); exact H1);
    pose proof (add_member_rel (agents w0) ags g1 j H3) as H4;
    destruct (Group.add_member ags g1 j) as [[ok g2] ags4]
  end.
  cbn [snd] in H4. destruct ok; cbn [snd]; (split; [|exact Hg]); [done|].
  by apply agents_rel_alter.
Qed.

Lemma disband_group_reach w0 w gid :
  reaches R G w0 w → reaches R G w0 (GroupManager.disband_group w gid).
Proof.
  intros H0. unfold GroupManager.disband_group.
  destruct (groups w !! gid) as [g|]; [|done].
  destruct (py_or _ _); [|done].
  destruct (CombatManager.get_combat_participants _ _ _) as [p1 p2].
  by apply end_combat_reach.
Qed.

Lemma remove_agent_from_group_reach w0 w i gid :
  reaches R G w0 w →
  reaches R G w0 (GroupManager.remove_agent_from_group w i gid).
Proof.
  intros H0. unfold GroupManager.remove_agent_from_group.
  destruct (groups w !! gid) as [g|]; [|done].
  destruct H0 as [H0 Hg].
  pose proof (remove_member_rel (agents w0) (agents w) g i H0) as H1.
  destruct (Group.remove_member (agents w) g i) as [g1 ags1].
  cbn [snd] in H1.
  case_bool_decide; [apply disband_group_reach|]; by split.
Qed.

Lemma update_all_group_stats_reach w0 w :
  reaches R G w0 w → reaches R G w0 (GroupManager.update_all_group_stats w).
Proof. done. Qed.

Lemma manage_groups_reach w0 w :
  reaches R G w0 w → reaches R G w0 (GroupManager.manage_groups w).
Proof.
  intros H0. unfold GroupManager.manage_groups.
  apply reaches_foldl; [|done]. intros ? ? ?. apply disband_group_reach.
Qed.

(** [ResourceManager]. *)

Lemma periodic_spawn_reach w0 w roll draws q :
  reaches R G w0 w → reaches R G w0 (ResourceManager.periodic_spawn w roll draws q).
Proof.
  intros H0. unfold ResourceManager.periodic_spawn,
    ResourceManager.spawn_resources_1.
  destruct roll; [|done].
  destruct (GridManager.get_random_empty_cell _ _) as [pos|]; [|done].
  unfold ResourceManager.spawn_resource_at. destruct H0 as [H0 Hg].
  pose proof (G_place_resource _ _ (next_ref w) pos.1 pos.2 Hg) as Hg1.
  destruct (GridManager.place_object _ _ _ _). by split.
Qed.

Lemma find_marker_Some r cell o :
  ResourceManager.find_marker r cell = Some o → o = ObjResource r.
Proof.
  unfold ResourceManager.find_marker. intros Hf.
  apply find_some in Hf as [_ Hf]. destruct o as [i|r']; [done|].
  apply Nat.eqb_eq in Hf. by subst.
Qed.

Lemma harvest_resource_at_reach w0 w i pos n :
  reaches R G w0 w →
  reaches R G w0 (ResourceManager.harvest_resource_at w i pos n).2.
Proof.
  intros [H0 Hg]. unfold ResourceManager.harvest_resource_at.
  destruct (ResourceManager.resource_at w pos) as [[r info]|]; [|done].
  destruct (Z.min n (quantity info) <=? 0) eqn:Hn; [done|].
  apply Z.leb_gt in Hn.
  assert (H1 : agents_rel R (agents w0)
                 (agents (upd_agent i (Agent.collect_resource
                            (Z.min n (quantity info))) w)))
    by (apply agents_rel_alter; [intros a; by apply R_collect_resource|done]).
  destruct (_ <=? 0); cbn [snd]; (split; [exact H1|]); [|exact Hg].
  cbn [grid_manager upd_agent set_agents].
  destruct (ResourceManager.find_marker r _) as [o|] eqn:Hf; [|exact Hg].
  apply find_marker_Some in Hf as ->. by apply G_remove_resource.
Qed.

(** [AgentManager]. *)

Lemma clear_pending_requests_involving_reach w0 w i :
  reaches R G w0 w →
  reaches R G w0 (AgentManager.clear_pending_requests_involving w i).
Proof.
  intros [H0 Hg]. unfold AgentManager.clear_pending_requests_involving.
  split; [|exact Hg]. apply agents_rel_fmap; [|done].
  intros a. case_bool_decide; destruct (opt_is _ _); eauto.
Qed.

Lemma remove_agent_reach w0 w i :
  reaches R G w0 w → reaches R G w0 (AgentManager.remove_agent w i).2.
Proof.
  intros [H0 Hg]. unfold AgentManager.remove_agent.
  destruct (agents w !! i) as [a|]; [|done].
  pose proof (G_remove_agent _ (heap (set_agents (delete i (agents w)) w))
                _ i (Agent.x a) (Agent.y a) Hg) as Hg1.
  destruct (GridManager.remove_object _ _ _ _ _) as [removed gm]. cbn [snd].
  apply clear_pending_requests_involving_reach.
  assert (H1 : reaches R G w0 (set_grid_manager gm
                               (set_agents (delete i (agents w)) w)))
    by (split; [by apply agents_rel_delete|exact Hg1]).
  destruct (Agent.group_id a) as [gid|]; [|done].
  destruct (gid =? 0); [done|]. by apply remove_agent_from_group_reach.
Qed.

Lemma handle_deaths_reach w0 w :
  reaches R G w0 w → reaches R G w0 (AgentManager.handle_deaths w).
Proof.
  intros H0. unfold AgentManager.handle_deaths.
  apply reaches_foldl; [|done]. intros ? ? ?. apply remove_agent_reach.
Qed.

Lemma check_outgoing_reach w0 w k :
  reaches R G w0 w → reaches R G w0 (AgentManager.check_outgoing w k).
Proof.
  intros H0. unfold AgentManager.check_outgoing.
  destruct (agents w !! k) as [a|]; [|done].
  destruct (Agent.pending_group_request_to a) as [t|]; [|done].
  destruct (AgentManager.request_expired _ _); [|done].
  assert (H1 : reaches R G w0
                 (upd_agent k (Agent.set_pending_group_request_to None) w))
    by by apply reaches_upd_agent.
  destruct (AgentManager.get_agent _ t) as [ta|]; [|done].
  case_bool_decide; [|done]. by apply reaches_upd_agent.
Qed.

Lemma check_incoming_reach k w0 w r :
  reaches R G w0 w → reaches R G w0 (AgentManager.check_incoming k w r).
Proof.
  intros H0. unfold AgentManager.check_incoming.
  destruct (agents w !! k) as [a|]; [|done].
  destruct (AgentManager.request_expired _ _); [|done].
  match goal with |- context [upd_agent k ?g w] =>
    assert (H1 : reaches R G w0 (upd_agent k g w))
      by by apply reaches_upd_agent
  end.
  destruct (AgentManager.get_agent _ r) as [ra|]; [|done].
  destruct (opt_is _ _); [|done]. by apply reaches_upd_agent.
Qed.

Lemma update_agent_requests_reach w0 w k :
  reaches R G w0 w → reaches R G w0 (AgentManager.update_agent_requests w k).
Proof.
  intros H0. unfold AgentManager.update_agent_requests.
  destruct (agents w !! k) as [a|]; [|done].
  destruct (negb _); [done|].
  apply reaches_foldl; [intros ? ? ?; apply check_incoming_reach|].
  by apply check_outgoing_reach.
Qed.

Lemma update_pending_requests_reach w0 w :
  reaches R G w0 w → reaches R G w0 (AgentManager.update_pending_requests w).
Proof.
  intros H0. unfold AgentManager.update_pending_requests.
  apply reaches_foldl; [|done].
  intros ? ? ?. apply update_agent_requests_reach.
Qed.

Lemma request_round_reach t w0 st k :
  reaches R G w0 st.1 → reaches R G w0 (AgentManager.request_round t st k).1.
Proof.
  destruct st as [w q]. cbn [fst]. intros [H0 Hg].
  unfold AgentManager.request_round.
  assert (Hdone : reaches R G w0 w) by by split.
  destruct (agents w !! k) as [a|] eqn:Ha; [|done].
  destruct (_ && _); [|done].
  set (a1 := Agent.set_simulation_time_step t a).
  assert (R1 : R a a1) by apply R_set_time.
  assert (R2 : ∀ x, R a x →
            R a (if bool_decide (plan (Agent.current_plan x) = EXPLORE)
                    && AgentManager.nearby_significant w k x
                 then Agent.set_new_plan idle_plan x else x)).
  { intros x Hx. destruct (_ && _); [|done].
    eapply R_trans; [exact Hx|apply R_set_new_plan]. }
  destruct (Agent.group_request_pending_decision a1
            && negb (Agent.is_waiting_for_llm a1)).
  - cbn [negb fst]. split; [|exact Hg].
    eapply agents_rel_insert; [exact Ha| |done].
    apply R2. eapply R_trans; [|apply R_set_plan].
    eapply R_trans; [|apply R_set_decision].
    eapply R_trans; [|apply R_set_waiting].
    eapply R_trans; [exact R1|apply R_get_state_for_llm].
  - cbn [negb]. specialize (R2 a1 R1).
    match type of R2 with R a ?x => set (a3 := x) in * end.
    clearbody a3.
    destruct (_ && _); cbn [fst]; (split; [|exact Hg]);
      (eapply agents_rel_insert; [exact Ha| |done]).
    + eapply R_trans; [|apply R_set_waiting].
      eapply R_trans; [|apply R_get_state_for_llm].
      eapply R_trans; [exact R2|apply R_set_ticks].
    + eapply R_trans; [exact R2|apply R_set_ticks].
Qed.

Lemma initiate_llm_requests_reach w0 w t q :
  reaches R G w0 w → reaches R G w0 (AgentManager.initiate_llm_requests w t q).1.
Proof.
  intros H0. unfold AgentManager.initiate_llm_requests.
  assert (Hgen : ∀ l st, reaches R G w0 st.1 →
            reaches R G w0 (foldl (AgentManager.request_round t) st l).1).
  { induction l as [|x l IH]; intros st Hst; cbn [foldl]; [done|].
    by apply IH, request_round_reach. }
  apply Hgen. by apply update_pending_requests_reach.
Qed.

Lemma execute_move_reach w0 w k d t :
  reaches R G w0 w → reaches R G w0 (AgentManager._execute_move w k d t).2.
Proof.
  intros H0. unfold AgentManager._execute_move.
  destruct (agents w !! k) as [a|]; [|done].
  destruct (assoc_string d AgentManager.move_map) as [[dx dy]|]; [|done].
  destruct (GridManager.is_valid_coordinate _ _ _); [|done].
  destruct (AgentManager.blocked_by_agent _ _ _); [done|].
  destruct H0 as [H0 Hg].
  match goal with |- context [GridManager.move_object ?h ?ags ?gm ?o ?ox ?oy ?nx ?ny] =>
    pose proof (move_object_rel h (agents w0) ags gm o ox oy nx ny H0) as H1;
    pose proof (G_move_agent _ h ags gm k ox oy nx ny Hg) as Hg1;
    destruct (GridManager.move_object h ags gm o ox oy nx ny) as [[ok gm'] ags1]
  end.
  cbn [fst snd] in H1, Hg1.
  assert (H2 : reaches R G w0 (set_grid_manager gm' (set_agents ags1 w)))
    by by split.
  destruct ok; cbn [snd]; [|done].
  by apply reaches_upd_agent.
Qed.

Lemma set_idle_reach w0 w k :
  reaches R G w0 w → reaches R G w0 (AgentManager.set_idle w k).
Proof. apply reaches_upd_agent. apply R_set_new_plan. Qed.

Lemma explore_step_reach w0 w k a c :
  reaches R G w0 w → reaches R G w0 (AgentManager.explore_step w k a c).
Proof.
  intros H0. unfold AgentManager.explore_step.
  destruct (omap _ _) as [|d ds]; [by apply set_idle_reach|].
  destruct (nth_error _ _) as [[dir ?]|]; [|by apply set_idle_reach].
  by apply execute_move_reach.
Qed.

Lemma harvest_step_reach w0 w k a pos :
  reaches R G w0 w → reaches R G w0 (AgentManager.harvest_step w k a pos).
Proof.
  intros H0. unfold AgentManager.harvest_step.
  destruct (ResourceManager.resource_at w pos) as [[r info]|];
    [|by apply set_idle_reach].
  destruct (_ && _); [|by apply set_idle_reach].
  destruct (0 <? _); [|by apply set_idle_reach].
  match goal with |- context [ResourceManager.harvest_resource_at w k pos ?n] =>
    pose proof (harvest_resource_at_reach w0 w k pos n H0) as H1;
    destruct (ResourceManager.harvest_resource_at w k pos n) as [ok w1]
  end.
  cbn [snd] in H1.
  match goal with |- context [if ok then ?wa else w1] =>
    assert (H2 : reaches R G w0 (if ok then wa else w1))
      by (destruct ok; [by apply reaches_upd_agent|done]);
    generalize dependent (if ok then wa else w1)
  end.
  intros w2 H2. destruct (_ || _); [by apply set_idle_reach|done].
Qed.

Lemma arrive_at_agent_reach w0 w k a t :
  reaches R G w0 w → reaches R G w0 (AgentManager.arrive_at_agent w k a t).
Proof.
  intros H0. unfold AgentManager.arrive_at_agent. apply set_idle_reach.
  destruct (AgentManager.get_agent w t) as [ta|]; [|done].
  destruct (_ && _); [|done].
  apply reaches_upd_agent; [eauto|]. apply reaches_upd_agent; eauto.
Qed.

Lemma move_step_reach w0 w k a cur tgt :
  reaches R G w0 w → reaches R G w0 (AgentManager.move_step w k a cur tgt).
Proof.
  intros H0. unfold AgentManager.move_step.
  destruct (negb _); [|by apply set_idle_reach].
  match goal with |- context [AgentManager._execute_move w k ?d ?t] =>
    pose proof (execute_move_reach w0 w k d t H0) as H1;
    destruct (AgentManager._execute_move w k d t) as [ok w1]
  end.
  cbn [snd] in H1. destruct (AgentManager.py_not ok); [by apply set_idle_reach|done].
Qed.

Lemma goto_step_reach w0 w k a pt tg :
  reaches R G w0 w → reaches R G w0 (AgentManager.goto_step w k a pt tg).
Proof.
  intros H0. unfold AgentManager.goto_step.
  assert (Hgen : ∀ tp : option Pos,
    reaches R G w0
      match tp with
      | Some target_pos =>
          if bool_decide ((Agent.x a, Agent.y a) = target_pos)
          then match pt with
               | GO_TO_RESOURCE =>
                   AgentManager.harvest_step w k a (Agent.x a, Agent.y a)
               | GO_TO_AGENT =>
                   match AgentManager.target_key tg with
                   | Some t => AgentManager.arrive_at_agent w k a t
                   | None => AgentManager.set_idle w k
                   end
               | _ => AgentManager.set_idle w k
               end
          else AgentManager.move_step w k a (Agent.x a, Agent.y a) target_pos
      | None => AgentManager.set_idle w k
      end).
  { intros [tp|]; [|by apply set_idle_reach].
    case_bool_decide; [|by apply move_step_reach].
    destruct pt; try (by apply set_idle_reach).
    - by apply harvest_step_reach.
    - destruct (AgentManager.target_key tg);
        [by apply arrive_at_agent_reach|by apply set_idle_reach]. }
  destruct tg; [by apply set_idle_reach|apply Hgen..].
Qed.

Lemma form_group_step_reach w0 w k a tg :
  reaches R G w0 w → reaches R G w0 (AgentManager.form_group_step w k a tg).
Proof.
  intros H0. unfold AgentManager.form_group_step.
  destruct (AgentManager.target_key tg) as [t|]; [|by apply set_idle_reach].
  destruct (AgentManager.get_agent w t) as [ta|]; [|by apply set_idle_reach].
  destruct (_ && _); [|by apply set_idle_reach].
  apply reaches_upd_agent; [apply R_set_new_plan|].
  apply reaches_upd_agent; [eauto|]. apply reaches_upd_agent; eauto.
Qed.

Lemma attack_step_reach w0 w k a tg :
  reaches R G w0 w → reaches R G w0 (AgentManager.attack_step w k a tg).
Proof.
  intros H0. unfold AgentManager.attack_step.
  assert (Hgen :
    reaches R G w0
      match CombatManager.get_participant w (Agent.id a),
            match AgentManager.target_key tg with
            | Some t => CombatManager.get_participant w t
            | None => None
            end,
            AgentManager.target_key tg with
      | Some _, Some p2, Some target_id =>
          let initiator_id_for_combat :=
            match Agent.group_id a with
            | Some g => g
            | None => Agent.id a
            end in
          let '(w1, dist) :=
            match p2 with
            | CombatManager.PAgent _ a2 =>
                (w, manhattan_distance (Agent.x a, Agent.y a)
                      (Agent.x a2, Agent.y a2))
            | CombatManager.PGroup k0 g2 =>
                let '(g2', centroid) := Group.get_centroid (agents w) g2 in
                (set_groups (<[k0 := g2']> (groups w)) w,
                 match centroid with
                 | Some c => manhattan_distance (Agent.x a, Agent.y a) c
                 | None => 999
                 end)
            end in
          let '(success, w2) :=
            if dist <=? 1
            then CombatManager.initiate_combat w1 initiator_id_for_combat
                                               target_id
            else (false, w1) in
          if negb success then AgentManager.set_idle w2 k else w2
      | _, _, _ => AgentManager.set_idle w k
      end).
  { destruct (CombatManager.get_participant w (Agent.id a));
      [|by apply set_idle_reach].
    destruct (match AgentManager.target_key tg with
              | Some t => CombatManager.get_participant w t
              | None => None
              end) as [p2|]; [|by apply set_idle_reach].
    destruct (AgentManager.target_key tg) as [tid|]; [|by apply set_idle_reach].
    cbn zeta.
    assert (H1 : reaches R G w0
              (match p2 with
               | CombatManager.PAgent _ a2 =>
                   (w, manhattan_distance (Agent.x a, Agent.y a)
                         (Agent.x a2, Agent.y a2))
               | CombatManager.PGroup k0 g2 =>
                   let '(g2', centroid) := Group.get_centroid (agents w) g2 in
                   (set_groups (<[k0 := g2']> (groups w)) w,
                    match centroid with
                    | Some c => manhattan_distance (Agent.x a, Agent.y a) c
                    | None => 999
                    end)
               end).1).
    { destruct p2; [done|]. by destruct (Group.get_centroid _ _). }
    destruct (match p2 with
              | CombatManager.PAgent _ _ => _
              | CombatManager.PGroup _ _ => _
              end) as [w1 dist].
    cbn [fst] in H1.
    destruct (dist <=? 1).
    - pose proof (initiate_combat_reach w0 w1
                    (match Agent.group_id a with
                     | Some g => g
                     | None => Agent.id a
                     end) tid H1) as H2.
      destruct (CombatManager.initiate_combat _ _ _) as [ok w2].
      cbn [snd] in H2. destruct (negb ok); [by apply set_idle_reach|done].
    - cbn [negb]. by apply set_idle_reach. }
  destruct tg; [by apply set_idle_reach|apply Hgen..].
Qed.

Lemma execute_agent_plan_step_reach w0 w k c :
  reaches R G w0 w → reaches R G w0 (AgentManager.execute_agent_plan_step w k c).
Proof.
  intros H0. unfold AgentManager.execute_agent_plan_step.
  destruct (AgentManager.get_agent w k) as [a|]; [|done].
  destruct (_ || _); [done|].
  destruct (plan (Agent.current_plan a)); try done.
  - by apply goto_step_reach.
  - by apply goto_step_reach.
  - by apply goto_step_reach.
  - by apply form_group_step_reach.
  - by apply set_idle_reach.
  - by apply attack_step_reach.
  - by apply explore_step_reach.
Qed.

Lemma apply_consumption_reach w0 w :
  reaches R G w0 w → reaches R G w0 (AgentManager.apply_consumption w).
Proof.
  intros [H0 Hg]. unfold AgentManager.apply_consumption.
  split; [|exact Hg]. apply agents_rel_fmap; [|done].
  intros a. destruct (Agent.is_alive a); [apply R_consume_resource|done].
Qed.

Lemma perception_reach w0 w t :
  reaches R G w0 w →
  reaches R G w0 (AgentManager.update_agent_perception_and_memory w t).
Proof.
  intros [H0 Hg]. unfold AgentManager.update_agent_perception_and_memory.
  split; [|exact Hg]. apply agents_rel_fmap; [apply R_perceive|done].
Qed.

(** The drain. *)

Lemma preserves_ret {A} (x : A) : preserves R G (Simulation.ret x).
Proof. by intros w0 f H0. Qed.

Lemma preserves_raise {A} e : preserves R G (Simulation.raise e : Simulation.M A).
Proof. by intros w0 f H0. Qed.

Lemma preserves_lift {A} (o : Simulation.outcome A) :
  preserves R G (Simulation.lift o).
Proof. by intros w0 f H0. Qed.

Lemma preserves_read {A} (var : Simulation.Locals → option A) :
  preserves R G (Simulation.read var).
Proof.
  intros w0 f H0. unfold Simulation.read. by destruct (var _).
Qed.

Lemma preserves_get_world : preserves R G Simulation.get_world.
Proof. by intros w0 f H0. Qed.

Lemma preserves_assign_was_group_decision b :
  preserves R G (Simulation.assign_was_group_decision b).
Proof. by intros w0 f H0. Qed.

Lemma preserves_assign_parsed_plan_type p :
  preserves R G (Simulation.assign_parsed_plan_type p).
Proof. by intros w0 f H0. Qed.

Lemma preserves_assign_new_plan p :
  preserves R G (Simulation.assign_new_plan p).
Proof. by intros w0 f H0. Qed.

Lemma preserves_bind {A B} (c : Simulation.M A) (k : A → Simulation.M B) :
  preserves R G c → (∀ x, preserves R G (k x)) → preserves R G (Simulation.bind c k).
Proof.
  intros Hc Hk w0 f H0. unfold Simulation.bind.
  specialize (Hc w0 f H0). destruct (c f) as [f' [x|e]]; cbn [fst] in *.
  - by apply Hk.
  - done.
Qed.

Lemma preserves_try_except {A} (c : Simulation.M A) h :
  preserves R G c → (∀ e, preserves R G (h e)) →
  preserves R G (Simulation.try_except c h).
Proof.
  intros Hc Hh w0 f H0. unfold Simulation.try_except.
  specialize (Hc w0 f H0). destruct (c f) as [f' [x|e]]; cbn [fst] in *.
  - done.
  - by apply Hh.
Qed.

Lemma preserves_modify_world g :
  (∀ w0 w, reaches R G w0 w → reaches R G w0 (g w)) →
  preserves R G (Simulation.modify_world g).
Proof. intros Hg w0 f H0. by apply Hg. Qed.

(** A computation that first reads the world. *)
Lemma preserves_with_world {A} (k : World → Simulation.M A) :
  (∀ w0 f, reaches R G w0 (Simulation.world f) →
           reaches R G w0 (Simulation.world (k (Simulation.world f) f).1)) →
  preserves R G (Simulation.bind Simulation.get_world k).
Proof. intros Hk w0 f H0. by apply Hk. Qed.

(** A computation that continues from a world it has computed. *)
Lemma reaches_put_world {A} w1 (k : Simulation.M A) w0 f :
  reaches R G w0 w1 → preserves R G k →
  reaches R G w0
    (Simulation.world
       (Simulation.bind (Simulation.put_world w1) (λ _, k) f).1).
Proof. intros H1 Hk. by apply Hk. Qed.

Ltac pres :=
  repeat first
    [ apply preserves_ret | apply preserves_raise | apply preserves_lift
    | apply preserves_read | apply preserves_get_world
    | apply preserves_assign_was_group_decision
    | apply preserves_assign_parsed_plan_type
    | apply preserves_assign_new_plan
    | apply preserves_bind; [|intros ?]
    | apply preserves_try_except; [|intros ?]
    | match goal with
      | |- preserves _ _ (match ?x with _ => _ end) => destruct x
      end ].

Lemma preserves_set_plan k p : preserves R G (Simulation.set_plan k p).
Proof.
  apply preserves_modify_world. intros ? ? ?.
  apply reaches_upd_agent; [apply R_set_new_plan|done].
Qed.

Lemma preserves_drop_incoming k rk : preserves R G (Simulation.drop_incoming k rk).
Proof.
  unfold Simulation.drop_incoming. destruct rk; [|apply preserves_ret].
  apply preserves_modify_world. intros ? ? ?.
  apply reaches_upd_agent; [|done]. intros a. case_bool_decide; eauto.
Qed.

Lemma preserves_release_requester rk :
  preserves R G (Simulation.release_requester rk).
Proof.
  unfold Simulation.release_requester. destruct rk; [|apply preserves_ret].
  apply preserves_bind; [|intros; apply preserves_set_plan].
  apply preserves_modify_world. intros ? ? ?.
  apply reaches_upd_agent; [eauto|done].
Qed.

Lemma preserves_inner_handler e : preserves R G (Simulation.inner_handler e).
Proof. unfold Simulation.inner_handler. pres. Qed.

Lemma preserves_validate_plan t : preserves R G (Simulation.validate_plan t).
Proof. unfold Simulation.validate_plan. pres. Qed.

Lemma preserves_accept_group k rk : preserves R G (Simulation.accept_group k rk).
Proof.
  unfold Simulation.accept_group. apply preserves_with_world.
  intros w0 f H0. set (w := Simulation.world f) in *.
  destruct (agents w !! k) as [agent|]; [|done].
  assert (Hrest : preserves R G
            (Simulation.bind (Simulation.drop_incoming k rk)
               (λ _, Simulation.bind (Simulation.read Simulation.new_plan)
                       (λ np, Simulation.set_plan k np)))).
  { apply preserves_bind; [apply preserves_drop_incoming|intros].
    apply preserves_bind; [apply preserves_read|intros].
    apply preserves_set_plan. }
  cbn zeta.
  match goal with
  | |- reaches R G w0 (Simulation.world (Simulation.bind ?c ?k' f).1) =>
      assert (Hc : reaches R G w0 (Simulation.world (c f).1))
  end.
  { destruct (match rk with
              | Some k0 => (λ r, (k0, r)) <$> agents w !! k0
              | None => None
              end) as [[k0 r]|]; [|done].
    match goal with |- context [if ?c then _ else _] => destruct c end.
    - pose proof (create_group_with_agents_reach w0 w (Agent.id agent) k0 H0)
        as H1.
      destruct (GroupManager.create_group_with_agents w (Agent.id agent) k0)
        as [ng w1].
      cbn [snd] in H1. apply reaches_put_world; [done|].
      destruct ng; [apply preserves_set_plan|].
      apply preserves_bind; [apply preserves_assign_new_plan|intros].
      apply preserves_set_plan.
    - apply (preserves_bind (Simulation.assign_new_plan idle_plan)
               (λ _, Simulation.release_requester (Some k0)));
        [apply preserves_assign_new_plan
        |intros; apply preserves_release_requester|done]. }
  unfold Simulation.bind at 1.
  match goal with
  | Hc : reaches R G w0 (Simulation.world (?c f).1) |- _ =>
      destruct (c f) as [f' [x|e]]; cbn [fst] in Hc |- *; [|done]
  end.
  by apply Hrest.
Qed.

Lemma preserves_attack_requester k rk :
  preserves R G (Simulation.attack_requester k rk).
Proof.
  unfold Simulation.attack_requester. apply preserves_with_world.
  intros w0 f H0. set (w := Simulation.world f) in *.
  assert (Hrest : preserves R G
    (Simulation.bind Simulation.get_world
       (λ w1, Simulation.bind
                (Simulation.release_requester
                   (Simulation.present_requester w1 rk))
                (λ _, Simulation.bind (Simulation.drop_incoming k rk)
                   (λ _, Simulation.bind
                           (Simulation.assign_new_plan idle_plan)
                           (λ _, Simulation.set_plan k idle_plan)))))).
  { apply preserves_bind; [apply preserves_get_world|intros].
    apply preserves_bind; [apply preserves_release_requester|intros].
    apply preserves_bind; [apply preserves_drop_incoming|intros].
    apply preserves_bind; [apply preserves_assign_new_plan|intros].
    apply preserves_set_plan. }
  match goal with
  | |- reaches R G w0 (Simulation.world (Simulation.bind ?c ?k' f).1) =>
      assert (Hc : reaches R G w0 (Simulation.world (c f).1))
  end.
  { destruct rk as [k0|]; [|done].
    destruct (agents w !! k) as [agent|]; [|done].
    destruct (agents w !! k0) as [r|]; [|done].
    destruct (Agent.is_alive r); [|done].
    by apply initiate_combat_reach. }
  unfold Simulation.bind at 1.
  match goal with
  | Hc : reaches R G w0 (Simulation.world (?c f).1) |- _ =>
      destruct (c f) as [f' [x|e]]; cbn [fst] in Hc |- *; [|done]
  end.
  by apply Hrest.
Qed.

Lemma preserves_ignore_requester k rk :
  preserves R G (Simulation.ignore_requester k rk).
Proof.
  unfold Simulation.ignore_requester.
  apply preserves_bind; [apply preserves_get_world|intros].
  apply preserves_bind; [apply preserves_release_requester|intros].
  apply preserves_drop_incoming.
Qed.

Lemma preserves_apply_new_plan k : preserves R G (Simulation.apply_new_plan k).
Proof.
  unfold Simulation.apply_new_plan.
  apply preserves_bind; [apply preserves_read|intros wgd].
  apply preserves_bind.
  - destruct (negb wgd); [apply preserves_ret|]. pres.
  - intros c. destruct c; [|apply preserves_ret].
    apply preserves_bind; [apply preserves_read|intros].
    apply preserves_set_plan.
Qed.

Lemma preserves_parse_decision k a d :
  preserves R G (Simulation.parse_decision k a d).
Proof.
  unfold Simulation.parse_decision.
  apply preserves_bind; [apply preserves_lift|intros name].
  apply preserves_bind; [apply preserves_lift|intros tgt].
  apply preserves_bind; [apply preserves_assign_was_group_decision|intros].
  apply preserves_bind; [pres|intros].
  apply preserves_bind; [apply preserves_read|intros wgd].
  destruct wgd.
  - apply preserves_bind; [apply preserves_read|intros ppt].
    apply preserves_bind; [pres|intros rk].
    case_bool_decide.
    + apply preserves_bind; [apply preserves_accept_group|intros].
      apply preserves_ret.
    + apply preserves_bind; [apply preserves_lift|intros aa].
      case_bool_decide.
      * apply preserves_bind; [apply preserves_attack_requester|intros].
        apply preserves_ret.
      * apply preserves_bind; [apply preserves_ignore_requester|intros].
        apply preserves_bind; [apply preserves_validate_plan|intros].
        apply preserves_ret.
  - apply preserves_bind; [apply preserves_validate_plan|intros].
    apply preserves_ret.
Qed.

Lemma preserves_process_result k d : preserves R G (Simulation.process_result k d).
Proof.
  unfold Simulation.process_result. apply preserves_with_world.
  intros w0 f H0.
  destruct (agents (Simulation.world f) !! k) as [a|]; [|done].
  destruct (Agent.is_alive a); [|done].
  revert w0 f H0. fold (preserves R G
    (Simulation.bind
       (if Simulation.truthy d
        then Simulation.try_except (Simulation.parse_decision k a d)
               (λ e, Simulation.bind (Simulation.inner_handler e)
                       (λ _, Simulation.ret Simulation.FallThrough))
        else Simulation.bind (Simulation.assign_new_plan idle_plan)
               (λ _, Simulation.ret Simulation.FallThrough))
       (λ flow, match flow with
                | Simulation.Continue => Simulation.ret tt
                | Simulation.FallThrough => Simulation.apply_new_plan k
                end))).
  apply preserves_bind.
  - destruct (Simulation.truthy d).
    + apply preserves_try_except; [apply preserves_parse_decision|intros].
      apply preserves_bind; [apply preserves_inner_handler|intros].
      apply preserves_ret.
    + apply preserves_bind; [apply preserves_assign_new_plan|intros].
      apply preserves_ret.
  - intros [|]; [apply preserves_ret|apply preserves_apply_new_plan].
Qed.

Lemma preserves_drain q : preserves R G (Simulation.drain q).
Proof.
  induction q as [|[k d] q IH]; [apply preserves_ret|].
  intros w0 f H0. cbn [Simulation.drain].
  pose proof (preserves_process_result k d w0 f H0) as H1.
  destruct (Simulation.process_result k d f) as [f' [x|e]]; cbn [fst] in *.
  - by apply IH.
  - done.
Qed.

Lemma process_llm_results_reach w0 w q :
  reaches R G w0 w → reaches R G w0 (Simulation._process_llm_results w q).1.
Proof.
  intros H0. unfold Simulation._process_llm_results.
  pose proof (preserves_drain q w0 (Simulation.mkFrame w Simulation.unbound) H0)
    as H1.
  by destruct (Simulation.drain q _) as [f' [x|e]].
Qed.

Lemma tick_reach w0 s inp :
  reaches R G w0 (Simulation.sim_world s) →
  reaches R G w0 (Simulation.sim_world (Simulation._tick s inp)).
Proof.
  intros H0. unfold Simulation._tick.
  pose proof (initiate_llm_requests_reach w0 _ (Simulation.time_step s)
                (Simulation.llm_request_queue s)
                (perception_reach w0 _ (Simulation.time_step s) H0)) as H2.
  destruct (AgentManager.initiate_llm_requests _ _ _) as [w2 q].
  cbn [fst Simulation.sim_world] in *.
  apply periodic_spawn_reach, manage_groups_reach,
    update_all_group_stats_reach, handle_deaths_reach, apply_consumption_reach.
  apply reaches_foldl.
  - intros ? ? ?. apply execute_agent_plan_step_reach.
  - by apply resolve_all_combats_reach.
Qed.

Lemma run_pass_reach w0 s arrived taken paused inp :
  reaches R G w0 (Simulation.sim_world s) →
  reaches R G w0
    (Simulation.sim_world (Simulation.run_pass s arrived taken paused inp)).
Proof.
  intros H0. unfold Simulation.run_pass.
  pose proof (process_llm_results_reach w0 (Simulation.sim_world s)
                (Simulation.llm_result_queue s ++ arrived) H0) as H1.
  destruct (Simulation._process_llm_results _ _) as [w1 rest].
  cbn [fst] in H1. destruct paused; [done|]. by apply tick_reach.
Qed.

End AgentRelation.

(** ** What holds between any two passes *)

(** A property of the agents of [w0] that the relation [R] carries over
    belongs to the agents of every world [w0] reaches. *)
Lemma reaches_invariant (R : Agent.t → Agent.t → Prop) G
    (P : Z → Agent.t → Prop) w0 w :
  (∀ k a a', R a a' → P k a → P k a') →
  (∀ k a, agents w0 !! k = Some a → P k a) →
  reaches R G w0 w →
  ∀ k a, agents w !! k = Some a → P k a.
Proof.
  intros HR HP [Hreach _] k a' Ha'.
  destruct (Hreach k a' Ha') as (a & Ha & Haa). eauto.
Qed.

Lemma create_agent_lookup w pos has_configs s d f t r k a :
  agents (AgentManager.create_agent w pos has_configs s d f t r).2 !! k
  = Some a →
  agents w !! k = Some a
  ∨ (k = next_agent_id w
     ∧ ∃ px py, pos = Some (px, py)
         ∧ a = Agent.init (next_agent_id w) px py s d f t r true).
Proof.
  unfold AgentManager.create_agent.
  destruct pos as [[px py]|]; [|by left].
  destruct has_configs; [|by left].
  destruct (GridManager.place_object _ _ _ _) as [placed gm].
  cbn [snd agents]. destruct (decide (k = next_agent_id w)) as [->|Hne].
  - rewrite lookup_insert_eq. intros [= <-]. right. eauto.
  - rewrite lookup_insert_ne by done. by left.
Qed.

Lemma spawn_resources_1_agents w draws q :
  agents (ResourceManager.spawn_resources_1 w draws q) = agents w.
Proof.
  unfold ResourceManager.spawn_resources_1.
  destruct (GridManager.get_random_empty_cell _ _); [|done].
  unfold ResourceManager.spawn_resource_at.
  by destruct (GridManager.place_object _ _ _ _).
Qed.

(** A property of the agents that holds for a newly created agent and is
    kept by one pass holds in every reachable world. *)
Lemma reachable_invariant (P : Z → Agent.t → Prop) :
  (∀ i px py s d f t r, P i (Agent.init i px py s d f t r true)) →
  (∀ s arrived taken paused inp,
     (∀ k a, agents (Simulation.sim_world s) !! k = Some a → P k a) →
     ∀ k a, agents (Simulation.sim_world
                      (Simulation.run_pass s arrived taken paused inp)) !! k
            = Some a → P k a) →
  ∀ w, reachable w → ∀ k a, agents w !! k = Some a → P k a.
Proof.
  intros Hinit Hpass w Hw.
  induction Hw as [|w draws hc s d f t r Hw IH Hd|w draws q Hw IH Hd
                  |s arrived taken paused inp Hw IH Hd]; intros k a Ha.
  - done.
  - apply create_agent_lookup in Ha as [Ha|(-> & px & py & _ & ->)]; eauto.
  - rewrite spawn_resources_1_agents in Ha. eauto.
  - eapply Hpass; eauto.
Qed.

Lemma take_damage_cases d a :
  Agent.take_damage d a = a
  ∨ ((0 < Agent.hp a)%Q
     ∧ Agent.take_damage d a
       = Agent.set_hp (Qmax 0 (Agent.hp a - Qmax 0 d)) a).
Proof.
  unfold Agent.take_damage. destruct (Agent.is_alive a) eqn:Hal; [|by left].
  right. split; [by apply is_alive_pos|done].
Qed.

Lemma reachable_started : reachable Scenario.started.
Proof.
  apply reachable_spawn; [|intros n; unfold in_grid, GRID_WIDTH, GRID_HEIGHT; destruct n; cbn [fst snd]; lia].
  apply reachable_create; [|intros n; unfold in_grid, GRID_WIDTH, GRID_HEIGHT; destruct n; cbn [fst snd]; lia].
  apply reachable_create; [apply reachable_init|].
  intros n. unfold in_grid, GRID_WIDTH, GRID_HEIGHT. cbn [fst snd]. lia.
Qed.

Lemma reachable_after_one_pass : reachable Scenario.after_one_pass.
Proof.
  apply reachable_pass; [apply reachable_started|].
  intros n. unfold in_grid, GRID_WIDTH, GRID_HEIGHT. cbn. lia.
Qed.

(** Between any two passes every agent has at most one opponent field
    set, so that it is in combat exactly when exactly one of the two
    fields is set. *)
Theorem reachable_one_opponent (w : World) (k : Z) (a : Agent.t) :
  reachable w → agents w !! k = Some a →
  one_opponent a
  ∧ Agent.in_combat a
    = xorb (is_some (Agent.in_combat_with_group a))
           (is_some (Agent.in_combat_with_agent a)).
Proof.
  intros Hw Ha.
  assert (H1 : one_opponent a).
  { revert w Hw k a Ha. apply (reachable_invariant (λ _, one_opponent)).
    - intros. by left.
    - intros s arrived taken paused inp Hs.
      apply (reaches_invariant (λ a a', one_opponent a → one_opponent a')
               (λ _ _, True) (λ _, one_opponent) (Simulation.sim_world s));
        [auto|exact Hs|].
      apply run_pass_reach.
      all: try (intros; unfold one_opponent in *; cbn; tauto).
      + intros d b Hb. by destruct (take_damage_cases d b) as [->|[_ ->]].
      + intros b i c _. unfold one_opponent. destruct b; cbn; auto.
      + split; [|done]. intros ? ? ?. eauto. }
  split; [done|]. unfold Agent.in_combat.
  destruct H1 as [-> | ->]; cbn; [done|].
  by destruct (Agent.in_combat_with_group a).
Qed.

Lemma reachable_one_opponent_witness :
  ∃ a, agents Scenario.after_one_pass !! 0 = Some a
    ∧ one_opponent a
    ∧ Agent.in_combat a
      = xorb (is_some (Agent.in_combat_with_group a))
             (is_some (Agent.in_combat_with_agent a)).
Proof.
  eexists. split; [vm_compute; reflexivity|].
  apply (reachable_one_opponent Scenario.after_one_pass 0 _).
  - apply reachable_after_one_pass.
  - vm_compute. reflexivity.
Defined.

(** Between any two passes every agent is stored under its own id, its
    hit points are between 0 and [AGENT_MAX_HP] and its resource level is
    between 0 and [AGENT_MAX_RESOURCES]. *)
Theorem reachable_agents_in_range (w : World) (k : Z) (a : Agent.t) :
  reachable w → agents w !! k = Some a →
  Agent.id a = k ∧ in_range a.
Proof.
  intros Hw Ha. revert w Hw k a Ha.
  apply (reachable_invariant (λ k a, Agent.id a = k ∧ in_range a)).
  - intros. split; [done|]. unfold in_range. cbn. repeat split.
    + discriminate.
    + apply Qle_refl.
    + by vm_compute.
    + by vm_compute.
  - intros s arrived taken paused inp Hs.
    apply (reaches_invariant
             (λ a a', Agent.id a' = Agent.id a ∧ (in_range a → in_range a'))
             (λ _ _, True) (λ k a, Agent.id a = k ∧ in_range a)
             (Simulation.sim_world s)).
    + intros k a a' [Hid Hr] [Hk Ha]. split; [congruence|auto].
    + exact Hs.
    + apply run_pass_reach.
      all: try (intros; exact I).
      all: try (intros; split; [done|]; unfold in_range; cbn; tauto).
      * intros a b c [H1 H2] [H3 H4]. split; [congruence|auto].
      * intros d b.
        destruct (take_damage_cases d b) as [->|[Hpos ->]]; [done|].
        split; [done|]. unfold in_range. cbn. intros (H1 & H2 & H3).
        split; [apply Q.le_max_l|]. split; [|done].
        apply Q.max_lub.
        -- change 0%Q with (inject_Z 0). rewrite <- Zle_Qle.
           unfold AGENT_MAX_HP. lia.
        -- pose proof (Q.le_max_l 0 d). lra.
      * intros b. split; [done|]. unfold in_range. cbn.
        unfold AGENT_CONSUMPTION_RATE. intros (H1 & H2 & H3).
        repeat split; try done; lia.
      * intros n b Hn. split; [done|]. unfold in_range, Agent.collect_resource.
        cbn. unfold AGENT_MAX_RESOURCES. intros (H1 & H2 & H3).
        repeat split; try done; lia.
      * split; [|done]. intros ? ? ?. eauto.
Qed.

Lemma reachable_agents_in_range_witness :
  ∃ a, agents Scenario.after_one_pass !! 1 = Some a
    ∧ Agent.id a = 1 ∧ in_range a.
Proof.
  eexists. split; [vm_compute; reflexivity|].
  apply (reachable_agents_in_range Scenario.after_one_pass 1 _).
  - apply reachable_after_one_pass.
  - vm_compute. reflexivity.
Defined.

(** A pass creates no agent and raises no agent's hit points: every
    agent in the store after the pass was there before it, under the same
    id, with at least as many hit points. *)
Theorem pass_never_heals (s : Simulation.Sim)
    (arrived : list (Z * Simulation.json)) (taken : nat) (paused : bool)
    (inp : Simulation.TickInput) (k : Z) (a' : Agent.t) :
  agents (Simulation.sim_world
            (Simulation.run_pass s arrived taken paused inp)) !! k = Some a' →
  ∃ a, agents (Simulation.sim_world s) !! k = Some a
       ∧ (Agent.hp a' <= Agent.hp a)%Q.
Proof.
  assert (Hr : reaches (λ a a', (Agent.hp a' <= Agent.hp a)%Q) (λ _ _, True)
                 (Simulation.sim_world s)
                 (Simulation.sim_world
                    (Simulation.run_pass s arrived taken paused inp))).
  { apply run_pass_reach.
    all: try (intros; exact I).
    all: try (intros; cbn; apply Qle_refl).
    - intros a b c H1 H2. cbn in *. lra.
    - intros d b.
      destruct (take_damage_cases d b) as [->|[Hpos ->]]; [apply Qle_refl|].
      cbn. pose proof (Q.le_max_l 0 d).
      apply Q.max_lub; lra.
    - split; [|done]. intros ? ? ?. eexists. split; [done|]. apply Qle_refl. }
  intros Ha'. exact (proj1 Hr k a' Ha').
Qed.

Lemma pass_never_heals_witness :
  ∃ a', agents Scenario.after_one_pass !! 0 = Some a'
    ∧ ∃ a, agents Scenario.started !! 0 = Some a
           ∧ (Agent.hp a' <= Agent.hp a)%Q.
Proof.
  eexists. split; [vm_compute; reflexivity|].
  apply (pass_never_heals (Simulation.mkSim Scenario.started 0 [] [] true)
           [(0, Scenario.goto_resource_2_2)] 0 false Scenario.quiet 0 _).
  vm_compute. reflexivity.
Defined.

(** ** Agents on the grid *)

Lemma agent_ids_at_elem gm k x y :
  k ∈ agent_ids_at gm x y ↔ ObjAgent k ∈ GridManager.get_objects_at gm x y.
Proof.
  unfold agent_ids_at. rewrite list_elem_of_omap. split.
  - intros (o & Ho & Hk). destruct o as [i|r]; [|done]. by injection Hk as ->.
  - intros Ho. by exists (ObjAgent k).
Qed.

Lemma agent_ids_at_blocked w x y :
  AgentManager.blocked_by_agent w x y = false →
  agent_ids_at (grid_manager w) x y = [].
Proof.
  unfold AgentManager.blocked_by_agent, agent_ids_at.
  induction (GridManager.get_objects_at _ _ _) as [|o l IH]; [done|].
  cbn. destruct o as [i|r]; cbn; [done|]. exact IH.
Qed.

Lemma is_valid_coordinate_dims gm gm' x y :
  GridManager.width gm' = GridManager.width gm →
  GridManager.height gm' = GridManager.height gm →
  GridManager.is_valid_coordinate gm' x y
  = GridManager.is_valid_coordinate gm x y.
Proof. unfold GridManager.is_valid_coordinate. by intros -> ->. Qed.

Lemma remove_first_agent_length heap i l :
  (length (omap (λ o, match o with ObjAgent i => Some i | ObjResource _ => None end)
             (remove_first (obj_eqb heap) (ObjAgent i) l))
   ≤ length (omap (λ o, match o with ObjAgent i => Some i | ObjResource _ => None end) l))%nat.
Proof.
  induction l as [|o l IH]; [done|]. cbn [remove_first].
  destruct (obj_eqb heap o (ObjAgent i)).
  - cbn. destruct o; cbn; lia.
  - cbn. destruct o; cbn; lia.
Qed.

Lemma remove_first_other_agent heap i j l :
  j ≠ i → ObjAgent j ∈ l →
  ObjAgent j ∈ remove_first (obj_eqb heap) (ObjAgent i) l.
Proof.
  intros Hne. induction l as [|o l IH]; [done|]. cbn [remove_first].
  intros [<-|Hin]%elem_of_cons.
  - cbn. destruct (j =? i) eqn:E; [lia|]. apply elem_of_cons. by left.
  - destruct (obj_eqb heap o (ObjAgent i)); [done|].
    apply elem_of_cons. right. by apply IH.
Qed.

Lemma remove_first_resource_agents heap r l :
  omap (λ o, match o with ObjAgent i => Some i | ObjResource _ => None end)
    (remove_first (obj_eqb heap) (ObjResource r) l)
  = omap (λ o, match o with ObjAgent i => Some i | ObjResource _ => None end) l.
Proof.
  induction l as [|o l IH]; [done|]. cbn [remove_first].
  destruct o as [i|r']; cbn.
  - by rewrite IH.
  - destruct (_ || _); [done|]. cbn. exact IH.
Qed.

(** Removing an Agent object keeps the dimensions and the other Agent
    objects, and adds none. *)
Lemma remove_agent_object heap gm i x y :
  let gm' := (GridManager.remove_object heap gm (ObjAgent i) x y).2 in
  GridManager.width gm' = GridManager.width gm
  ∧ GridManager.height gm' = GridManager.height gm
  ∧ (∀ x' y', (length (agent_ids_at gm' x' y')
               ≤ length (agent_ids_at gm x' y'))%nat)
  ∧ (∀ j x' y', j ≠ i →
       ObjAgent j ∈ GridManager.get_objects_at gm x' y' →
       ObjAgent j ∈ GridManager.get_objects_at gm' x' y').
Proof.
  unfold GridManager.remove_object.
  destruct (GridManager.is_valid_coordinate gm x y); [|by cbn].
  destruct (existsb _ _); [|by cbn].
  cbn [snd]. split; [done|]. split; [done|]. split.
  - intros x' y'. unfold agent_ids_at. rewrite get_objects_at_insert.
    destruct (decide ((x', y') = (x, y))) as [[= -> ->]|Hne]; [|done].
    apply remove_first_agent_length.
  - intros j x' y' Hne. rewrite get_objects_at_insert.
    destruct (decide ((x', y') = (x, y))) as [[= -> ->]|Hne']; [|done].
    by apply remove_first_other_agent.
Qed.

(** Placing an object on a valid cell appends it to that cell and leaves
    the other cells as they were. *)
Lemma place_object_valid gm o x y :
  GridManager.is_valid_coordinate gm x y = true →
  let gm' := (GridManager.place_object gm o x y).2 in
  GridManager.width gm' = GridManager.width gm
  ∧ GridManager.height gm' = GridManager.height gm
  ∧ ∀ x' y', GridManager.get_objects_at gm' x' y'
             = if decide ((x', y') = (x, y))
               then GridManager.get_objects_at gm x y ++ [o]
               else GridManager.get_objects_at gm x' y'.
Proof.
  intros Hv. unfold GridManager.place_object. rewrite Hv. cbn [snd].
  split; [done|]. split; [done|]. intros x' y'.
  by rewrite get_objects_at_insert.
Qed.

Lemma same_grid_place_resource gm0 gm r x y :
  same_agents_on_grid gm0 gm →
  same_agents_on_grid gm0 (GridManager.place_object gm (ObjResource r) x y).2.
Proof.
  intros (Hw & Hh & Hids).
  destruct (GridManager.is_valid_coordinate gm x y) eqn:Hv.
  - destruct (place_object_valid gm (ObjResource r) x y Hv) as (Hw' & Hh' & Hc).
    split; [congruence|]. split; [congruence|]. intros x' y'.
    rewrite <- Hids. unfold agent_ids_at. rewrite Hc.
    destruct (decide _) as [[= -> ->]|]; [|done].
    rewrite omap_app. cbn. by rewrite app_nil_r.
  - unfold GridManager.place_object. by rewrite Hv.
Qed.

Lemma same_grid_remove_resource gm0 heap gm r x y :
  same_agents_on_grid gm0 gm →
  same_agents_on_grid gm0
    (GridManager.remove_object heap gm (ObjResource r) x y).2.
Proof.
  intros (Hw & Hh & Hids). unfold GridManager.remove_object.
  destruct (GridManager.is_valid_coordinate gm x y); [|done].
  destruct (existsb _ _); [|done]. cbn [snd].
  split; [done|]. split; [done|]. intros x' y'. rewrite <- Hids.
  unfold agent_ids_at. rewrite get_objects_at_insert.
  destruct (decide _) as [[= -> ->]|]; [|done].
  apply remove_first_resource_agents.
Qed.

Lemma same_place_trans a b c :
  same_place a b → same_place b c → same_place a c.
Proof. intros [H1 H2] [H3 H4]. split; congruence. Qed.

Lemma same_place_take_damage d a : same_place a (Agent.take_damage d a).
Proof. by destruct (take_damage_cases d a) as [->|[_ ->]]. Qed.

Lemma same_place_link b i a :
  same_place a (Agent.set_combat (CombatManager.linkage b i).1
                                 (CombatManager.linkage b i).2 a).
Proof. by destruct b. Qed.

(** What has kept the place of every agent and the Agent objects of
    every cell has kept the grid in order. *)
Lemma frame_grid_ok w0 w :
  reaches same_place same_agents_on_grid w0 w → grid_ok w0 → grid_ok w.
Proof.
  intros [Hags (Hw & Hh & Hids)] (Hw0 & Hh0 & Hon & Hone).
  split; [congruence|]. split; [congruence|]. split.
  - intros k a' Ha'. destruct (Hags k a' Ha') as (a & Ha & Hx & Hy).
    destruct (Hon k a Ha) as [Hv Hm]. unfold on_grid. rewrite Hx, Hy. split.
    + by rewrite (is_valid_coordinate_dims _ _ _ _ Hw Hh).
    + by rewrite <- agent_ids_at_elem, Hids, agent_ids_at_elem.
  - intros x y. by rewrite Hids.
Qed.

Lemma reaches_start w : reaches same_place same_agents_on_grid w w.
Proof. split; [|done]. intros k a Ha. by exists a. Qed.

(** Discharges the assumptions on [same_place] and [same_agents_on_grid]
    that a lemma of the section asks for. *)
Ltac place_kept :=
  lazymatch goal with
  | |- reaches _ _ _ _ => apply reaches_start
  | |- _ =>
      first [ exact same_place_trans
            | exact same_place_take_damage
            | exact same_place_link
            | exact same_grid_place_resource
            | exact same_grid_remove_resource
            | by intros; split ]
  end.

(** [grid_ok] goes through a function that the section shows to keep a
    relation, by the lemma [L] about it. *)
Ltac kept_by L :=
  match goal with
  | H : grid_ok ?w |- grid_ok _ =>
      apply (frame_grid_ok w); [|exact H]; apply L; place_kept
  end.

(** The move of an Agent object to a valid cell that holds no Agent
    object. *)
Lemma move_agent_grid_ok w i ox oy nx ny :
  grid_ok w →
  GridManager.is_valid_coordinate (grid_manager w) nx ny = true →
  AgentManager.blocked_by_agent w nx ny = false →
  let r := GridManager.move_object (heap w) (agents w) (grid_manager w)
             (ObjAgent i) ox oy nx ny in
  grid_ok (set_grid_manager r.1.2 (set_agents r.2 w)).
Proof.
  intros (Hw0 & Hh0 & Hon & Hone) Hv Hfree. unfold GridManager.move_object.
  rewrite Hv. cbn [negb].
  destruct (remove_agent_object (heap w) (grid_manager w) i ox oy)
    as (Hw1 & Hh1 & Hlen & Hkeep).
  destruct (GridManager.remove_object _ _ _ _ _) as [removed gm1].
  cbn [snd] in Hw1, Hh1, Hlen, Hkeep.
  assert (Hv1 : GridManager.is_valid_coordinate gm1 nx ny = true)
    by by rewrite (is_valid_coordinate_dims _ _ _ _ Hw1 Hh1).
  destruct (place_object_valid gm1 (ObjAgent i) nx ny Hv1) as (Hw2 & Hh2 & Hc).
  unfold GridManager.place_object in *. rewrite Hv1 in *.
  cbn [fst snd] in *.
  set (gm2 := GridManager.mk _ _ _) in *.
  split; [cbn; congruence|]. split; [cbn; congruence|]. split.
  - intros k a Ha. cbn [agents set_grid_manager set_agents grid_manager] in *.
    unfold on_grid.
    rewrite (is_valid_coordinate_dims (grid_manager w) gm2)
      by congruence.
    rewrite Hc. destruct (decide (k = i)) as [->|Hne].
    + rewrite lookup_alter_eq in Ha.
      destruct (agents w !! i) as [a0|]; [|done]. injection Ha as <-.
      cbn. split; [done|]. rewrite decide_True by done.
      apply elem_of_app. right. by apply list_elem_of_singleton.
    + rewrite lookup_alter_ne in Ha by done.
      destruct (Hon k a Ha) as [Hva Hm]. split; [done|].
      apply (Hkeep k _ _ Hne) in Hm.
      destruct (decide _) as [[= <- <-]|]; [|done].
      apply elem_of_app. by left.
  - intros x y. cbn [grid_manager set_grid_manager]. unfold agent_ids_at.
    rewrite Hc. destruct (decide _) as [[= -> ->]|].
    + rewrite omap_app, length_app. cbn.
      pose proof (Hlen nx ny) as Hl.
      rewrite (agent_ids_at_blocked w nx ny Hfree) in Hl.
      unfold agent_ids_at in Hl. cbn in Hl. lia.
    + etrans; [apply Hlen|apply Hone].
Qed.

Lemma execute_move_grid_ok w k d t :
  grid_ok w → grid_ok (AgentManager._execute_move w k d t).2.
Proof.
  intros H0. unfold AgentManager._execute_move.
  destruct (agents w !! k) as [a|]; [|done].
  destruct (assoc_string d AgentManager.move_map) as [[dx dy]|]; [|done].
  destruct (GridManager.is_valid_coordinate _ _ _) eqn:Hv; [|done].
  destruct (AgentManager.blocked_by_agent _ _ _) eqn:Hfree; [done|].
  pose proof (move_agent_grid_ok w k (Agent.x a) (Agent.y a) _ _ H0 Hv Hfree)
    as H1.
  cbn zeta in H1.
  destruct (GridManager.move_object _ _ _ _ _ _ _ _) as [[ok gm'] ags1].
  cbn [fst snd] in H1. destruct ok; cbn [snd]; [|done].
  kept_by reaches_upd_agent.
Qed.

Lemma set_idle_grid_ok w k : grid_ok w → grid_ok (AgentManager.set_idle w k).
Proof. intros H0. kept_by set_idle_reach. Qed.

Lemma explore_step_grid_ok w k a c :
  grid_ok w → grid_ok (AgentManager.explore_step w k a c).
Proof.
  intros H0. unfold AgentManager.explore_step.
  destruct (omap _ _) as [|d ds]; [by apply set_idle_grid_ok|].
  destruct (nth_error _ _) as [[dir ?]|]; [|by apply set_idle_grid_ok].
  by apply execute_move_grid_ok.
Qed.

Lemma move_step_grid_ok w k a cur tgt :
  grid_ok w → grid_ok (AgentManager.move_step w k a cur tgt).
Proof.
  intros H0. unfold AgentManager.move_step.
  destruct (negb _); [|by apply set_idle_grid_ok].
  match goal with |- context [AgentManager._execute_move w k ?d ?t] =>
    pose proof (execute_move_grid_ok w k d t H0) as H1;
    destruct (AgentManager._execute_move w k d t) as [ok w1]
  end.
  cbn [snd] in H1.
  destruct (AgentManager.py_not ok); [by apply set_idle_grid_ok|done].
Qed.

Lemma goto_step_grid_ok w k a pt tg :
  grid_ok w → grid_ok (AgentManager.goto_step w k a pt tg).
Proof.
  intros H0. unfold AgentManager.goto_step.
  assert (Hgen : ∀ tp : option Pos,
    grid_ok
      match tp with
      | Some target_pos =>
          if bool_decide ((Agent.x a, Agent.y a) = target_pos)
          then match pt with
               | GO_TO_RESOURCE =>
                   AgentManager.harvest_step w k a (Agent.x a, Agent.y a)
               | GO_TO_AGENT =>
                   match AgentManager.target_key tg with
                   | Some t => AgentManager.arrive_at_agent w k a t
                   | None => AgentManager.set_idle w k
                   end
               | _ => AgentManager.set_idle w k
               end
          else AgentManager.move_step w k a (Agent.x a, Agent.y a) target_pos
      | None => AgentManager.set_idle w k
      end).
  { intros [tp|]; [|by apply set_idle_grid_ok].
    case_bool_decide; [|by apply move_step_grid_ok].
    destruct pt; try (by apply set_idle_grid_ok).
    - kept_by harvest_step_reach.
    - destruct (AgentManager.target_key tg);
        [kept_by arrive_at_agent_reach|by apply set_idle_grid_ok]. }
  destruct tg; [by apply set_idle_grid_ok|apply Hgen..].
Qed.

Lemma execute_agent_plan_step_grid_ok w k c :
  grid_ok w → grid_ok (AgentManager.execute_agent_plan_step w k c).
Proof.
  intros H0. unfold AgentManager.execute_agent_plan_step.
  destruct (AgentManager.get_agent w k) as [a|]; [|done].
  destruct (_ || _); [done|].
  destruct (plan (Agent.current_plan a)); try done.
  - by apply goto_step_grid_ok.
  - by apply goto_step_grid_ok.
  - by apply goto_step_grid_ok.
  - kept_by form_group_step_reach.
  - by apply set_idle_grid_ok.
  - kept_by attack_step_reach.
  - by apply explore_step_grid_ok.
Qed.

Lemma remove_agent_grid_ok w i :
  grid_ok w → grid_ok (AgentManager.remove_agent w i).2.
Proof.
  intros H0. unfold AgentManager.remove_agent.
  destruct (agents w !! i) as [a|] eqn:Hi; [|done].
  destruct (remove_agent_object (heap (set_agents (delete i (agents w)) w))
              (grid_manager w) i (Agent.x a) (Agent.y a))
    as (Hw1 & Hh1 & Hlen & Hkeep).
  cbn [grid_manager set_agents].
  destruct (GridManager.remove_object _ _ _ _ _) as [removed gm].
  cbn [snd] in *.
  assert (H1 : grid_ok (set_grid_manager gm
                          (set_agents (delete i (agents w)) w))).
  { destruct H0 as (Hw0 & Hh0 & Hon & Hone).
    split; [cbn; congruence|]. split; [cbn; congruence|]. split.
    - intros k b Hb. cbn [agents set_grid_manager set_agents grid_manager] in *.
      destruct (decide (k = i)) as [->|Hne];
        [by rewrite lookup_delete_eq in Hb|].
      rewrite lookup_delete_ne in Hb by done.
      destruct (Hon k b Hb) as [Hv Hm]. split.
      + by rewrite (is_valid_coordinate_dims _ _ _ _ Hw1 Hh1).
      + by apply Hkeep.
    - intros x y. cbn [grid_manager set_grid_manager].
      etrans; [apply Hlen|apply Hone]. }
  match goal with |- grid_ok (AgentManager.clear_pending_requests_involving ?w3 i) =>
    assert (H2 : grid_ok w3)
  end.
  { destruct (Agent.group_id a) as [gid|]; [|done].
    destruct (gid =? 0); [done|]. kept_by remove_agent_from_group_reach. }
  kept_by clear_pending_requests_involving_reach.
Qed.

Lemma foldl_grid_ok {X} (step : World → X → World) l :
  (∀ w x, grid_ok w → grid_ok (step w x)) →
  ∀ w, grid_ok w → grid_ok (foldl step w l).
Proof.
  intros Hstep. induction l as [|x l IH]; intros w H0; cbn [foldl]; auto.
Qed.

Lemma handle_deaths_grid_ok w :
  grid_ok w → grid_ok (AgentManager.handle_deaths w).
Proof.
  intros H0. unfold AgentManager.handle_deaths.
  apply foldl_grid_ok; [|done]. intros ? ? ?. by apply remove_agent_grid_ok.
Qed.

Lemma tick_grid_ok s inp :
  grid_ok (Simulation.sim_world s) →
  grid_ok (Simulation.sim_world (Simulation._tick s inp)).
Proof.
  intros H0. unfold Simulation._tick.
  assert (H1 : grid_ok (AgentManager.update_agent_perception_and_memory
                          (Simulation.sim_world s) (Simulation.time_step s)))
    by kept_by perception_reach.
  assert (H2 : grid_ok (AgentManager.initiate_llm_requests
                          (AgentManager.update_agent_perception_and_memory
                             (Simulation.sim_world s) (Simulation.time_step s))
                          (Simulation.time_step s)
                          (Simulation.llm_request_queue s)).1)
    by (clear H0; kept_by initiate_llm_requests_reach).
  destruct (AgentManager.initiate_llm_requests _ _ _) as [w2 q].
  cbn [fst Simulation.sim_world] in *.
  assert (H3 : grid_ok (CombatManager.resolve_all_combats w2
                          (Simulation.combat_rand inp)))
    by (clear H0 H1; kept_by resolve_all_combats_reach).
  match goal with |- context [foldl ?f ?w3 ?l] =>
    assert (H4 : grid_ok (foldl f w3 l))
      by (apply foldl_grid_ok; [|done]; intros ? ? ?;
          by apply execute_agent_plan_step_grid_ok);
    generalize dependent (foldl f w3 l)
  end.
  intros w4 H4.
  assert (H5 : grid_ok (AgentManager.apply_consumption w4))
    by (clear - H4; kept_by apply_consumption_reach).
  apply handle_deaths_grid_ok in H5.
  assert (H7 : grid_ok (GroupManager.update_all_group_stats
                          (AgentManager.handle_deaths
                             (AgentManager.apply_consumption w4))))
    by (clear - H5; kept_by update_all_group_stats_reach).
  assert (H8 : grid_ok (GroupManager.manage_groups
                          (GroupManager.update_all_group_stats
                             (AgentManager.handle_deaths
                                (AgentManager.apply_consumption w4)))))
    by (clear - H7; kept_by manage_groups_reach).
  clear - H8. kept_by periodic_spawn_reach.
Qed.

Lemma run_pass_grid_ok s arrived taken paused inp :
  grid_ok (Simulation.sim_world s) →
  grid_ok (Simulation.sim_world
             (Simulation.run_pass s arrived taken paused inp)).
Proof.
  intros H0. unfold Simulation.run_pass.
  assert (H1 : grid_ok (Simulation._process_llm_results
                          (Simulation.sim_world s)
                          (Simulation.llm_result_queue s ++ arrived)).1)
    by kept_by process_llm_results_reach.
  destruct (Simulation._process_llm_results _ _) as [w1 rest].
  cbn [fst] in H1. destruct paused; [done|]. by apply tick_grid_ok.
Qed.

Lemma get_random_empty_cell_Some gm draws p :
  GridManager.get_random_empty_cell gm draws = Some p →
  GridManager.get_objects_at gm p.1 p.2 = [] ∧ ∃ n, p = draws n.
Proof.
  unfold GridManager.get_random_empty_cell. intros Hf.
  apply find_some in Hf as [Hin He]. split.
  - by apply bool_decide_eq_true in He.
  - apply in_map_iff in Hin as (n & <- & _). by exists n.
Qed.

Lemma in_grid_valid gm p :
  GridManager.width gm = GRID_WIDTH → GridManager.height gm = GRID_HEIGHT →
  in_grid p → GridManager.is_valid_coordinate gm p.1 p.2 = true.
Proof.
  intros Hw Hh [H1 H2]. unfold GridManager.is_valid_coordinate.
  rewrite Hw, Hh. lia.
Qed.

Lemma valid_in_grid gm x y :
  GridManager.width gm = GRID_WIDTH → GridManager.height gm = GRID_HEIGHT →
  GridManager.is_valid_coordinate gm x y = true → in_grid (x, y).
Proof.
  intros Hw Hh. unfold GridManager.is_valid_coordinate, in_grid.
  rewrite Hw, Hh. cbn [fst snd]. lia.
Qed.

Lemma create_agent_grid_ok w draws has_configs s d f t r :
  (∀ n, in_grid (draws n)) → grid_ok w →
  grid_ok (AgentManager.create_agent w
             (GridManager.get_random_empty_cell (grid_manager w) draws)
             has_configs s d f t r).2.
Proof.
  intros Hd H0. unfold AgentManager.create_agent.
  destruct (GridManager.get_random_empty_cell _ _) as [[px py]|] eqn:Hp;
    [|done].
  destruct has_configs; [|done].
  apply get_random_empty_cell_Some in Hp as [Hempty [n Hn]].
  cbn [fst snd] in Hempty.
  destruct H0 as (Hw0 & Hh0 & Hon & Hone).
  assert (Hv : GridManager.is_valid_coordinate (grid_manager w) px py = true).
  { pose proof (in_grid_valid (grid_manager w) (draws n) Hw0 Hh0 (Hd n)) as Hv.
    by rewrite <- Hn in Hv. }
  destruct (place_object_valid (grid_manager w) (ObjAgent (next_agent_id w))
              px py Hv) as (Hw1 & Hh1 & Hc).
  destruct (GridManager.place_object _ _ _ _) as [placed gm].
  cbn [snd] in *. rewrite Hempty in Hc.
  split; [cbn; congruence|]. split; [cbn; congruence|]. split.
  - intros k a Ha. cbn [agents grid_manager] in *. unfold on_grid.
    rewrite (is_valid_coordinate_dims (grid_manager w) gm) by done.
    rewrite Hc. destruct (decide (k = next_agent_id w)) as [->|Hne].
    + rewrite lookup_insert_eq in Ha. injection Ha as <-. cbn.
      split; [done|]. rewrite decide_True by done.
      by apply list_elem_of_singleton.
    + rewrite lookup_insert_ne in Ha by done.
      destruct (Hon k a Ha) as [Hva Hm]. split; [done|].
      destruct (decide _) as [[= <- <-]|]; [|done].
      rewrite Hempty in Hm. by apply not_elem_of_nil in Hm.
  - intros x y. cbn [grid_manager]. unfold agent_ids_at. rewrite Hc.
    destruct (decide _); [cbn; lia|apply Hone].
Qed.

Lemma reachable_grid_ok w : reachable w → grid_ok w.
Proof.
  induction 1 as [|w draws hc s d f t r Hw IH Hd|w draws q Hw IH Hd
                 |s arrived taken paused inp Hw IH Hd].
  - split; [done|]. split; [done|]. split; [done|]. intros x y.
    unfold agent_ids_at, GridManager.get_objects_at.
    cbn [init_world grid_manager GridManager.init GridManager.grid].
    rewrite lookup_empty. cbn. lia.
  - by apply create_agent_grid_ok.
  - change (ResourceManager.spawn_resources_1 w draws q)
      with (ResourceManager.periodic_spawn w true draws q).
    kept_by periodic_spawn_reach.
  - by apply run_pass_grid_ok.
Qed.

(** Between any two passes every agent stands on a cell of the grid, and
    the list of that cell holds the Agent object. *)
Theorem agents_stand_on_their_cells (w : World) (k : Z) (a : Agent.t) :
  reachable w → agents w !! k = Some a →
  in_grid (Agent.x a, Agent.y a)
  ∧ ObjAgent k ∈ GridManager.get_objects_at (grid_manager w)
                   (Agent.x a) (Agent.y a).
Proof.
  intros Hw Ha. destruct (reachable_grid_ok w Hw) as (Hw0 & Hh0 & Hon & _).
  destruct (Hon k a Ha) as [Hv Hm]. split; [|done].
  by apply (valid_in_grid (grid_manager w)).
Qed.

Lemma agents_stand_on_their_cells_witness :
  ∃ a, agents Scenario.after_one_pass !! 0 = Some a
    ∧ in_grid (Agent.x a, Agent.y a)
    ∧ ObjAgent 0 ∈ GridManager.get_objects_at
                     (grid_manager Scenario.after_one_pass)
                     (Agent.x a) (Agent.y a).
Proof.
  eexists. split; [vm_compute; reflexivity|].
  apply (agents_stand_on_their_cells Scenario.after_one_pass 0 _).
  - apply reachable_after_one_pass.
  - vm_compute. reflexivity.
Defined.

(** Between any two passes no cell of the grid holds more than one Agent
    object, and no two agents of the store have the same position. *)
Theorem no_two_agents_share_a_cell (w : World) :
  reachable w →
  (∀ x y, (length (agent_ids_at (grid_manager w) x y) ≤ 1)%nat)
  ∧ ∀ k1 k2 a1 a2,
      agents w !! k1 = Some a1 → agents w !! k2 = Some a2 →
      Agent.x a1 = Agent.x a2 → Agent.y a1 = Agent.y a2 → k1 = k2.
Proof.
  intros Hw. destruct (reachable_grid_ok w Hw) as (_ & _ & Hon & Hone).
  split; [exact Hone|]. intros k1 k2 a1 a2 H1 H2 Hx Hy.
  destruct (Hon k1 a1 H1) as [_ Hm1]. destruct (Hon k2 a2 H2) as [_ Hm2].
  rewrite Hx, Hy in Hm1. apply agent_ids_at_elem in Hm1, Hm2.
  pose proof (Hone (Agent.x a2) (Agent.y a2)) as Hl.
  destruct (agent_ids_at _ _ _) as [|i [|i' l]]; cbn in Hl; [| |lia].
  - by apply not_elem_of_nil in Hm1.
  - apply list_elem_of_singleton in Hm1, Hm2. congruence.
Qed.

Lemma no_two_agents_share_a_cell_witness :
  (∀ x y, (length (agent_ids_at (grid_manager Scenario.after_one_pass) x y)
           ≤ 1)%nat)
  ∧ ∀ k1 k2 a1 a2,
      agents Scenario.after_one_pass !! k1 = Some a1 →
      agents Scenario.after_one_pass !! k2 = Some a2 →
      Agent.x a1 = Agent.x a2 → Agent.y a1 = Agent.y a2 → k1 = k2.
Proof.
  apply (no_two_agents_share_a_cell Scenario.after_one_pass).
  apply reachable_after_one_pass.
Defined.

(** ** No dead agent stays in the store *)

Lemma handle_deaths_alive w k a :
  agents (AgentManager.handle_deaths w) !! k = Some a →
  Agent.is_alive a = true.
Proof.
  intros Ha.
  assert (Hhp : hp_of (AgentManager.handle_deaths w) k = Some (Agent.hp a))
    by (unfold hp_of; by rewrite Ha).
  unfold AgentManager.handle_deaths in Hhp.
  rewrite foldl_remove_agent_hp in Hhp.
  destruct (decide _) as [|Hnin]; [done|].
  unfold hp_of in Hhp. destruct (agents w !! k) as [a0|] eqn:Ha0; [|done].
  injection Hhp as Hhp.
  destruct (Agent.is_alive a0) eqn:Hal.
  - apply is_alive_pos. rewrite <- Hhp. by apply is_alive_pos.
  - exfalso. apply Hnin. apply list_elem_of_In, filter_In. split.
    + apply list_elem_of_In, sorted_ids_elem, elem_of_dom. by eexists.
    + by rewrite Ha0, Hal.
Qed.

Lemma same_hp_alive w0 w :
  reaches same_hp (λ _ _, True) w0 w →
  (∀ k a, agents w0 !! k = Some a → Agent.is_alive a = true) →
  ∀ k a, agents w !! k = Some a → Agent.is_alive a = true.
Proof.
  intros [Hags _] H0 k a' Ha'. destruct (Hags k a' Ha') as (a & Ha & Hhp).
  apply is_alive_pos. rewrite Hhp. apply is_alive_pos. eauto.
Qed.

(** Discharges the assumptions on [same_hp] that a lemma of the section
    asks for. *)
Ltac hp_kept :=
  lazymatch goal with
  | |- reaches _ _ _ _ => split; [by intros ? b ?; exists b|exact I]
  | |- _ =>
      first [ by intros
            | by intros; exact I
            | intros ? ? ? ? ?; unfold same_hp in *; congruence
            | by intros []; intros ]
  end.

(** A tick ends with living agents only. *)
Lemma tick_alive s inp k a :
  agents (Simulation.sim_world (Simulation._tick s inp)) !! k = Some a →
  Agent.is_alive a = true.
Proof.
  unfold Simulation._tick.
  destruct (AgentManager.initiate_llm_requests _ _ _) as [w2 q].
  cbn [Simulation.sim_world].
  match goal with |- context [AgentManager.handle_deaths ?w5] =>
    apply (same_hp_alive (AgentManager.handle_deaths w5));
      [|apply handle_deaths_alive]
  end.
  apply periodic_spawn_reach, manage_groups_reach,
    update_all_group_stats_reach.
  all: hp_kept.
Qed.

(** Between any two passes every agent of the store is alive. *)
Theorem reachable_agents_alive (w : World) (k : Z) (a : Agent.t) :
  reachable w → agents w !! k = Some a → Agent.is_alive a = true.
Proof.
  intros Hw. revert k a.
  apply (reachable_invariant (λ _ a, Agent.is_alive a = true)); [| |done].
  - intros. apply is_alive_pos. cbn. by vm_compute.
  - intros s arrived taken paused inp Hs k a.
    destruct paused eqn:Hp.
    + apply (same_hp_alive (Simulation.sim_world s)); [|exact Hs].
      unfold Simulation.run_pass.
      assert (Hd : reaches same_hp (λ _ _, True) (Simulation.sim_world s)
                     (Simulation._process_llm_results (Simulation.sim_world s)
                        (Simulation.llm_result_queue s ++ arrived)).1)
        by (apply process_llm_results_reach; hp_kept).
      by destruct (Simulation._process_llm_results _ _) as [w1 rest].
    + unfold Simulation.run_pass.
      destruct (Simulation._process_llm_results _ _) as [w1 rest].
      apply tick_alive.
Qed.

Lemma reachable_agents_alive_witness :
  ∃ a, agents Scenario.after_one_pass !! 1 = Some a
    ∧ Agent.is_alive a = true.
Proof.
  eexists. split; [vm_compute; reflexivity|].
  apply (reachable_agents_alive Scenario.after_one_pass 1 _).
  - apply reachable_after_one_pass.
  - vm_compute. reflexivity.
Defined.

(** ** What a pass leaves alone *)

(** A pass changes neither the id nor the drawn statistics of an agent:
    every agent in the store after the pass was in it before the pass,
    under the same key, with the same id, strength, defense, fighting
    ability, harvest rate and configuration. *)
Theorem pass_keeps_stats (s : Simulation.Sim)
    (arrived : list (Z * Simulation.json)) (taken : nat) (paused : bool)
    (inp : Simulation.TickInput) (k : Z) (a' : Agent.t) :
  agents (Simulation.sim_world
            (Simulation.run_pass s arrived taken paused inp)) !! k = Some a' →
  ∃ a, agents (Simulation.sim_world s) !! k = Some a ∧ same_stats a a'.
Proof.
  assert (Hr : reaches same_stats (λ _ _, True) (Simulation.sim_world s)
                 (Simulation.sim_world
                    (Simulation.run_pass s arrived taken paused inp))).
  { apply run_pass_reach.
    all: try (intros; exact I).
    all: try (by intros; repeat split).
    - intros a b c (? & ? & ? & ? & ? & ?) (? & ? & ? & ? & ? & ?).
      repeat split; congruence.
    - intros d b. by destruct (take_damage_cases d b) as [->|[_ ->]].
    - split; [|done]. intros ? b ?. by exists b. }
  intros Ha'. exact (proj1 Hr k a' Ha').
Qed.

Lemma pass_keeps_stats_witness :
  ∃ a', agents Scenario.after_one_pass !! 0 = Some a'
    ∧ ∃ a, agents Scenario.started !! 0 = Some a ∧ same_stats a a'.
Proof.
  eexists. split; [vm_compute; reflexivity|].
  apply (pass_keeps_stats (Simulation.mkSim Scenario.started 0 [] [] true)
           [(0, Scenario.goto_resource_2_2)] 0 false Scenario.quiet 0 _).
  vm_compute. reflexivity.
Defined.

(** Draining the results changes plans and relations only: it leaves the
    grid as it is and moves no agent, and no agent's hit points or
    resource level change. *)
Theorem process_llm_results_moves_nothing (w : World)
    (queue : list (Z * Simulation.json)) :
  grid_manager (Simulation._process_llm_results w queue).1 = grid_manager w
  ∧ ∀ k a', agents (Simulation._process_llm_results w queue).1 !! k = Some a' →
            ∃ a, agents w !! k = Some a ∧ same_body a a'.
Proof.
  assert (Hr : reaches same_body (λ gm gm', gm' = gm) w
                 (Simulation._process_llm_results w queue).1).
  { apply process_llm_results_reach.
    all: try (by intros; repeat split).
    - intros a b c (? & ? & ? & ?) (? & ? & ? & ?). repeat split; congruence.
    - split; [|done]. intros ? b ?. by exists b. }
  destruct Hr as [Hags Hg]. by split.
Qed.
